(** * depsonar: project detection, outdated-dependency resolution, health
    score, update commands and the scan cache

    A shallow embedding of [src/services/project.ts], of the registry in
    [src/constants.ts], of the scan loop of [src/checker.ts], and of the
    cache reader of [src/dashboard.ts] and the text limit of
    [src/services/formatter.ts].

    - JavaScript values read from [JSON.parse] are the inductive [value];
      numbers are integers ([Z]), strings are sequences of code units
      below 256 ([string]). What arithmetic makes of a text that is read as
      a number is a [JS.number]: an integer, a fraction, [NaN] or an
      infinity.
    - Everything the code asks of the outside (running a command, reading a
      file, the clock, the JSON codec of the runtime) goes through the class
      [Runtime] and the state [State]; the functions of the source are
      written in the monad [M] of state and exceptions, with [try_catch]
      where the source has [try { } catch { }]. *)

From Stdlib Require Import ZArith String Ascii List Bool Lia.
From stdpp Require Import base tactics option list gmap strings pretty.

Set Warnings "-register-all".
Open Scope string_scope.
Open Scope Z_scope.
#[global] Arguments String.append !_ _ : simpl nomatch.

(** ** Strings *)

Module Str.

Definition is_digit (c : ascii) : bool :=
  let n := nat_of_ascii c in (48 <=? n)%nat && (n <=? 57)%nat.

(** White space as [String.prototype.trim] and the class [\s] see it,
    among code units below 256: TAB, LF, VT, FF, CR, SPACE, NBSP. *)
Definition is_space (c : ascii) : bool :=
  let n := nat_of_ascii c in
  ((9 <=? n)%nat && (n <=? 13)%nat) || (n =? 32)%nat || (n =? 160)%nat.

Definition is_alpha (c : ascii) : bool :=
  let n := nat_of_ascii c in
  ((65 <=? n)%nat && (n <=? 90)%nat) || ((97 <=? n)%nat && (n <=? 122)%nat).

Fixpoint drop_while (p : ascii -> bool) (s : string) : string :=
  match s with
  | EmptyString => EmptyString
  | String c s' => if p c then drop_while p s' else s
  end.

Fixpoint take_while (p : ascii -> bool) (s : string) : string :=
  match s with
  | EmptyString => EmptyString
  | String c s' => if p c then String c (take_while p s') else EmptyString
  end.

Definition rev (s : string) : string :=
  string_of_list_ascii (List.rev (list_ascii_of_string s)).

(** [s.trim()] *)
Definition trim (s : string) : string :=
  rev (drop_while is_space (rev (drop_while is_space s))).

Definition is_empty (s : string) : bool :=
  match s with EmptyString => true | _ => false end.

Fixpoint take (n : nat) (s : string) : string :=
  match n, s with
  | S k, String c s' => String c (take k s')
  | _, _ => EmptyString
  end.

Fixpoint drop (n : nat) (s : string) : string :=
  match n, s with
  | S k, String _ s' => drop k s'
  | _, _ => s
  end.

(** [s.startsWith(p)] *)
Definition startsWith (p s : string) : bool := String.prefix p s.

(** [s.endsWith(p)] *)
Definition endsWith (p s : string) : bool := String.prefix (rev p) (rev s).

(** [s.split(sep)] for a non-empty separator: [skip] counts the code
    units of a separator still to pass over, [acc] is the piece being
    read. *)
Fixpoint split_aux (sep : string) (skip : nat) (acc : string) (s : string)
  : list string :=
  match s with
  | EmptyString => [acc]
  | String c s' =>
      match skip with
      | S k => split_aux sep k acc s'
      | O =>
          if String.prefix sep s
          then acc :: split_aux sep (String.length sep - 1) EmptyString s'
          else split_aux sep O (acc +:+ String c EmptyString) s'
      end
  end.

Definition split (sep s : string) : list string := split_aux sep O EmptyString s.

(** [parts.join(sep)] *)
Fixpoint join (sep : string) (parts : list string) : string :=
  match parts with
  | [] => EmptyString
  | [p] => p
  | p :: rest => p +:+ sep +:+ join sep rest
  end.

(** Index of the first occurrence of [pat] in [s]. *)
Fixpoint index_of (pat s : string) : option nat :=
  if String.prefix pat s then Some O
  else match s with
       | EmptyString => None
       | String _ s' => S <$> index_of pat s'
       end.

(** [s.replace(pat, by)] with a string pattern: the first occurrence only. *)
Definition replace_first (pat by_ s : string) : string :=
  match index_of pat s with
  | Some i => take i s +:+ by_ +:+ drop (i + String.length pat) s
  | None => s
  end.

(** [s.replace(/pat/g, by)] for a literal, non-empty [pat]: every
    occurrence, left to right, without overlap. *)
Fixpoint replace_all_aux (pat by_ : string) (skip : nat) (s : string) : string :=
  match s with
  | EmptyString => EmptyString
  | String c s' =>
      match skip with
      | S k => replace_all_aux pat by_ k s'
      | O =>
          if String.prefix pat s
          then by_ +:+ replace_all_aux pat by_ (String.length pat - 1) s'
          else String c (replace_all_aux pat by_ O s')
      end
  end.

Definition replace_all (pat by_ s : string) : string := replace_all_aux pat by_ O s.

(** [parts.slice(-n)] *)
Definition last_n {A} (n : nat) (l : list A) : list A :=
  List.skipn (List.length l - n) l.

End Str.

(** ** Regular expressions

    The regular expressions of the source are sequences of literals and of
    greedy repetitions of a character class, some of them capture groups,
    with or without the anchor [^]. [match_here] is the backtracking search
    of the runtime on such a sequence: a repetition first takes as many
    characters as it can and gives them back one at a time. *)

Module Regex.

Inductive atom :=
| Lit (s : string)
| Rep (cls : ascii -> bool) (min : nat) (capture : bool).

Record regex := { anchored : bool; atoms : list atom }.

Fixpoint run_length (cls : ascii -> bool) (s : string) : nat :=
  match s with
  | String c s' => if cls c then S (run_length cls s') else O
  | EmptyString => O
  end.

(** The captures of the first successful way of matching [r] at the start
    of [s], and the length of the match. *)
Fixpoint match_here (r : list atom) (s : string) : option (list string * nat) :=
  match r with
  | [] => Some ([], O)
  | Lit l :: r' =>
      if String.prefix l s
      then '(caps, n) ← match_here r' (Str.drop (String.length l) s);
           Some (caps, (String.length l + n)%nat)
      else None
  | Rep cls min cap :: r' =>
      (fix give_back (k : nat) : option (list string * nat) :=
         let try_k :=
           if (min <=? k)%nat
           then '(caps, n) ← match_here r' (Str.drop k s);
                Some (if cap then Str.take k s :: caps else caps, (k + n)%nat)
           else None in
         match try_k with
         | Some m => Some m
         | None => match k with
                   | O => None
                   | S k' => give_back k'
                   end
         end) (run_length cls s)
  end.

(** [s.match(re)]: the leftmost match, as (index, captures, length). *)
Fixpoint search_from (r : list atom) (i : nat) (s : string)
  : option (nat * list string * nat) :=
  match match_here r s with
  | Some (caps, n) => Some (i, caps, n)
  | None => match s with
            | EmptyString => None
            | String _ s' => search_from r (S i) s'
            end
  end.

Definition exec (re : regex) (s : string) : option (nat * list string * nat) :=
  if anchored re
  then '(caps, n) ← match_here (atoms re) s; Some (O, caps, n)
  else search_from (atoms re) O s.

(** [s.replace(re, by)] without the flag [g]. *)
Definition replace (re : regex) (by_ : string) (s : string) : string :=
  match exec re s with
  | Some (i, _, n) => Str.take i s +:+ by_ +:+ Str.drop (i + n) s
  | None => s
  end.

End Regex.

(** ** JavaScript values *)

(** The values [JSON.parse] builds, and [undefined]. A number is an integer;
    an object is the list of its properties in the order of the text, where
    a key written twice keeps its last value. *)
Inductive value :=
| VUndef
| VNull
| VBool (b : bool)
| VNum (n : Z)
| VStr (s : string)
| VArr (items : list value)
| VObj (props : list (string * value)).

Inductive exn :=
| TypeError
| SyntaxError
| FsError
| CommandFailed (cmd : string).

(** The result of an expression that may throw. *)
Inductive outcome (A : Type) :=
| Ok (a : A)
| Throw (e : exn).
Arguments Ok {A} a.
Arguments Throw {A} e.

Definition obind {A B} (m : outcome A) (k : A -> outcome B) : outcome B :=
  match m with
  | Ok a => k a
  | Throw e => Throw e
  end.

Notation "'let?' x ':=' m 'in' k" := (obind m (fun x => k))
  (at level 10, x name, m at level 100, k at level 200).

Module JS.

(** [ToBoolean] *)
Definition truthy (v : value) : bool :=
  match v with
  | VUndef | VNull => false
  | VBool b => b
  | VNum n => negb (n =? 0)
  | VStr s => negb (Str.is_empty s)
  | VArr _ | VObj _ => true
  end.

(** [a || b] *)
Definition or_else (a b : value) : value := if truthy a then a else b.

Definition nullish (v : value) : bool :=
  match v with VUndef | VNull => true | _ => false end.

(** The last binding of [k]. *)
Fixpoint lookup_prop (k : string) (props : list (string * value)) : option value :=
  match props with
  | [] => None
  | (k', v) :: rest =>
      match lookup_prop k rest with
      | Some w => Some w
      | None => if String.eqb k k' then Some v else None
      end
  end.

(** [v.k] for a property name [k] that is neither an index nor inherited
    from a prototype, which holds of every name the source reads: reading
    a property of [null] or [undefined] throws, a primitive or an array
    has no such property. *)
Definition get (v : value) (k : string) : outcome value :=
  match v with
  | VUndef | VNull => Throw TypeError
  | VObj props => Ok (default VUndef (lookup_prop k props))
  | _ => Ok VUndef
  end.

(** [v?.k] *)
Definition get_opt (v : value) (k : string) : outcome value :=
  if nullish v then Ok VUndef else get v k.

(** [a !== b]. The operands are read from two places of a parsed
    document, so two objects or arrays are never the same reference. *)
Definition strict_neq (a b : value) : bool :=
  match a, b with
  | VUndef, VUndef => false
  | VNull, VNull => false
  | VBool x, VBool y => negb (Bool.eqb x y)
  | VNum x, VNum y => negb (x =? y)
  | VStr x, VStr y => negb (String.eqb x y)
  | _, _ => true
  end.

Definition char_values (s : string) : list value :=
  map (fun c => VStr (String c EmptyString)) (list_ascii_of_string s).

(** The values [for (const x of v)] visits: the items of an array, the
    characters of a string; anything else is not iterable. *)
Definition iterate (v : value) : outcome (list value) :=
  match v with
  | VArr items => Ok items
  | VStr s => Ok (char_values s)
  | _ => Throw TypeError
  end.

(** [String(v)], as a template literal and a computed property key
    apply it. A number is printed in decimal (the runtime switches to
    exponents from 10^21 on). *)
Fixpoint ToString (v : value) : string :=
  match v with
  | VUndef => "undefined"
  | VNull => "null"
  | VBool true => "true"
  | VBool false => "false"
  | VNum n => pretty n
  | VStr s => s
  | VArr items =>
      Str.join ","
        (map (fun x => match x with
                       | VUndef | VNull => EmptyString
                       | _ => ToString x
                       end) items)
  | VObj _ => "[object Object]"
  end.

(** The own property [k] of an object defined, or redefined in its place:
    what a spread [{...a, ...b}] does for each property. *)
Fixpoint define_prop (k : string) (v : value) (props : list (string * value))
  : list (string * value) :=
  match props with
  | [] => [(k, v)]
  | (k', v') :: rest =>
      if String.eqb k k' then (k, v) :: rest else (k', v') :: define_prop k v rest
  end.

(** [obj[k] = v] on an object literal under construction. The name
    [__proto__] is the accessor of the prototype: assigning to it adds no
    property. *)
Definition set_prop (k : string) (v : value) (props : list (string * value))
  : list (string * value) :=
  if String.eqb k "__proto__" then props else define_prop k v props.

Fixpoint dedup_keys (seen : list string) (props : list (string * value))
  : list string :=
  match props with
  | [] => []
  | (k, _) :: rest =>
      if existsb (String.eqb k) seen then dedup_keys seen rest
      else k :: dedup_keys (k :: seen) rest
  end.

Definition index_keys (n : nat) : list string :=
  map (fun i => pretty (Z.of_nat i)) (seq 0 n).

(** [Object.entries(v)]: the own enumerable properties; [null] and
    [undefined] throw, a number or a boolean has none. *)
Definition Object_entries (v : value) : outcome (list (string * value)) :=
  match v with
  | VUndef | VNull => Throw TypeError
  | VObj props =>
      Ok (map (fun k => (k, default VUndef (lookup_prop k props)))
              (dedup_keys [] props))
  | VArr items => Ok (combine (index_keys (length items)) items)
  | VStr s => Ok (combine (index_keys (String.length s)) (char_values s))
  | VBool _ | VNum _ => Ok []
  end.

(** [Object.keys(v)] *)
Definition Object_keys (v : value) : outcome (list string) :=
  let? entries := Object_entries v in Ok (map fst entries).

(** A method of [String.prototype] called on [v]: a [TypeError] unless
    [v] is a string. *)
Definition as_string (v : value) : outcome string :=
  match v with
  | VStr s => Ok s
  | _ => Throw TypeError
  end.

(** [for (const x of xs) body], threading the object being built. *)
Fixpoint for_of {A B} (body : A -> B -> outcome A) (acc : A) (xs : list B)
  : outcome A :=
  match xs with
  | [] => Ok acc
  | x :: rest => let? acc' := body acc x in for_of body acc' rest
  end.

(** *** Numbers beyond the integers of a document *)

(** The number an arithmetic expression gives: an integer, a fraction in
    lowest terms that is not an integer, [NaN] or an infinity. The
    arithmetic is exact: neither the rounding of a double nor the sign of
    zero is modelled. *)
Inductive number :=
| Int (n : Z)
| Frac (n : Z) (d : positive)
| NaN
| Inf (negative : bool).

(** [n / d] for [0 < d], in lowest terms. *)
Definition ratio (n d : Z) : number :=
  let g := Z.gcd n d in
  if d / g =? 1 then Int (n / g) else Frac (n / g) (Z.to_pos (d / g)).

Definition numerator (x : number) : Z :=
  match x with
  | Int n | Frac n _ => n
  | _ => 0
  end.

Definition denominator (x : number) : Z :=
  match x with
  | Frac _ d => Z.pos d
  | _ => 1
  end.

(** [x < y] *)
Definition lt (x y : number) : bool :=
  match x, y with
  | NaN, _ | _, NaN => false
  | Inf a, Inf b => a && negb b
  | Inf a, _ => a
  | _, Inf b => negb b
  | Int a, Int b => a <? b
  | _, _ => numerator x * denominator y <? numerator y * denominator x
  end.

(** [x === y] *)
Definition same (x y : number) : bool :=
  match x, y with
  | Int a, Int b => a =? b
  | Frac a c, Frac b d => (a =? b) && (Z.pos c =? Z.pos d)
  | Inf a, Inf b => Bool.eqb a b
  | _, _ => false
  end.

(** [x * y] *)
Definition mul (x y : number) : number :=
  match x, y with
  | NaN, _ | _, NaN => NaN
  | Int a, Int b => Int (a * b)
  | Inf a, Inf b => Inf (xorb a b)
  | Inf a, _ => if numerator y =? 0 then NaN else Inf (xorb a (numerator y <? 0))
  | _, Inf b => if numerator x =? 0 then NaN else Inf (xorb b (numerator x <? 0))
  | _, _ => ratio (numerator x * numerator y) (denominator x * denominator y)
  end.

(** [x - y] *)
Definition sub (x y : number) : number :=
  match x, y with
  | NaN, _ | _, NaN => NaN
  | Int a, Int b => Int (a - b)
  | Inf a, Inf b => if Bool.eqb a b then NaN else Inf a
  | Inf a, _ => Inf a
  | _, Inf b => Inf (negb b)
  | _, _ => ratio (numerator x * denominator y - numerator y * denominator x)
                  (denominator x * denominator y)
  end.

(** [Math.min(x, y)] *)
Definition Math_min (x y : number) : number :=
  match x, y with
  | NaN, _ | _, NaN => NaN
  | _, _ => if lt y x then y else x
  end.

(** [Math.max(x, y)] *)
Definition Math_max (x y : number) : number :=
  match x, y with
  | NaN, _ | _, NaN => NaN
  | _, _ => if lt x y then y else x
  end.

(** The value of a digit in a base up to 16. *)
Definition digit_value (base : Z) (c : ascii) : option Z :=
  let n := Z.of_nat (nat_of_ascii c) in
  let v := if (48 <=? n) && (n <=? 57) then Some (n - 48)
           else if (97 <=? n) && (n <=? 102) then Some (n - 87)
           else if (65 <=? n) && (n <=? 70) then Some (n - 55)
           else None in
  match v with
  | Some d => if d <? base then Some d else None
  | None => None
  end.

Fixpoint read_digits (base acc : Z) (s : string) : option Z :=
  match s with
  | EmptyString => Some acc
  | String c s' =>
      match digit_value base c with
      | Some d => read_digits base (acc * base + d) s'
      | None => None
      end
  end.

(** One digit or more, in [base]. *)
Definition numeral (base : Z) (s : string) : option Z :=
  if Str.is_empty s then None else read_digits base 0 s.

(** An exponent part, or nothing: [e] or [E], a sign or none, digits. *)
Definition exponent_part (s : string) : option Z :=
  match s with
  | EmptyString => Some 0
  | String c s' =>
      if Ascii.eqb c "e"%char || Ascii.eqb c "E"%char
      then match s' with
           | String "+"%char ds => numeral 10 ds
           | String "-"%char ds => Z.opp <$> numeral 10 ds
           | _ => numeral 10 s'
           end
      else None
  end.

(** [m * 10^e] *)
Definition scaled (m e : Z) : number :=
  if 0 <=? e then Int (m * 10 ^ e) else ratio m (10 ^ (- e)).

(** An unsigned decimal literal: digits, a fraction, an exponent, with a
    digit at least before the exponent. *)
Definition unsigned_decimal (s : string) : option (Z * Z) :=
  let whole := Str.take_while Str.is_digit s in
  let rest := Str.drop_while Str.is_digit s in
  let '(fraction, rest) :=
    match rest with
    | String "."%char rest' =>
        (Str.take_while Str.is_digit rest', Str.drop_while Str.is_digit rest')
    | _ => (EmptyString, rest)
    end in
  if Str.is_empty whole && Str.is_empty fraction then None else
  match read_digits 10 0 (whole +:+ fraction), exponent_part rest with
  | Some m, Some e => Some (m, e - Z.of_nat (String.length fraction))
  | _, _ => None
  end.

Definition decimal (negative : bool) (s : string) : number :=
  if String.eqb s "Infinity" then Inf negative else
  match unsigned_decimal s with
  | Some (m, e) => scaled (if negative then - m else m) e
  | None => NaN
  end.

(** [Number(s)] for a string: white space around is dropped, the empty
    text is 0, then a decimal literal with a sign or none, or a binary,
    octal or hexadecimal integer without sign; anything else is [NaN]. *)
Definition StringToNumber (s : string) : number :=
  match Str.trim s with
  | EmptyString => Int 0
  | String "0"%char (String c digits) as t =>
      if Ascii.eqb c "x"%char || Ascii.eqb c "X"%char
      then from_option Int NaN (numeral 16 digits)
      else if Ascii.eqb c "o"%char || Ascii.eqb c "O"%char
      then from_option Int NaN (numeral 8 digits)
      else if Ascii.eqb c "b"%char || Ascii.eqb c "B"%char
      then from_option Int NaN (numeral 2 digits)
      else decimal false t
  | String "+"%char t => decimal false t
  | String "-"%char t => decimal true t
  | t => decimal false t
  end.

(** An operand [x || 0] of a sum, as the sum takes it: a number, [true],
    or a string (the text of an array or of an object). Whatever is falsy
    has become 0. *)
Inductive operand :=
| ONum (n : Z)
| OTrue
| OStr (s : string).

Definition or_zero (x : value) : operand :=
  if truthy x
  then match x with
       | VNum n => ONum n
       | VBool _ => OTrue
       | VStr s => OStr s
       | _ => OStr (ToString x)
       end
  else ONum 0.

(** [String(a)]; a number is printed in decimal (the runtime switches to
    exponents from 10^21 on). *)
Definition operand_text (a : operand) : string :=
  match a with
  | ONum n => pretty n
  | OTrue => "true"
  | OStr s => s
  end.

(** [Number(a)] *)
Definition ToNumber (a : operand) : number :=
  match a with
  | ONum n => Int n
  | OTrue => Int 1
  | OStr s => StringToNumber s
  end.

(** [a + b]: the texts one after the other as soon as one operand is a
    string, the sum of the numbers otherwise. *)
Definition add (a b : operand) : operand :=
  match a, b with
  | OStr _, _ | _, OStr _ => OStr (operand_text a +:+ operand_text b)
  | ONum m, ONum n => ONum (m + n)
  | ONum m, OTrue | OTrue, ONum m => ONum (m + 1)
  | OTrue, OTrue => ONum 2
  end.

End JS.

(** ** The outside world *)

(** A path names a file, with its text and its modification time in
    milliseconds, or a directory with its entries. *)
Inductive fsnode :=
| File (content : string) (mtimeMs : Z)
| Dir (entries : list string) (mtimeMs : Z).

Record World := { fs : gmap string fsnode; clock : Z }.

(** What [execSync] does: it returns the standard output of a command that
    exits with status 0 and throws otherwise (another status, a timeout, no
    shell); the error may carry the standard output read so far. *)
Inductive exec_outcome :=
| Exited (stdout : string)
| Failed (stdout : option string).

(** One call of [execSync], with its working directory when it was given. *)
Inductive event :=
| Exec (cmd : string) (cwd : option string) (res : exec_outcome).

Record State := { world : World; trace : list event }.

(** The runtime: external commands (any behaviour, they may change the
    world), the JSON codec ([JSON_stringify v] is
    [JSON.stringify(v, null, 2)]), [Date.prototype.toISOString] on a time in
    milliseconds, and [os.homedir()]. *)
Class Runtime := {
  execSync : string -> option string -> World -> exec_outcome * World;
  JSON_parse : string -> option value;
  JSON_stringify : value -> string;
  toISOString : Z -> string;
  homedir : string;
}.

(** State and exceptions. *)
Definition M (A : Type) : Type := State -> State * outcome A.

Definition ret {A} (a : A) : M A := fun s => (s, Ok a).

Definition bind {A B} (m : M A) (k : A -> M B) : M B := fun s =>
  match m s with
  | (s', Ok a) => k a s'
  | (s', Throw e) => (s', Throw e)
  end.

Notation "'let*' x ':=' m 'in' k" := (bind m (fun x => k))
  (at level 10, x name, m at level 100, k at level 200).

Definition throw {A} (e : exn) : M A := fun s => (s, Throw e).

Definition liftO {A} (o : outcome A) : M A := fun s => (s, o).

(** [try { body } catch { handler }]: what [body] did to the world before
    it threw stays done. *)
Definition try_catch {A} (body handler : M A) : M A := fun s =>
  match body s with
  | (s', Ok a) => (s', Ok a)
  | (s', Throw _) => handler s'
  end.

Definition LF : string := String (ascii_of_nat 10) EmptyString.
Definition DQ : string := String (ascii_of_nat 34) EmptyString.

(** [path.join(dir, name)] for a normalised directory [dir]. *)
Definition join (dir name : string) : string := dir +:+ "/" +:+ name.

(** [path.basename(p)]: the last segment, trailing separators apart. *)
Definition basename (p : string) : string :=
  let is_sep := fun c => Ascii.eqb c "/"%char in
  Str.rev (Str.take_while (fun c => negb (is_sep c))
             (Str.drop_while is_sep (Str.rev p))).

Section Effects.
Context {rt : Runtime}.

Definition exec (cmd : string) (cwd : option string) : M exec_outcome := fun s =>
  let '(res, w) := execSync cmd cwd (world s) in
  ({| world := w; trace := trace s ++ [Exec cmd cwd res] |}, Ok res).

Definition existsSync (p : string) : M bool := fun s =>
  (s, Ok (bool_decide (is_Some (fs (world s) !! p)))).

Definition readFileSync (p : string) : M string := fun s =>
  match fs (world s) !! p with
  | Some (File content _) => (s, Ok content)
  | _ => (s, Throw FsError)
  end.

Definition readdirSync (p : string) : M (list string) := fun s =>
  match fs (world s) !! p with
  | Some (Dir entries _) => (s, Ok entries)
  | _ => (s, Throw FsError)
  end.

(** [statSync(p).mtimeMs] *)
Definition statSync_mtimeMs (p : string) : M Z := fun s =>
  match fs (world s) !! p with
  | Some (File _ t) | Some (Dir _ t) => (s, Ok t)
  | None => (s, Throw FsError)
  end.

(** [writeFileSync(p, text)]: the file is created or replaced and stamped
    with the time of the write; a directory cannot be written. *)
Definition writeFileSync (p text : string) : M unit := fun s =>
  match fs (world s) !! p with
  | Some (Dir _ _) => (s, Throw FsError)
  | _ =>
      ({| world := {| fs := <[p := File text (clock (world s))]> (fs (world s));
                      clock := clock (world s) |};
          trace := trace s |}, Ok tt)
  end.

Definition Date_now : M Z := fun s => (s, Ok (clock (world s))).

(** [JSON.parse(text)] *)
Definition parse (text : string) : outcome value :=
  match JSON_parse text with
  | Some v => Ok v
  | None => Throw SyntaxError
  end.

(** [run(cmd, cwd)]: the output of the command, also when it failed but
    printed something. *)
Definition run (cmd cwd : string) : M string :=
  let* res := exec cmd (Some cwd) in
  match res with
  | Exited out => ret out
  | Failed (Some out) =>
      if Str.is_empty out then throw (CommandFailed cmd) else ret out
  | Failed None => throw (CommandFailed cmd)
  end.

Definition cmdExists (cmd : string) : M bool :=
  let* res := exec ("which " +:+ cmd) None in
  ret (match res with Exited _ => true | Failed _ => false end).

(** [names.some((f) => existsSync(join(dir, f)))] *)
Fixpoint some_exists (dir : string) (names : list string) : M bool :=
  match names with
  | [] => ret false
  | f :: rest =>
      let* b := existsSync (join dir f) in
      if b then ret true else some_exists dir rest
  end.

End Effects.

(** ** The registry ([constants.ts]) *)

Inductive Language := node | python | rust | go | php | ruby | dart | swift | kotlin.
Inductive PackageManager := npm | pnpm | yarn | bun.
Inductive Parser :=
| parse_npm | parse_pip | parse_cargo | parse_go | parse_composer
| parse_gem | parse_pub | parse_swift | parse_gradle.

#[global] Instance Language_eq_dec : EqDecision Language.
Proof. solve_decision. Defined.
#[global] Instance PackageManager_eq_dec : EqDecision PackageManager.
Proof. solve_decision. Defined.

Definition pm_name (pm : PackageManager) : string :=
  match pm with npm => "npm" | pnpm => "pnpm" | yarn => "yarn" | bun => "bun" end.

Record LanguageMarker := {
  files : list string;
  name : string;
  outdatedCmd : string;
  updateCmd : string;
  updateLatestCmd : string;
  installCmd : string;
  cleanCmd : string;
  auditCmd : option string;
  parseOutdated : Parser;
}.

Definition SERVER_VERSION : string := "4.0.0".
Definition CACHE_FILENAME : string := ".depsonar-cache.json".
Definition CACHE_MAX_AGE_MS : Z := 6 * 60 * 60 * 1000.

Definition LANGUAGE_MARKERS : list (Language * LanguageMarker) :=
  [ (node,
     {| files := ["package.json"]; name := "Node.js";
        outdatedCmd := "{pm} outdated --json"; updateCmd := "{pm} update";
        updateLatestCmd := "{pm} update --latest"; installCmd := "{pm} install";
        cleanCmd := "rm -rf node_modules"; auditCmd := Some "{pm} audit --json";
        parseOutdated := parse_npm |});
    (python,
     {| files := ["requirements.txt"; "pyproject.toml"; "Pipfile"; "setup.py"];
        name := "Python"; outdatedCmd := "pip list --outdated --format=json";
        updateCmd := "pip install --upgrade {packages}";
        updateLatestCmd := "pip install --upgrade {packages}";
        installCmd := "pip install -r requirements.txt"; cleanCmd := EmptyString;
        auditCmd := Some "pip audit --format=json"; parseOutdated := parse_pip |});
    (rust,
     {| files := ["Cargo.toml"]; name := "Rust";
        outdatedCmd := "cargo outdated --format json"; updateCmd := "cargo update";
        updateLatestCmd := "cargo update"; installCmd := "cargo build";
        cleanCmd := "cargo clean"; auditCmd := Some "cargo audit --json";
        parseOutdated := parse_cargo |});
    (go,
     {| files := ["go.mod"]; name := "Go";
        outdatedCmd := "go list -m -u -json all"; updateCmd := "go get -u ./...";
        updateLatestCmd := "go get -u ./..."; installCmd := "go mod download";
        cleanCmd := "go clean -modcache"; auditCmd := Some "govulncheck -json ./...";
        parseOutdated := parse_go |});
    (php,
     {| files := ["composer.json"]; name := "PHP";
        outdatedCmd := "composer outdated --format=json"; updateCmd := "composer update";
        updateLatestCmd := "composer update --with-all-dependencies";
        installCmd := "composer install"; cleanCmd := "rm -rf vendor";
        auditCmd := Some "composer audit --format=json";
        parseOutdated := parse_composer |});
    (ruby,
     {| files := ["Gemfile"]; name := "Ruby";
        outdatedCmd := "bundle outdated --parseable"; updateCmd := "bundle update";
        updateLatestCmd := "bundle update"; installCmd := "bundle install";
        cleanCmd := "rm -rf vendor/bundle";
        auditCmd := Some "bundle-audit check --format json";
        parseOutdated := parse_gem |});
    (dart,
     {| files := ["pubspec.yaml"]; name := "Dart/Flutter";
        outdatedCmd := "dart pub outdated --json"; updateCmd := "dart pub upgrade";
        updateLatestCmd := "dart pub upgrade --major-versions";
        installCmd := "dart pub get"; cleanCmd := "rm -rf .dart_tool";
        auditCmd := None; parseOutdated := parse_pub |});
    (swift,
     {| files := ["Package.swift"]; name := "Swift";
        outdatedCmd := "swift package show-dependencies --format json";
        updateCmd := "swift package update"; updateLatestCmd := "swift package update";
        installCmd := "swift package resolve"; cleanCmd := "swift package clean";
        auditCmd := None; parseOutdated := parse_swift |});
    (kotlin,
     {| files := ["build.gradle.kts"; "build.gradle"]; name := "Kotlin/Java";
        outdatedCmd :=
          "./gradlew dependencyUpdates -Drevision=release --output-formatter json";
        updateCmd := "./gradlew dependencyUpdates";
        updateLatestCmd := "./gradlew dependencyUpdates -Drevision=release";
        installCmd := "./gradlew build"; cleanCmd := "./gradlew clean";
        auditCmd := None; parseOutdated := parse_gradle |}) ].

(** [LANGUAGE_MARKERS[lang]] *)
Definition marker_of (lang : Language) : option LanguageMarker :=
  snd <$> List.find (fun e => bool_decide (fst e = lang)) LANGUAGE_MARKERS.

Definition FRAMEWORK_DETECTORS : list (string * list string) :=
  [ ("SvelteKit", ["svelte.config.js"; "svelte.config.ts"]);
    ("Next.js", ["next.config.js"; "next.config.ts"; "next.config.mjs"]);
    ("Nuxt", ["nuxt.config.ts"; "nuxt.config.js"]);
    ("Astro", ["astro.config.mjs"; "astro.config.ts"]);
    ("Remix", ["remix.config.js"; "remix.config.ts"]);
    ("SolidStart", ["app.config.ts"; "app.config.js"]);
    ("Django", ["manage.py"]);
    ("Flask", ["wsgi.py"]);
    ("Laravel", ["artisan"]);
    ("Xcode/Swift", ["*.xcodeproj"; "*.xcworkspace"]);
    ("Android/Kotlin", ["settings.gradle.kts"; "settings.gradle"]) ].

(** ** Records ([types.ts], as the code fills them) *)

Record ProjectInfo := {
  pi_name : value;
  pi_path : string;
  language : Language;
  framework : string;
  packageManager : PackageManager;
  nodeVersion : value;
  dependencies : value;
  devDependencies : value;
}.

Record HealthReport := {
  hr_project : value;
  hr_language : Language;
  hr_framework : string;
  frameworkVersion : value;
  hr_nodeVersion : value;
  hr_packageManager : PackageManager;
  lockfileExists : bool;
  outdatedCount : Z;
  majorUpdates : Z;
  securityIssues : JS.operand;
  score : JS.number;
  recommendations : list string;
}.

Record CacheEntry := {
  ce_project : value;
  ce_path : string;
  ce_language : Language;
  ce_framework : string;
  ce_outdatedCount : Z;
  ce_majorCount : Z;
  ce_securityIssues : Z;
  ce_score : Z;
  checkedAt : string;
}.

(** ** The project classifier *)

Definition Language_name (l : Language) : string :=
  match l with
  | node => "node" | python => "python" | rust => "rust" | go => "go"
  | php => "php" | ruby => "ruby" | dart => "dart" | swift => "swift"
  | kotlin => "kotlin"
  end.

Definition empty_object : value := VObj [].

(** [{...v}]: the own enumerable properties, none for [null], [undefined],
    a number or a boolean. *)
Definition spread (v : value) : list (string * value) :=
  match JS.Object_entries v with
  | Ok props => props
  | Throw _ => []
  end.

(** [allDeps[k]] where [allDeps = { ...deps, ...devDeps }] *)
Definition allDeps_get (deps devDeps : value) (k : string) : value :=
  default VUndef (JS.lookup_prop k (spread deps ++ spread devDeps)).

(** [/^([a-zA-Z0-9_-]+)/] *)
Definition re_requirement : Regex.regex :=
  {| Regex.anchored := true;
     Regex.atoms :=
       [Regex.Rep (fun c => Str.is_alpha c || Str.is_digit c
                            || Ascii.eqb c "_"%char || Ascii.eqb c "-"%char)
                  1 true] |}.

(** The expression that finds [name = <quoted text>] in [Cargo.toml]: the
    literal name, optional white space around the equals sign, then the
    captured run of characters other than the double quote, between double
    quotes. *)
Definition re_cargo_name : Regex.regex :=
  {| Regex.anchored := false;
     Regex.atoms :=
       [Regex.Lit "name"; Regex.Rep Str.is_space 0 false; Regex.Lit "=";
        Regex.Rep Str.is_space 0 false; Regex.Lit DQ;
        Regex.Rep (fun c => negb (Ascii.eqb c (ascii_of_nat 34))) 1 true;
        Regex.Lit DQ] |}.

(** [/module\s+(\S+)/] *)
Definition re_go_module : Regex.regex :=
  {| Regex.anchored := false;
     Regex.atoms :=
       [Regex.Lit "module"; Regex.Rep Str.is_space 1 false;
        Regex.Rep (fun c => negb (Str.is_space c)) 1 true] |}.

(** The first capture group of a match. *)
Definition group1 (re : Regex.regex) (s : string) : option string :=
  match Regex.exec re s with
  | Some (_, g :: _, _) => Some g
  | _ => None
  end.

(** The dependency keys that name a framework, specific before generic. *)
Definition NODE_FRAMEWORKS : list (string * string) :=
  [ ("solid-start", "SolidStart"); ("solid-js", "Solid.js");
    ("@sveltejs/kit", "SvelteKit"); ("svelte", "Svelte"); ("next", "Next.js");
    ("react", "React"); ("vue", "Vue"); ("express", "Express");
    ("fastify", "Fastify"); ("hono", "Hono") ].

(** What the manifest of a project gives: name, dependencies, development
    dependencies, runtime constraint. *)
Record Manifest := {
  m_name : value;
  m_deps : value;
  m_devDeps : value;
  m_nodeVersion : value;
}.

Section Classifier.
Context {rt : Runtime}.

Fixpoint detect_in (dir : string) (markers : list (Language * LanguageMarker))
  : M Language :=
  match markers with
  | [] => ret node
  | (lang, marker) :: rest =>
      let* hit := some_exists dir (files marker) in
      if hit then ret lang else detect_in dir rest
  end.

Definition detectLanguage (dir : string) : M Language :=
  detect_in dir LANGUAGE_MARKERS.

Definition detectPackageManager (dir : string) : M PackageManager :=
  let* lockb := existsSync (join dir "bun.lockb") in
  let* lock := if lockb then ret true else existsSync (join dir "bun.lock") in
  if lock then ret bun else
  let* p := existsSync (join dir "pnpm-lock.yaml") in
  if p then ret pnpm else
  let* y := existsSync (join dir "yarn.lock") in
  if y then ret yarn else ret npm.

(** One name of [FRAMEWORK_DETECTORS]: a file of the directory, or with
    [*.ext] any entry of the directory that ends in [.ext]. *)
Definition detector_hit (dir f : string) : M bool :=
  if Str.startsWith "*." f
  then try_catch
         (let* entries := readdirSync dir in
          ret (existsb (Str.endsWith (Str.drop 1 f)) entries))
         (ret false)
  else existsSync (join dir f).

Fixpoint some_hit (dir : string) (names : list string) : M bool :=
  match names with
  | [] => ret false
  | f :: rest =>
      let* b := detector_hit dir f in
      if b then ret true else some_hit dir rest
  end.

Fixpoint framework_by_file (dir : string) (ds : list (string * list string))
  : M (option string) :=
  match ds with
  | [] => ret None
  | (fw, names) :: rest =>
      let* b := some_hit dir names in
      if b then ret (Some fw) else framework_by_file dir rest
  end.

Definition framework_by_dependency (deps devDeps : value) : option string :=
  snd <$> List.find (fun e => JS.truthy (allDeps_get deps devDeps (fst e)))
                    NODE_FRAMEWORKS.

Definition detectFramework (dir : string) : M string :=
  let* by_file := framework_by_file dir FRAMEWORK_DETECTORS in
  match by_file with
  | Some fw => ret fw
  | None =>
      let* lang := detectLanguage dir in
      let* sniffed :=
        try_catch
          (if bool_decide (lang = node)
           then
             let* text := readFileSync (join dir "package.json") in
             let* pkg := liftO (parse text) in
             let* deps := liftO (JS.get pkg "dependencies") in
             let* devDeps := liftO (JS.get pkg "devDependencies") in
             ret (framework_by_dependency deps devDeps)
           else ret None)
          (ret None) in
      match sniffed with
      | Some fw => ret fw
      | None =>
          match marker_of lang with
          | Some marker =>
              if Str.is_empty (name marker) then ret "Unknown" else ret (name marker)
          | None => ret "Unknown"
          end
      end
  end.

(** One line of [requirements.txt]. *)
Definition requirement_line (deps : list (string * value)) (line : string)
  : list (string * value) :=
  match group1 re_requirement (Str.trim line) with
  | Some pkg =>
      if negb (Str.startsWith "#" line) then JS.set_prop pkg (VStr "*") deps
      else deps
  | None => deps
  end.

(** The manifest, read inside [try { } catch { }]: a failure leaves the
    values the variables were initialised with. In each branch the only
    expressions that can throw come before the first assignment. *)
Definition read_manifest (dir : string) (lang : Language) : M Manifest :=
  let initial :=
    {| m_name := VStr (basename dir); m_deps := empty_object;
       m_devDeps := empty_object; m_nodeVersion := VUndef |} in
  match lang with
  | node =>
      try_catch
        (let* text := readFileSync (join dir "package.json") in
         let* pkg := liftO (parse text) in
         let* n := liftO (JS.get pkg "name") in
         let* d := liftO (JS.get pkg "dependencies") in
         let* dd := liftO (JS.get pkg "devDependencies") in
         let* engines := liftO (JS.get pkg "engines") in
         let* nv := liftO (JS.get_opt engines "node") in
         ret {| m_name := JS.or_else n (m_name initial);
                m_deps := JS.or_else d empty_object;
                m_devDeps := JS.or_else dd empty_object;
                m_nodeVersion := nv |})
        (ret initial)
  | python =>
      try_catch
        (let* has := existsSync (join dir "requirements.txt") in
         if has
         then
           let* text := readFileSync (join dir "requirements.txt") in
           ret {| m_name := m_name initial;
                  m_deps := VObj (fold_left requirement_line (Str.split LF text) []);
                  m_devDeps := empty_object; m_nodeVersion := VUndef |}
         else ret initial)
        (ret initial)
  | rust =>
      try_catch
        (let* cargo := readFileSync (join dir "Cargo.toml") in
         match group1 re_cargo_name cargo with
         | Some n => ret {| m_name := VStr n; m_deps := empty_object;
                            m_devDeps := empty_object; m_nodeVersion := VUndef |}
         | None => ret initial
         end)
        (ret initial)
  | go =>
      try_catch
        (let* gomod := readFileSync (join dir "go.mod") in
         match group1 re_go_module gomod with
         | Some m =>
             ret {| m_name := JS.or_else (VStr (List.last (Str.split "/" m) EmptyString))
                                         (m_name initial);
                    m_deps := empty_object; m_devDeps := empty_object;
                    m_nodeVersion := VUndef |}
         | None => ret initial
         end)
        (ret initial)
  | php =>
      try_catch
        (let* text := readFileSync (join dir "composer.json") in
         let* composer := liftO (parse text) in
         let* n := liftO (JS.get composer "name") in
         let* d := liftO (JS.get composer "require") in
         let* dd := liftO (JS.get composer "require-dev") in
         ret {| m_name := JS.or_else n (m_name initial);
                m_deps := JS.or_else d empty_object;
                m_devDeps := JS.or_else dd empty_object;
                m_nodeVersion := VUndef |})
        (ret initial)
  | _ => ret initial
  end.

(** [getProjectInfo(dir)]: [None] is [null]. *)
Definition getProjectInfo (dir : string) : M (option ProjectInfo) :=
  let* lang := detectLanguage dir in
  match marker_of lang with
  | None => ret None
  | Some marker =>
      let* has := some_exists dir (files marker) in
      if negb has then ret None else
      let* m := read_manifest dir lang in
      let* fw := detectFramework dir in
      let* pm := if bool_decide (lang = node) then detectPackageManager dir
                 else ret npm in
      ret (Some {| pi_name := m_name m; pi_path := dir; language := lang;
                   framework := fw; packageManager := pm;
                   nodeVersion := m_nodeVersion m;
                   dependencies := m_deps m; devDependencies := m_devDeps m |})
  end.

End Classifier.

(** ** The outdated resolver *)

(** [{ current, wanted, latest }] *)
Definition entry (current wanted latest : value) : value :=
  VObj [("current", current); ("wanted", wanted); ("latest", latest)].

(** [a || e], where evaluating [e] may throw. *)
Definition or_eval (a : value) (e : outcome value) : outcome value :=
  if JS.truthy a then Ok a else e.

Definition not_space (c : ascii) : bool := negb (Str.is_space c).

(** [/(\S+)\s+\(newest\s+(\S+),\s+installed\s+(\S+)/] *)
Definition re_gem : Regex.regex :=
  {| Regex.anchored := false;
     Regex.atoms :=
       [Regex.Rep not_space 1 true; Regex.Rep Str.is_space 1 false;
        Regex.Lit "(newest"; Regex.Rep Str.is_space 1 false;
        Regex.Rep not_space 1 true; Regex.Lit ",";
        Regex.Rep Str.is_space 1 false; Regex.Lit "installed";
        Regex.Rep Str.is_space 1 false; Regex.Rep not_space 1 true] |}.

(** The separator between two objects of [go list -m -u -json all]: a
    closing brace alone on its line. *)
Definition GO_SEPARATOR : string := LF +:+ "}" +:+ LF.

Section Resolver.
Context {rt : Runtime}.

Definition npm_item (result : list (string * value)) (item : value)
  : outcome (list (string * value)) :=
  let? n := JS.get item "name" in
  let? key := or_eval n (JS.get item "package") in
  let? cur := JS.get item "current" in
  let? wanted := JS.get item "wanted" in
  let? latest := JS.get item "latest" in
  let? ty := JS.get item "dependencyType" in
  Ok (JS.set_prop (JS.ToString key)
        (VObj [("current", JS.or_else cur (VStr "?"));
               ("wanted", JS.or_else wanted (JS.or_else cur (VStr "?")));
               ("latest", JS.or_else latest (VStr "?"));
               ("type", ty)])
        result).

Definition getOutdatedNpm (projectPath : string) (pm : PackageManager) : M value :=
  try_catch
    (let* raw := run (pm_name pm +:+ " outdated --json") projectPath in
     if Str.is_empty (Str.trim raw) then ret empty_object else
     let* parsed := liftO (parse raw) in
     match parsed with
     | VArr items =>
         let* result := liftO (JS.for_of npm_item [] items) in
         ret (VObj result)
     | _ => ret parsed
     end)
    (ret empty_object).

Definition pip_item (result : list (string * value)) (item : value)
  : outcome (list (string * value)) :=
  let? key := JS.get item "name" in
  let? version := JS.get item "version" in
  let? latest := JS.get item "latest_version" in
  Ok (JS.set_prop (JS.ToString key) (entry version latest latest) result).

Definition getOutdatedPip (projectPath : string) : M value :=
  let* pip := cmdExists "pip" in
  let* any := if pip then ret true else cmdExists "pip3" in
  if negb any then ret empty_object else
  try_catch
    (let* pip3 := cmdExists "pip3" in
     let pipCmd := if pip3 then "pip3" else "pip" in
     let* raw := run (pipCmd +:+ " list --outdated --format=json") projectPath in
     if Str.is_empty (Str.trim raw) then ret empty_object else
     let* parsed := liftO (parse raw) in
     let* items := liftO (JS.iterate parsed) in
     let* result := liftO (JS.for_of pip_item [] items) in
     ret (VObj result))
    (ret empty_object).

Definition cargo_item (result : list (string * value)) (dep : value)
  : outcome (list (string * value)) :=
  let? project := JS.get dep "project" in
  let? latest := JS.get dep "latest" in
  if JS.strict_neq project latest
  then
    let? key := JS.get dep "name" in
    let? compat := JS.get dep "compat" in
    Ok (JS.set_prop (JS.ToString key) (entry project compat latest) result)
  else Ok result.

Definition getOutdatedCargo (projectPath : string) : M value :=
  let* cargo := cmdExists "cargo" in
  if negb cargo then ret empty_object else
  try_catch
    (let* plugin := cmdExists "cargo-outdated" in
     if plugin
     then
       let* raw := run "cargo outdated --format json" projectPath in
       if Str.is_empty (Str.trim raw) then ret empty_object else
       let* parsed := liftO (parse raw) in
       let* deps := liftO (JS.get parsed "dependencies") in
       let* items := liftO (JS.iterate (JS.or_else deps (VArr []))) in
       let* result := liftO (JS.for_of cargo_item [] items) in
       ret (VObj result)
     else ret empty_object)
    (ret empty_object).

(** A fragment, trimmed, with the closing brace the split took away. *)
Definition go_object (fragment : string) : string :=
  let obj := Str.trim fragment in
  if Str.endsWith "}" obj then obj else obj +:+ "}".

(** What one fragment of the Go listing adds, when it parses and carries
    [Update] and [Version]: the key and the entry. *)
Definition go_update (fragment : string) : outcome (option (string * value)) :=
  let? parsed := parse (go_object fragment) in
  let? update := JS.get parsed "Update" in
  let? version := JS.get parsed "Version" in
  if JS.truthy update && JS.truthy version
  then
    let? path := JS.get parsed "Path" in
    let? path := JS.as_string path in
    let key := Str.join "/" (Str.last_n 2 (Str.split "/" path)) in
    let? newer := JS.get update "Version" in
    Ok (Some (key, entry version newer newer))
  else Ok None.

(** One fragment of the Go listing, inside its own [try { } catch { }]
    that skips a malformed fragment. *)
Definition go_fragment (result : list (string * value)) (fragment : string)
  : list (string * value) :=
  match go_update fragment with
  | Ok (Some (key, e)) => JS.set_prop key e result
  | Ok None => result
  | Throw _ => result
  end.

(** [raw.split(separator).filter((s) => s.trim())] *)
Definition go_fragments (raw : string) : list string :=
  List.filter (fun s => negb (Str.is_empty (Str.trim s)))
              (Str.split GO_SEPARATOR raw).

Definition getOutdatedGo (projectPath : string) : M value :=
  let* found := cmdExists "go" in
  if negb found then ret empty_object else
  try_catch
    (let* raw := run "go list -m -u -json all" projectPath in
     if Str.is_empty (Str.trim raw) then ret empty_object else
     ret (VObj (fold_left go_fragment (go_fragments raw) [])))
    (ret empty_object).

Definition composer_item (result : list (string * value)) (item : value)
  : outcome (list (string * value)) :=
  let? version := JS.get item "version" in
  let? latest := JS.get item "latest" in
  if JS.strict_neq version latest
  then
    let? key := JS.get item "name" in
    Ok (JS.set_prop (JS.ToString key) (entry version latest latest) result)
  else Ok result.

Definition getOutdatedComposer (projectPath : string) : M value :=
  let* found := cmdExists "composer" in
  if negb found then ret empty_object else
  try_catch
    (let* raw := run "composer outdated --format=json --direct" projectPath in
     if Str.is_empty (Str.trim raw) then ret empty_object else
     let* parsed := liftO (parse raw) in
     let* installed := liftO (JS.get parsed "installed") in
     let* items := liftO (JS.iterate (JS.or_else installed (VArr []))) in
     let* result := liftO (JS.for_of composer_item [] items) in
     ret (VObj result))
    (ret empty_object).

Definition gem_line (result : list (string * value)) (line : string)
  : list (string * value) :=
  match Regex.exec re_gem line with
  | Some (_, [gem; newest; installed], _) =>
      JS.set_prop gem (entry (VStr installed) (VStr newest) (VStr newest)) result
  | _ => result
  end.

Definition getOutdatedGem (projectPath : string) : M value :=
  let* found := cmdExists "bundle" in
  if negb found then ret empty_object else
  try_catch
    (let* raw := run "bundle outdated --parseable" projectPath in
     if Str.is_empty (Str.trim raw) then ret empty_object else
     ret (VObj (fold_left gem_line (Str.split LF raw) [])))
    (ret empty_object).

Definition pub_item (result : list (string * value)) (pkg : value)
  : outcome (list (string * value)) :=
  let? current := JS.get pkg "current" in
  let? cv := JS.get_opt current "version" in
  if negb (JS.truthy cv) then Ok result else
  let? latest := JS.get pkg "latest" in
  let? lv := JS.get_opt latest "version" in
  if negb (JS.truthy lv) then Ok result else
  if JS.strict_neq cv lv
  then
    let? key := JS.get pkg "package" in
    let? resolvable := JS.get pkg "resolvable" in
    let? rv := JS.get_opt resolvable "version" in
    Ok (JS.set_prop (JS.ToString key) (entry cv (JS.or_else rv lv) lv) result)
  else Ok result.

Definition getOutdatedPub (projectPath : string) : M value :=
  let* dart_found := cmdExists "dart" in
  let* any := if dart_found then ret true else cmdExists "flutter" in
  if negb any then ret empty_object else
  try_catch
    (let* flutter := cmdExists "flutter" in
     let cmd := if flutter then "flutter pub outdated --json"
                else "dart pub outdated --json" in
     let* raw := run cmd projectPath in
     if Str.is_empty (Str.trim raw) then ret empty_object else
     let* parsed := liftO (parse raw) in
     let* packages := liftO (JS.get parsed "packages") in
     let* items := liftO (JS.iterate (JS.or_else packages (VArr []))) in
     let* result := liftO (JS.for_of pub_item [] items) in
     ret (VObj result))
    (ret empty_object).

(** [pin.identity || pin.package || <base name of pin.repositoryURL>],
    the base name being the text after the last slash of the URL, with
    its first [.git] removed; a missing URL gives [undefined], a URL that
    is not a string throws. *)
Definition swift_name (pin : value) : outcome value :=
  let? identity := JS.get pin "identity" in
  or_eval identity
    (let? package := JS.get pin "package" in
     or_eval package
       (let? url := JS.get pin "repositoryURL" in
        if JS.nullish url then Ok VUndef else
        let? url := JS.as_string url in
        Ok (VStr (Str.replace_first ".git" EmptyString
                    (List.last (Str.split "/" url) EmptyString))))).

(** [pin.state?.version || pin.state?.revision?.slice(0, 8)] *)
Definition swift_version (pin : value) : outcome value :=
  let? state := JS.get pin "state" in
  let? version := JS.get_opt state "version" in
  or_eval version
    (let? revision := JS.get_opt state "revision" in
     match revision with
     | VUndef | VNull => Ok VUndef
     | VStr s => Ok (VStr (Str.take 8 s))
     | VArr items => Ok (VArr (List.firstn 8 items))
     | _ => Throw TypeError
     end).

Definition swift_pin (result : list (string * value)) (pin : value)
  : outcome (list (string * value)) :=
  let? key := swift_name pin in
  let? version := swift_version pin in
  if JS.truthy key && JS.truthy version
  then Ok (JS.set_prop (JS.ToString key) (entry version version version) result)
  else Ok result.

(** [resolved.pins || resolved.object?.pins || []] *)
Definition swift_pins (resolved : value) : outcome value :=
  let? pins := JS.get resolved "pins" in
  or_eval pins
    (let? object := JS.get resolved "object" in
     let? pins := JS.get_opt object "pins" in
     Ok (JS.or_else pins (VArr []))).

Definition getOutdatedSwift (projectPath : string) : M value :=
  let* found := cmdExists "swift" in
  if negb found then ret empty_object else
  try_catch
    (let resolvedPath := join projectPath "Package.resolved" in
     let* present := existsSync resolvedPath in
     if negb present then ret empty_object else
     let* text := readFileSync resolvedPath in
     let* resolved := liftO (parse text) in
     let* pins := liftO (swift_pins resolved) in
     let* items := liftO (JS.iterate pins) in
     let* result := liftO (JS.for_of swift_pin [] items) in
     ret (VObj result))
    (ret empty_object).

(** [dep.available?.release || dep.available?.milestone || dep.version] *)
Definition gradle_available (dep : value) : outcome value :=
  let? available := JS.get dep "available" in
  let? release := JS.get_opt available "release" in
  or_eval release
    (let? milestone := JS.get_opt available "milestone" in
     or_eval milestone (JS.get dep "version")).

Definition gradle_item (result : list (string * value)) (dep : value)
  : outcome (list (string * value)) :=
  let? group := JS.get dep "group" in
  let? nm := JS.get dep "name" in
  let key := if JS.truthy group
             then JS.ToString group +:+ ":" +:+ JS.ToString nm
             else JS.ToString nm in
  let? version := JS.get dep "version" in
  let? wanted := gradle_available dep in
  let? latest := gradle_available dep in
  Ok (JS.set_prop key (entry (JS.or_else version (VStr "?")) wanted latest) result).

Definition getOutdatedGradle (projectPath : string) : M value :=
  let gradlew := join projectPath "gradlew" in
  let* wrapper := existsSync gradlew in
  let* any := if wrapper then ret true else cmdExists "gradle" in
  if negb any then ret empty_object else
  try_catch
    (let* wrapper := existsSync gradlew in
     let cmd :=
       if wrapper
       then "./gradlew dependencyUpdates -Drevision=release --output-formatter json"
       else "gradle dependencyUpdates -Drevision=release --output-formatter json" in
     let* raw := run cmd projectPath in
     let reportPath := join projectPath "build/dependencyUpdates/report.json" in
     let* present := existsSync reportPath in
     if negb present then ret empty_object else
     let* text := readFileSync reportPath in
     let* report := liftO (parse text) in
     let* outdated := liftO (JS.get report "outdated") in
     let* deps := liftO (JS.get_opt outdated "dependencies") in
     let* items := liftO (JS.iterate (JS.or_else deps (VArr []))) in
     let* result := liftO (JS.for_of gradle_item [] items) in
     ret (VObj result))
    (ret empty_object).

Definition getOutdated (projectPath : string) (info : ProjectInfo) : M value :=
  match marker_of (language info) with
  | None => ret empty_object
  | Some marker =>
      match parseOutdated marker with
      | parse_npm => getOutdatedNpm projectPath (packageManager info)
      | parse_pip => getOutdatedPip projectPath
      | parse_cargo => getOutdatedCargo projectPath
      | parse_go => getOutdatedGo projectPath
      | parse_composer => getOutdatedComposer projectPath
      | parse_gem => getOutdatedGem projectPath
      | parse_pub => getOutdatedPub projectPath
      | parse_swift => getOutdatedSwift projectPath
      | parse_gradle => getOutdatedGradle projectPath
      end
  end.

End Resolver.

(** ** Version comparison, health score, update commands *)

(** [/^[^0-9]*/] *)
Definition re_leading_non_digits : Regex.regex :=
  {| Regex.anchored := true;
     Regex.atoms := [Regex.Rep (fun c => negb (Str.is_digit c)) 0 false] |}.

(** [v.replace(/^[^0-9]*/, <empty>).split(<dot>)[0]] *)
Definition major_token (v : string) : string :=
  List.hd EmptyString
    (Str.split "." (Regex.replace re_leading_non_digits EmptyString v)).

Definition isMajorUpdate (current latest : string) : bool :=
  let curMajor := major_token current in
  let latMajor := major_token latest in
  negb (String.eqb curMajor latMajor)
  && negb (Str.is_empty curMajor) && negb (Str.is_empty latMajor).

(** The call [isMajorUpdate(pkg.current, pkg.latest)] on an entry of the
    outdated mapping: the string methods throw on anything but a string. *)
Definition entry_is_major (pkg : value) : outcome bool :=
  let? current := JS.get pkg "current" in
  let? latest := JS.get pkg "latest" in
  let? current := JS.as_string current in
  let? latest := JS.as_string latest in
  Ok (isMajorUpdate current latest).

(** [entries.filter(([, pkg]) => isMajorUpdate(pkg.current, pkg.latest)).length] *)
Fixpoint count_major (entries : list (string * value)) : outcome Z :=
  match entries with
  | [] => Ok 0
  | (_, pkg) :: rest =>
      let? major := entry_is_major pkg in
      let? n := count_major rest in
      Ok (if major then 1 + n else n)
  end.

Definition LOCKFILES : list string :=
  [ "pnpm-lock.yaml"; "package-lock.json"; "yarn.lock"; "bun.lockb";
    "Cargo.lock"; "go.sum"; "composer.lock"; "Gemfile.lock"; "pubspec.lock";
    "Pipfile.lock"; "Package.resolved"; "gradle.lockfile" ].

(** [a || b || null] on the merged dependencies. *)
Definition getFrameworkVersion (info : ProjectInfo) : value :=
  let dep := allDeps_get (dependencies info) (devDependencies info) in
  let fw := framework info in
  if String.eqb fw "SvelteKit"
  then JS.or_else (JS.or_else (dep "@sveltejs/kit") (dep "svelte")) VNull
  else if String.eqb fw "Svelte" then JS.or_else (dep "svelte") VNull
  else if String.eqb fw "Next.js" then JS.or_else (dep "next") VNull
  else if String.eqb fw "React" then JS.or_else (dep "react") VNull
  else if String.eqb fw "Nuxt" then JS.or_else (dep "nuxt") VNull
  else if String.eqb fw "Vue" then JS.or_else (dep "vue") VNull
  else if String.eqb fw "Astro" then JS.or_else (dep "astro") VNull
  else if String.eqb fw "SolidStart"
  then JS.or_else (JS.or_else (dep "solid-start") (dep "solid-js")) VNull
  else if String.eqb fw "Solid.js" then JS.or_else (dep "solid-js") VNull
  else VNull.

(** A counter of the audit report, [v.k || 0]. *)
Definition counter (v : value) (k : string) : outcome JS.operand :=
  let? x := JS.get v k in Ok (JS.or_zero x).

(** The score of [computeHealthReport], from its four inputs. *)
Definition health_score (outdatedCount majorUpdates : Z) (lockfileExists : bool)
    (securityIssues : JS.operand) : JS.number :=
  let score := JS.Int 100 in
  let score :=
    JS.sub score (JS.Math_min (JS.mul (JS.Int outdatedCount) (JS.Int 3)) (JS.Int 40)) in
  let score := JS.sub score (JS.mul (JS.Int majorUpdates) (JS.Int 10)) in
  let score := if negb lockfileExists then JS.sub score (JS.Int 15) else score in
  let score :=
    JS.sub score
      (JS.Math_min (JS.mul (JS.ToNumber securityIssues) (JS.Int 5)) (JS.Int 30)) in
  JS.Math_max (JS.Int 0) (JS.Math_min (JS.Int 100) score).

Definition recommend (lockfileExists : bool) (majorUpdates : Z)
    (securityIssues : JS.operand) (outdatedCount : Z) (score : JS.number)
  : list string :=
  (if negb lockfileExists
   then ["Missing lockfile. Run install to generate one."] else [])
  ++ (if 0 <? majorUpdates
      then [pretty majorUpdates
            +:+ " major update(s). Review changelogs before updating."]
      else [])
  ++ (if JS.lt (JS.Int 0) (JS.ToNumber securityIssues)
      then [JS.operand_text securityIssues +:+ " security issue(s). Run audit fix."]
      else [])
  ++ (if 10 <? outdatedCount
      then ["Many outdated packages. Start with minor/patch updates."] else [])
  ++ (if JS.same score (JS.Int 100)
      then ["All good! Dependencies are up to date."] else []).

Section Health.
Context {rt : Runtime}.

Definition getSecurityIssues (projectPath : string) (info : ProjectInfo)
  : M JS.operand :=
  match marker_of (language info) with
  | None => ret (JS.ONum 0)
  | Some marker =>
      match auditCmd marker with
      | None => ret (JS.ONum 0)
      | Some audit =>
          if Str.is_empty audit then ret (JS.ONum 0) else
          try_catch
            (let cmd := Str.replace_all "{pm}" (pm_name (packageManager info)) audit in
             let* found := cmdExists (List.hd EmptyString (Str.split " " cmd)) in
             if negb found then ret (JS.ONum 0) else
             let* raw := run cmd projectPath in
             let* parsed := liftO (parse raw) in
             let* metadata := liftO (JS.get parsed "metadata") in
             let* v := liftO (JS.get_opt metadata "vulnerabilities") in
             if JS.truthy v
             then
               let* high := liftO (counter v "high") in
               let* critical := liftO (counter v "critical") in
               let* moderate := liftO (counter v "moderate") in
               ret (JS.add (JS.add high critical) moderate)
             else ret (JS.ONum 0))
            (ret (JS.ONum 0))
      end
  end.

Definition computeHealthReport (info : ProjectInfo) : M HealthReport :=
  let* outdated := getOutdated (pi_path info) info in
  let* keys := liftO (JS.Object_keys outdated) in
  let outdatedCount := Z.of_nat (length keys) in
  let* entries := liftO (JS.Object_entries outdated) in
  let* majorUpdates := liftO (count_major entries) in
  let* lockfileExists := some_exists (pi_path info) LOCKFILES in
  let* securityIssues := getSecurityIssues (pi_path info) info in
  let score := health_score outdatedCount majorUpdates lockfileExists securityIssues in
  ret {| hr_project := pi_name info;
         hr_language := language info;
         hr_framework := framework info;
         frameworkVersion := getFrameworkVersion info;
         hr_nodeVersion := match nodeVersion info with
                           | VUndef | VNull => VNull
                           | v => v
                           end;
         hr_packageManager := packageManager info;
         lockfileExists := lockfileExists;
         outdatedCount := outdatedCount;
         majorUpdates := majorUpdates;
         securityIssues := securityIssues;
         score := score;
         recommendations :=
           recommend lockfileExists majorUpdates securityIssues outdatedCount score |}.

End Health.

(** [buildUpdateCommand(info, packages, level)]; [packages = None] is
    [undefined]. *)
Definition buildUpdateCommand (info : ProjectInfo) (packages : option string)
    (level : string) : string :=
  match marker_of (language info) with
  | None => pm_name (packageManager info) +:+ " update"
  | Some marker =>
      let pkgList := match packages with
                     | Some p => Str.trim p
                     | None => EmptyString
                     end in
      let latest := String.eqb level "latest" in
      let scoped := negb (Str.is_empty pkgList) in
      match language info with
      | node =>
          match packageManager info with
          | pnpm =>
              if scoped
              then if latest then "pnpm update " +:+ pkgList +:+ " --latest"
                   else "pnpm update " +:+ pkgList
              else if latest then "pnpm update --latest" else "pnpm update"
          | yarn =>
              if scoped
              then if latest then "yarn upgrade " +:+ pkgList +:+ " --latest"
                   else "yarn upgrade " +:+ pkgList
              else if latest then "yarn upgrade --latest" else "yarn upgrade"
          | bun => if scoped then "bun update " +:+ pkgList else "bun update"
          | npm =>
              if latest
              then if scoped
                   then "npx -y npm-check-updates -u "
                        +:+ Str.join " " (Str.split " " pkgList) +:+ " && npm install"
                   else "npx -y npm-check-updates -u && npm install"
              else if scoped
                   then "npx -y npm-check-updates -u --target minor "
                        +:+ Str.join " " (Str.split " " pkgList) +:+ " && npm install"
                   else "npx -y npm-check-updates -u --target minor && npm install"
          end
      | python =>
          if scoped then "pip install --upgrade " +:+ pkgList
          else "pip install --upgrade -r requirements.txt"
      | _ => if latest then updateLatestCmd marker else updateCmd marker
      end
  end.

(** ** The cache and the background scan *)

(** A cache entry as the object literal that is pushed, and the cache file
    around the entries. *)
Definition entry_value (e : CacheEntry) : value :=
  VObj [ ("project", ce_project e); ("path", VStr (ce_path e));
         ("language", VStr (Language_name (ce_language e)));
         ("framework", VStr (ce_framework e));
         ("outdatedCount", VNum (ce_outdatedCount e));
         ("majorCount", VNum (ce_majorCount e));
         ("securityIssues", VNum (ce_securityIssues e));
         ("score", VNum (ce_score e));
         ("checkedAt", VStr (checkedAt e)) ].

Definition cache_value (version updatedAt : string) (entries : list CacheEntry)
  : value :=
  VObj [ ("version", VStr version); ("updatedAt", VStr updatedAt);
         ("projects", VArr (map entry_value entries)) ].

(** The score of the background scan ([checker.ts]). *)
Definition scan_score (outdatedCount majorCount : Z) : Z :=
  let score := 100 in
  let score := score - Z.min (outdatedCount * 3) 40 in
  let score := score - majorCount * 10 in
  Z.max 0 (Z.min 100 score).

(** The auto-update pass of the scan replaces a refreshed entry by
    [{ ...entry, outdatedCount, majorCount, score, checkedAt }]. *)
Definition refreshed_entry (e : CacheEntry) (outdatedCount majorCount : Z)
    (now : string) : CacheEntry :=
  {| ce_project := ce_project e; ce_path := ce_path e;
     ce_language := ce_language e; ce_framework := ce_framework e;
     ce_outdatedCount := outdatedCount; ce_majorCount := majorCount;
     ce_securityIssues := ce_securityIssues e;
     ce_score := scan_score outdatedCount majorCount;
     checkedAt := now |}.

Section Cache.
Context {rt : Runtime}.

Definition getCachePath : string := join homedir CACHE_FILENAME.

(** [readCache()]: [VNull] is [null]. *)
Definition readCache : M value :=
  let path := getCachePath in
  let* present := existsSync path in
  if negb present then ret VNull else
  try_catch
    (let* mtime := statSync_mtimeMs path in
     let* now := Date_now in
     let age := now - mtime in
     if CACHE_MAX_AGE_MS <? age then ret VNull else
     let* text := readFileSync path in
     liftO (parse text))
    (ret VNull).

Definition writeCache (entries : list CacheEntry) : M unit :=
  let* now := Date_now in
  let cache := cache_value SERVER_VERSION (toISOString now) entries in
  writeFileSync getCachePath (JSON_stringify cache +:+ LF).

(** The body of the scan loop of [main]: one project gives one entry,
    or none when the scan of the project throws. *)
Definition scan_project (info : ProjectInfo) : M (option CacheEntry) :=
  try_catch
    (let* outdated := getOutdated (pi_path info) info in
     let* keys := liftO (JS.Object_keys outdated) in
     let outdatedCount := Z.of_nat (length keys) in
     let* entries := liftO (JS.Object_entries outdated) in
     let* majorCount := liftO (count_major entries) in
     let score := scan_score outdatedCount majorCount in
     let* now := Date_now in
     ret (Some {| ce_project := pi_name info; ce_path := pi_path info;
                  ce_language := language info; ce_framework := framework info;
                  ce_outdatedCount := outdatedCount; ce_majorCount := majorCount;
                  ce_securityIssues := 0; ce_score := score;
                  checkedAt := toISOString now |}))
    (ret None).

(** [for (const info of projects) { ... entries.push(...) }] *)
Fixpoint scan_projects (projects : list ProjectInfo) (entries : list CacheEntry)
  : M (list CacheEntry) :=
  match projects with
  | [] => ret entries
  | info :: rest =>
      let* e := scan_project info in
      scan_projects rest (match e with
                          | Some e => entries ++ [e]
                          | None => entries
                          end)
  end.

(** [main()] of the checker up to its first [writeCache(entries)], on the
    projects that [discoverProjects()] found: with no project the process
    exits before anything is written. *)
Definition scan (projects : list ProjectInfo) : M (list CacheEntry) :=
  match projects with
  | [] => ret []
  | _ =>
      let* entries := scan_projects projects [] in
      let* _ := writeCache entries in
      ret entries
  end.

End Cache.

(** ** A JSON codec, to run the model on concrete documents

    The theorems below hold for every [Runtime]; the examples need one. This
    codec reads and prints the documents of the model: integers for
    numbers, code units below 256 in strings. *)

Module Json.

Definition is_ws (c : ascii) : bool :=
  let n := nat_of_ascii c in
  (n =? 32)%nat || (n =? 9)%nat || (n =? 10)%nat || (n =? 13)%nat.

Definition skip_ws (s : string) : string := Str.drop_while is_ws s.

Definition hex_digit (c : ascii) : option nat :=
  let n := nat_of_ascii c in
  if (48 <=? n)%nat && (n <=? 57)%nat then Some (n - 48)%nat
  else if (97 <=? n)%nat && (n <=? 102)%nat then Some (n - 87)%nat
  else if (65 <=? n)%nat && (n <=? 70)%nat then Some (n - 55)%nat
  else None.

Definition escape_char (c : ascii) : option ascii :=
  let n := nat_of_ascii c in
  if (n =? 34)%nat || (n =? 92)%nat || (n =? 47)%nat then Some c
  else if (n =? 98)%nat then Some (ascii_of_nat 8)
  else if (n =? 102)%nat then Some (ascii_of_nat 12)
  else if (n =? 110)%nat then Some (ascii_of_nat 10)
  else if (n =? 114)%nat then Some (ascii_of_nat 13)
  else if (n =? 116)%nat then Some (ascii_of_nat 9)
  else None.

(** The characters of a string literal after its opening quote, and what
    follows the closing quote. *)
Fixpoint read_chars (s : string) : option (string * string) :=
  match s with
  | EmptyString => None
  | String c rest =>
      let n := nat_of_ascii c in
      if (n =? 34)%nat then Some (EmptyString, rest)
      else if (n =? 92)%nat then
        match rest with
        | String e rest' =>
            if (nat_of_ascii e =? 117)%nat then
              match rest' with
              | String h1 (String h2 (String h3 (String h4 rest''))) =>
                  match hex_digit h1, hex_digit h2, hex_digit h3, hex_digit h4 with
                  | Some 0%nat, Some 0%nat, Some a, Some b =>
                      '(body, after) ← read_chars rest'';
                      Some (String (ascii_of_nat (16 * a + b)) body, after)
                  | _, _, _, _ => None
                  end
              | _ => None
              end
            else
              match escape_char e with
              | Some c' =>
                  '(body, after) ← read_chars rest';
                  Some (String c' body, after)
              | None => None
              end
        | EmptyString => None
        end
      else if (n <? 32)%nat then None
      else '(body, after) ← read_chars rest; Some (String c body, after)
  end.

Fixpoint read_digits (acc : Z) (s : string) : Z * string :=
  match s with
  | String c rest =>
      if Str.is_digit c
      then read_digits (10 * acc + Z.of_nat (nat_of_ascii c - 48)) rest
      else (acc, s)
  | EmptyString => (acc, s)
  end.

Definition starts_with_digit (s : string) : bool :=
  match s with
  | String c _ => Str.is_digit c
  | EmptyString => false
  end.

(** An integer literal without sign; a fraction or an exponent is not
    read. *)
Definition read_unsigned (s : string) : option (Z * string) :=
  if negb (starts_with_digit s) then None
  else if String.prefix "0" s && starts_with_digit (Str.drop 1 s) then None
  else
    let '(n, rest) := read_digits 0 s in
    if String.prefix "." rest || String.prefix "e" rest || String.prefix "E" rest
    then None
    else Some (n, rest).

Definition read_number (s : string) : option (Z * string) :=
  match s with
  | String c rest =>
      if Ascii.eqb c "-"%char
      then '(n, after) ← read_unsigned rest; Some (- n, after)
      else read_unsigned s
  | EmptyString => None
  end.

Fixpoint read_value (fuel : nat) (s : string) : option (value * string) :=
  match fuel with
  | O => None
  | S fuel' =>
      let s := skip_ws s in
      match s with
      | EmptyString => None
      | String c rest =>
          let n := nat_of_ascii c in
          if (n =? 123)%nat then
            let rest := skip_ws rest in
            if String.prefix "}" rest then Some (VObj [], Str.drop 1 rest)
            else '(props, after) ← read_members fuel' rest; Some (VObj props, after)
          else if (n =? 91)%nat then
            let rest := skip_ws rest in
            if String.prefix "]" rest then Some (VArr [], Str.drop 1 rest)
            else '(items, after) ← read_items fuel' rest; Some (VArr items, after)
          else if (n =? 34)%nat then
            '(str, after) ← read_chars rest; Some (VStr str, after)
          else if String.prefix "true" s then Some (VBool true, Str.drop 4 s)
          else if String.prefix "false" s then Some (VBool false, Str.drop 5 s)
          else if String.prefix "null" s then Some (VNull, Str.drop 4 s)
          else '(z, after) ← read_number s; Some (VNum z, after)
      end
  end
with read_items (fuel : nat) (s : string) : option (list value * string) :=
  match fuel with
  | O => None
  | S fuel' =>
      '(v, after) ← read_value fuel' s;
      let after := skip_ws after in
      if String.prefix "," after
      then '(vs, after') ← read_items fuel' (Str.drop 1 after); Some (v :: vs, after')
      else if String.prefix "]" after then Some ([v], Str.drop 1 after)
      else None
  end
with read_members (fuel : nat) (s : string)
  : option (list (string * value) * string) :=
  match fuel with
  | O => None
  | S fuel' =>
      match skip_ws s with
      | String q rest =>
          if (nat_of_ascii q =? 34)%nat then
            '(key, after) ← read_chars rest;
            let after := skip_ws after in
            if String.prefix ":" after then
              '(v, after) ← read_value fuel' (Str.drop 1 after);
              let after := skip_ws after in
              if String.prefix "," after
              then '(ms, after') ← read_members fuel' (Str.drop 1 after);
                   Some ((key, v) :: ms, after')
              else if String.prefix "}" after then Some ([(key, v)], Str.drop 1 after)
              else None
            else None
          else None
      | EmptyString => None
      end
  end.

(** [JSON.parse]: one value and nothing but white space after it. *)
Definition parse (text : string) : option value :=
  '(v, after) ← read_value (S (String.length text)) text;
  if Str.is_empty (skip_ws after) then Some v else None.

Definition hex_char (n : nat) : ascii :=
  if (n <? 10)%nat then ascii_of_nat (48 + n) else ascii_of_nat (87 + n).

Definition quote_char (c : ascii) : string :=
  let n := nat_of_ascii c in
  let bs := String (ascii_of_nat 92) EmptyString in
  if (n =? 34)%nat then bs +:+ DQ
  else if (n =? 92)%nat then bs +:+ bs
  else if (n =? 8)%nat then bs +:+ "b"
  else if (n =? 12)%nat then bs +:+ "f"
  else if (n =? 10)%nat then bs +:+ "n"
  else if (n =? 13)%nat then bs +:+ "r"
  else if (n =? 9)%nat then bs +:+ "t"
  else if (n <? 32)%nat
       then bs +:+ "u00" +:+ String (hex_char (n / 16)) (String (hex_char (n mod 16)) EmptyString)
  else String c EmptyString.

Fixpoint quote_chars (s : string) : string :=
  match s with
  | EmptyString => EmptyString
  | String c rest => quote_char c +:+ quote_chars rest
  end.

Definition quote (s : string) : string := DQ +:+ quote_chars s +:+ DQ.

Fixpoint spaces (n : nat) : string :=
  match n with
  | O => EmptyString
  | S k => String " "%char (spaces k)
  end.

Definition is_undef (v : value) : bool :=
  match v with VUndef => true | _ => false end.

(** [JSON.stringify(v, null, 2)] at a depth of [indent] spaces: a
    property that is [undefined] is left out, an item that is [undefined]
    is printed [null]. *)
Fixpoint print (indent : nat) (v : value) : string :=
  match v with
  | VUndef => "undefined"
  | VNull => "null"
  | VBool true => "true"
  | VBool false => "false"
  | VNum n => pretty n
  | VStr s => quote s
  | VArr [] => "[]"
  | VArr items =>
      let inner := LF +:+ spaces (indent + 2) in
      "[" +:+ inner
      +:+ Str.join ("," +:+ inner)
            (map (fun x => if is_undef x then "null" else print (indent + 2) x) items)
      +:+ LF +:+ spaces indent +:+ "]"
  | VObj props =>
      let inner := LF +:+ spaces (indent + 2) in
      let printed :=
        omap (fun kv => if is_undef (snd kv) then None
                        else Some (quote (fst kv) +:+ ": " +:+ print (indent + 2) (snd kv)))
             props in
      match printed with
      | [] => "{}"
      | _ => "{" +:+ inner +:+ Str.join ("," +:+ inner) printed
             +:+ LF +:+ spaces indent +:+ "}"
      end
  end.

Definition stringify (v : value) : string := print 0 v.

(** Apostrophes for double quotes, to write a document as a literal. *)
Definition doc (s : string) : string :=
  string_of_list_ascii
    (map (fun c => if Ascii.eqb c "'"%char then ascii_of_nat 34 else c)
         (list_ascii_of_string s)).

(** A document: no [undefined] anywhere. *)
Fixpoint defined (v : value) : bool :=
  match v with
  | VUndef => false
  | VArr items => forallb defined items
  | VObj props => forallb (fun kv => defined (snd kv)) props
  | _ => true
  end.

(** The number of values of a document, and of places in its arrays and
    objects. *)
Fixpoint size (v : value) : nat :=
  match v with
  | VArr items => S (list_sum (map (fun x => S (size x)) items))
  | VObj props => S (list_sum (map (fun kv => S (size (snd kv))) props))
  | _ => 1
  end.

(** The first character of a printed value. *)
Definition value_start (c : ascii) : bool :=
  Str.is_digit c
  || existsb (Ascii.eqb c)
       [ "-"%char; ascii_of_nat 34; "["%char; "{"%char; "t"%char; "f"%char;
         "n"%char; "u"%char ].

(** What may follow a number: anything but a digit, a dot or an
    exponent. *)
Definition ends_number (rest : string) : bool :=
  negb (starts_with_digit rest)
  && negb (String.prefix "." rest || String.prefix "e" rest
           || String.prefix "E" rest).

End Json.

(** ** A concrete runtime for the examples *)

Definition pad (width : nat) (n : Z) : string :=
  let digits := pretty n in
  string_of_list_ascii (List.repeat "0"%char (width - String.length digits))
  +:+ digits.

(** [new Date(t).toISOString()] for a time [t] in milliseconds since the
    epoch, years 0 to 9999. *)
Definition iso8601 (t : Z) : string :=
  let days := t / 86400000 in
  let ms := t mod 86400000 in
  let z := days + 719468 in
  let era := z / 146097 in
  let doe := z - era * 146097 in
  let yoe := (doe - doe / 1460 + doe / 36524 - doe / 146096) / 365 in
  let doy := doe - (365 * yoe + yoe / 4 - yoe / 100) in
  let mp := (5 * doy + 2) / 153 in
  let d := doy - (153 * mp + 2) / 5 + 1 in
  let m := if mp <? 10 then mp + 3 else mp - 9 in
  let y := yoe + era * 400 + (if m <=? 2 then 1 else 0) in
  pad 4 y +:+ "-" +:+ pad 2 m +:+ "-" +:+ pad 2 d +:+ "T"
  +:+ pad 2 (ms / 3600000) +:+ ":" +:+ pad 2 (ms / 60000 mod 60) +:+ ":"
  +:+ pad 2 (ms / 1000 mod 60) +:+ "." +:+ pad 3 (ms mod 1000) +:+ "Z".

(** External commands that behave as a table says, whatever the directory,
    and leave the world alone; a command that is not in the table is not
    installed. *)
Definition exec_table (table : list (string * exec_outcome))
    (cmd : string) (cwd : option string) (w : World) : exec_outcome * World :=
  match List.find (fun e => String.eqb (fst e) cmd) table with
  | Some (_, res) => (res, w)
  | None => (Failed None, w)
  end.

Definition demo_runtime (table : list (string * exec_outcome)) : Runtime :=
  {| execSync := exec_table table;
     JSON_parse := Json.parse;
     JSON_stringify := Json.stringify;
     toISOString := iso8601;
     homedir := "/home/dev" |}.

(** A state with the given files, each stamped with the time 0. *)
Definition demo_state (now : Z) (texts : list (string * string)) : State :=
  {| world := {| fs := list_to_map (map (fun e => (fst e, File (snd e) 0)) texts);
                 clock := now |};
     trace := [] |}.

Definition demo_project (dir : string) (lang : Language) (pm : PackageManager)
  : ProjectInfo :=
  {| pi_name := VStr (basename dir); pi_path := dir; language := lang;
     framework := "Unknown"; packageManager := pm; nodeVersion := VUndef;
     dependencies := empty_object; devDependencies := empty_object |}.

(** ** The version comparator, as the specification words it *)

(** Strip the leading characters that are not digits, take the token
    before the first dot. *)
Definition spec_major_token (v : string) : string :=
  Str.take_while (fun c => negb (Ascii.eqb c "."%char))
    (Str.drop_while (fun c => negb (Str.is_digit c)) v).

(** Compare the tokens as strings; false when either token is empty. *)
Definition spec_isMajorUpdate (current latest : string) : bool :=
  if Str.is_empty (spec_major_token current) then false
  else if Str.is_empty (spec_major_token latest) then false
  else negb (String.eqb (spec_major_token current) (spec_major_token latest)).

(** The text of the package subset in a command: nothing when no package
    is named, the trimmed subset after a space otherwise. *)
Definition scope_text (packages : option string) : string :=
  let pkgList := match packages with
                 | Some p => Str.trim p
                 | None => EmptyString
                 end in
  if Str.is_empty pkgList then EmptyString else " " +:+ pkgList.

(** The two-step command of the npm path: the range-bumping helper, with
    its options, then the install step, chained with [&&]. *)
Definition two_step (options : string) : string :=
  "npx -y npm-check-updates -u" +:+ options +:+ " && npm install".


(** ** Properties of computations *)

(** A computation that returns from every state. *)
Definition never_throws {A} (m : M A) : Prop :=
  forall s, exists s' a, m s = (s', Ok a).

(** A computation that leaves the state as it found it. *)
Definition reads_only {A} (m : M A) : Prop :=
  forall s, (m s).1 = s.

(** ** Statements about the health score *)

(** An entry whose current and latest versions are strings, as the type
    [OutdatedPackage] declares them. *)
Definition string_versions (pkg : value) : Prop :=
  exists current latest,
    JS.get pkg "current" = Ok (VStr current) /\ JS.get pkg "latest" = Ok (VStr latest).

(** A value that is a mapping of such entries, the declared result of
    [getOutdated]. *)
Definition typed_outdated (outdated : value) : Prop :=
  exists entries,
    JS.Object_entries outdated = Ok entries
    /\ Forall (fun e => string_versions e.2) entries.

(** The score as the specification words it: 100, minus 3 per outdated
    package up to 40, minus 10 per major update, minus 15 without a lockfile,
    minus 5 per security issue up to 30, clamped to 0..100. *)
Definition spec_score (outdated major : Z) (lockfile : bool) (security : Z) : Z :=
  Z.max 0 (Z.min 100
    (100 - Z.min (3 * outdated) 40 - 10 * major
     - (if lockfile then 0 else 15) - Z.min (5 * security) 30)).

(** One of the names is a file or a directory of [dir]. *)
Definition some_present (s : State) (dir : string) (names : list string) : Prop :=
  exists f, f ∈ names /\ is_Some (fs (world s) !! join dir f).

(** ** Statements about the background scan *)

(** What the scan promises of an entry: no security issue counted, and the
    score of the outdated and major counts alone. *)
Definition scan_invariant (e : CacheEntry) : Prop :=
  ce_securityIssues e = 0
  /\ ce_score e
     = Z.max 0 (Z.min 100
         (100 - Z.min (3 * ce_outdatedCount e) 40 - 10 * ce_majorCount e)).

(** A Node project with its manifest and nothing else, on a machine where
    no external tool answers. *)
Definition bare_runtime : Runtime := demo_runtime [].
Definition bare_project : ProjectInfo := demo_project "/p/app" node npm.
Definition bare_state : State :=
  demo_state 0 [("/p/app/package.json", "{}")].

(** ** Statements about the cache *)

Definition Language_of_name (s : string) : option Language :=
  List.find (fun l => String.eqb (Language_name l) s)
            [node; python; rust; go; php; ruby; dart; swift; kotlin].

(** The cache entry that an object of the cache file stands for. *)
Definition entry_of_value (v : value) : option CacheEntry :=
  match v with
  | VObj props =>
      match JS.lookup_prop "project" props, JS.lookup_prop "path" props,
            JS.lookup_prop "language" props, JS.lookup_prop "framework" props,
            JS.lookup_prop "outdatedCount" props, JS.lookup_prop "majorCount" props,
            JS.lookup_prop "securityIssues" props, JS.lookup_prop "score" props,
            JS.lookup_prop "checkedAt" props with
      | Some project, Some (VStr path), Some (VStr lang), Some (VStr fw),
        Some (VNum outdated), Some (VNum major), Some (VNum security),
        Some (VNum sc), Some (VStr at_) =>
          match Language_of_name lang with
          | Some l =>
              Some {| ce_project := project; ce_path := path; ce_language := l;
                      ce_framework := fw; ce_outdatedCount := outdated;
                      ce_majorCount := major; ce_securityIssues := security;
                      ce_score := sc; checkedAt := at_ |}
          | None => None
          end
      | _, _, _, _, _, _, _, _, _ => None
      end
  | _ => None
  end.

(** The entries of a cache file, in the order of its [projects]. *)
Definition cached_entries (cache : value) : option (list CacheEntry) :=
  match JS.get cache "projects" with
  | Ok (VArr items) => mapM entry_of_value items
  | _ => None
  end.

(** Two entries, for the examples. *)
Definition demo_entries : list CacheEntry :=
  [ {| ce_project := VStr "app"; ce_path := "/p/app"; ce_language := node;
       ce_framework := "SvelteKit"; ce_outdatedCount := 3; ce_majorCount := 1;
       ce_securityIssues := 0; ce_score := 81;
       checkedAt := "2026-01-01T00:00:00.000Z" |};
    {| ce_project := VStr "svc"; ce_path := "/p/svc"; ce_language := go;
       ce_framework := "Go"; ce_outdatedCount := 0; ce_majorCount := 0;
       ce_securityIssues := 0; ce_score := 100;
       checkedAt := "2026-01-01T00:00:01.000Z" |} ].

(** A value is read back from its text, whatever follows. *)
Definition reads_back (v : value) : Prop :=
  Json.defined v = true ->
  forall indent rest fuel,
    (Json.size v <= fuel)%nat -> Json.ends_number rest = true ->
    Json.read_value fuel (Json.print indent v +:+ rest) = Some (v, rest).

(** ** Statements about the classifier *)

(** The order of the registry. *)
Definition REGISTRY_ORDER : list Language := map fst LANGUAGE_MARKERS.

Definition present (s : State) (p : string) : bool :=
  bool_decide (is_Some (fs (world s) !! p)).

(** Any of the marker files of [lang] exists in [dir]. *)
Definition marker_present (s : State) (dir : string) (lang : Language) : bool :=
  match marker_of lang with
  | Some marker => existsb (fun f => present s (join dir f)) (files marker)
  | None => false
  end.

(** The classification as the specification words it: the first ecosystem
    of the registry, in its order, with a marker file in the directory;
    none when no ecosystem has one. *)
Definition spec_classify (s : State) (dir : string) : option Language :=
  List.find (marker_present s dir) REGISTRY_ORDER.

Definition is_file (s : State) (p : string) : Prop :=
  exists text t, fs (world s) !! p = Some (File text t).

(** The manifest of the ecosystem gives nothing: for Node and PHP it cannot
    be read or is not JSON, for Python, Rust and Go it cannot be read; the
    other ecosystems read no manifest. *)
Definition manifest_unusable {rt : Runtime} (s : State) (dir : string)
    (lang : Language) : Prop :=
  match lang with
  | node =>
      forall text t, fs (world s) !! join dir "package.json" = Some (File text t) ->
                     JSON_parse text = None
  | php =>
      forall text t, fs (world s) !! join dir "composer.json" = Some (File text t) ->
                     JSON_parse text = None
  | python => ~ is_file s (join dir "requirements.txt")
  | rust => ~ is_file s (join dir "Cargo.toml")
  | go => ~ is_file s (join dir "go.mod")
  | _ => True
  end.

(** ** Statements about the entries of the outdated mapping *)



(** Every entry of the mapping satisfies [P]. *)
Definition entries_satisfy (P : value -> Prop) (mapping : value) : Prop :=
  exists entries,
    JS.Object_entries mapping = Ok entries /\ Forall (fun e => P e.2) entries.


(** A Swift package with one pinned dependency, on a machine with the
    Swift tools. *)
Definition swift_runtime : Runtime :=
  demo_runtime [("which swift", Exited "/usr/bin/swift")].
Definition swift_project : ProjectInfo := demo_project "/p/pkg" swift npm.
Definition swift_state : State :=
  demo_state 0
    [ ("/p/pkg/Package.swift", "// swift-tools-version:5.9");
      ("/p/pkg/Package.resolved",
       Json.doc "{'pins':[{'identity':'alamofire','state':{'version':'5.8.1'}}],'version':2}") ].

(** A machine whose tools each report one package whose current version
    is its latest one: [npm] lists a package installed beyond the wanted
    range, [pip3] and [go] repeat the installed version, [bundle] prints a
    line whose two versions read the same, and the report of Gradle has
    neither a release nor a milestone for its dependency. *)
Definition unguarded_runtime : Runtime :=
  demo_runtime
    [ ("npm outdated --json",
       Failed (Some (Json.doc
         "{'chalk':{'current':'5.3.0','wanted':'4.1.2','latest':'5.3.0'}}")));
      ("which pip3", Exited "/usr/bin/pip3");
      ("pip3 list --outdated --format=json",
       Exited (Json.doc
         "[{'name':'requests','version':'2.31.0','latest_version':'2.31.0'}]"));
      ("which go", Exited "/usr/bin/go");
      ("go list -m -u -json all",
       Exited (Json.doc "{
	'Path': 'github.com/pkg/errors',
	'Version': 'v0.9.1',
	'Update': {
		'Path': 'github.com/pkg/errors',
		'Version': 'v0.9.1'
	},
	'Indirect': true
}
"));
      ("which bundle", Exited "/usr/bin/bundle");
      ("bundle outdated --parseable",
       Exited "rake (newest 13.0.6), installed 13.0.6)");
      ("which gradle", Exited "/usr/bin/gradle");
      ("gradle dependencyUpdates -Drevision=release --output-formatter json",
       Exited "BUILD SUCCESSFUL") ].
Definition unguarded_state : State :=
  demo_state 0
    [ ("/p/app/build/dependencyUpdates/report.json",
       Json.doc "{'outdated':{'dependencies':[{'group':'org.slf4j','name':'slf4j-api','version':'2.0.9','available':{'release':null,'milestone':null,'integration':'2.1.0-alpha1'}}]}}") ].

(** ** Statements about failures of the external tools *)

(** [run] threw on this call: the command failed and printed nothing. *)
Definition run_threw (e : event) : bool :=
  match e with
  | Exec _ (Some _) (Failed None) => true
  | Exec _ (Some _) (Failed (Some out)) => Str.is_empty out
  | _ => false
  end.

(** What [run] returned on this call. *)
Definition run_output (e : event) : option string :=
  match e with
  | Exec _ (Some _) (Exited out) => Some out
  | Exec _ (Some _) (Failed (Some out)) => if Str.is_empty out then None else Some out
  | _ => None
  end.

(** A call of [run], as opposed to a probe of [cmdExists]. *)
Definition is_run (e : event) : bool :=
  match e with
  | Exec _ (Some _) _ => true
  | Exec _ None _ => false
  end.




(** The file is there and its text is not JSON. *)
Definition unparsable_file {rt : Runtime} (s : State) (p : string) : Prop :=
  exists text t, fs (world s) !! p = Some (File text t) /\ JSON_parse text = None.


Definition go_project : ProjectInfo := demo_project "/p/svc" go npm.
Definition go_state : State := demo_state 0 [("/p/svc/go.mod", "module example.com/app")].

(** [post m s Q]: the state and the outcome of running [m] from [s]
    satisfy [Q]. *)
Definition post {A} (m : M A) (s : State) (Q : State -> outcome A -> Prop) : Prop :=
  Q (m s).1 (m s).2.

(** The state after a call of [execSync]. *)
Definition after_exec (s : State) (cmd : string) (cwd : option string)
    (res : exec_outcome) (w : World) : State :=
  {| world := w; trace := trace s ++ [Exec cmd cwd res] |}.


(** A fragment of the Go listing that is, with the closing brace that the
    separator took, a well-formed object with an [Update], a [Version] and
    a string [Path]. *)
Definition go_well_formed {rt : Runtime} (fragment : string)
    (version newer : value) (path : string) : Prop :=
  exists parsed update,
    JSON_parse (Str.trim fragment +:+ "}") = Some parsed
    /\ JS.get parsed "Update" = Ok update /\ JS.truthy update = true
    /\ JS.get parsed "Version" = Ok version /\ JS.truthy version = true
    /\ JS.get parsed "Path" = Ok (VStr path)
    /\ JS.get update "Version" = Ok newer.

(** The key of a Go module: the last two segments of its path. *)
Definition go_key (path : string) : string :=
  Str.join "/" (Str.last_n 2 (Str.split "/" path)).






(** No probe of [cmdExists] finds anything: no tool is installed. *)
Definition no_tool_found {rt : Runtime} : Prop :=
  forall cmd w, exists o w', execSync ("which " +:+ cmd) None w = (Failed o, w').

(** The resolver checked, found its tool missing, and stopped: it ran no
    command and its mapping is empty. *)
Definition stopped_at_check (s s' : State) (o : outcome value) : Prop :=
  exists t, o = Ok empty_object
            /\ trace s' = (trace s ++ t)%list
            /\ Forall (fun e => is_run e = false) t.

(** ** Worlds for the examples *)

(** A Node project managed by pnpm with one outdated package, a major
    update from 4.1.0 to 5.0.0, and a clean audit. *)
Definition pnpm_runtime : Runtime :=
  demo_runtime
    [ ("pnpm outdated --json",
       Failed (Some (Json.doc
         "{'vite':{'current':'4.1.0','latest':'5.0.0','wanted':'4.1.0','dependencyType':'devDependencies'}}")));
      ("which pnpm", Exited "/usr/bin/pnpm");
      ("pnpm audit --json",
       Exited (Json.doc
         "{'metadata':{'vulnerabilities':{'low':0,'moderate':0,'high':0,'critical':0}}}")) ].
Definition pnpm_state : State :=
  demo_state 0 [ ("/p/web/package.json", "{}");
                 ("/p/web/pnpm-lock.yaml", "lockfileVersion: 9") ].

Definition cargo_project : ProjectInfo := demo_project "/p/crate" rust npm.
Definition cargo_state : State := demo_state 0 [("/p/crate/Cargo.toml", "[package]")].

(** A directory with the marker files of Node and of Rust, whose
    [package.json] is not JSON. *)
Definition mixed_state : State :=
  demo_state 0 [ ("/p/app/package.json", "{ not json");
                 ("/p/app/Cargo.toml", "[package]") ].

(** ** Statements about the counts of a report *)





(** A Node project managed by pnpm, without lockfile: two outdated
    packages, one of them a major update, and an audit that exits non-zero
    and reports one high and one critical vulnerability among others. *)
Definition audited_runtime : Runtime :=
  demo_runtime
    [ ("pnpm outdated --json",
       Failed (Some (Json.doc
         "{'vite':{'current':'4.1.0','latest':'5.0.0','wanted':'4.1.0'},'zod':{'current':'3.22.0','latest':'3.23.8','wanted':'3.23.8'}}")));
      ("which pnpm", Exited "/usr/bin/pnpm");
      ("pnpm audit --json",
       Failed (Some (Json.doc
         "{'metadata':{'vulnerabilities':{'info':0,'low':7,'high':1,'critical':1}}}"))) ].
Definition audited_project : ProjectInfo := demo_project "/p/web" node pnpm.
Definition audited_state : State := demo_state 0 [("/p/web/package.json", "{}")].

(** * The rest of the code: grouping, configuration, discovery, text limits *)

(** ** The dashboard ([dashboard.ts]) *)

Section Dashboard.
Context {rt : Runtime}.

Definition CACHE_PATH : string := join homedir ".depsonar-cache.json".

(** [readCacheFile()]: [VNull] is [null]. *)
Definition readCacheFile : M value :=
  let* present := existsSync CACHE_PATH in
  if negb present then ret VNull else
  try_catch
    (let* text := readFileSync CACHE_PATH in
     liftO (parse text))
    (ret VNull).

End Dashboard.

(** ** Statements about the framework version *)

(** The frameworks whose version [getFrameworkVersion] reports, each with
    the package it looks at first. *)
Definition FRAMEWORK_PACKAGES : list (string * string) :=
  [ ("SvelteKit", "@sveltejs/kit"); ("Svelte", "svelte"); ("Next.js", "next");
    ("React", "react"); ("Nuxt", "nuxt"); ("Vue", "vue"); ("Astro", "astro");
    ("SolidStart", "solid-start"); ("Solid.js", "solid-js") ].

(** No character of [p] is a digit. *)
Definition no_digit (p : string) : bool :=
  forallb (fun c => negb (Str.is_digit c)) (list_ascii_of_string p).

(** ** Statements about the security audit *)

(** What [getSecurityIssues] answers, given the calls [t] it made: a
    count, which is 0 when no audit command was run, when the command
    failed without output, and when its output is not JSON. *)
Definition audit_answers {rt : Runtime} (s s' : State) (o : outcome JS.operand)
  : Prop :=
  exists n t,
    o = Ok n
    /\ trace s' = (trace s ++ t)%list
    /\ (Forall (fun e => is_run e = false) t -> n = JS.ONum 0)
    /\ (Exists (fun e => run_threw e = true) t -> n = JS.ONum 0)
    /\ (Exists (fun e => exists out, run_output e = Some out /\ JSON_parse out = None) t ->
        n = JS.ONum 0).

(** ** Statements about the entries, continued *)

(** An entry whose wanted version is its latest one. *)
Definition wanted_is_latest (pkg : value) : Prop :=
  exists current target, pkg = entry current target target.

(** An entry of three texts. *)
Definition text_entry (pkg : value) : Prop :=
  exists current wanted latest, pkg = entry (VStr current) (VStr wanted) (VStr latest).

(** ** Statements about the project record *)

(** The package manager that the lockfiles of a directory name: bun before
    pnpm before yarn, and npm when none of their lockfiles is there. *)
Definition lockfile_manager (s : State) (dir : string) : PackageManager :=
  if present s (join dir "bun.lockb") || present s (join dir "bun.lock") then bun
  else if present s (join dir "pnpm-lock.yaml") then pnpm
  else if present s (join dir "yarn.lock") then yarn
  else npm.

(** An object whose properties all have the value [*]. *)
Definition starred (deps : value) : Prop :=
  exists props, deps = VObj props /\ Forall (fun kv => kv.2 = VStr "*") props.

(** One name of [FRAMEWORK_DETECTORS] is matched in the directory. *)
Definition detector_present (s : State) (dir f : string) : bool :=
  if Str.startsWith "*." f
  then match fs (world s) !! dir with
       | Some (Dir entries _) => existsb (Str.endsWith (Str.drop 1 f)) entries
       | _ => false
       end
  else present s (join dir f).

(** The first framework of [FRAMEWORK_DETECTORS] with a name matched in
    the directory. *)
Definition framework_detected (s : State) (dir : string) : option string :=
  fst <$> List.find (fun d => existsb (detector_present s dir) (snd d))
                    FRAMEWORK_DETECTORS.

(** Every name [detectFramework] can answer. *)
Definition FRAMEWORK_NAMES : list string :=
  map fst FRAMEWORK_DETECTORS ++ map snd NODE_FRAMEWORKS
  ++ map (fun e => name (snd e)) LANGUAGE_MARKERS.


(** A machine where [npm outdated --json] prints the document [null]. *)
Definition null_runtime : Runtime :=
  demo_runtime [("npm outdated --json", Exited "null")].

(** ** Ecosystem grouping ([constants.ts], [project.ts]) *)

(** Each pattern of [ECOSYSTEM_GROUPS] is an alternation of literal texts,
    anchored at the start; it is given by its alternatives, in their
    order. *)
Definition ECOSYSTEM_GROUPS : list (string * list string) :=
  [ ("svelte", ["svelte"; "@sveltejs/"; "svelte-check"; "svelte-preprocess"]);
    ("react", ["react"; "react-dom"; "@types/react"; "next"; "@next/"]);
    ("vue", ["vue"; "@vue/"; "nuxt"; "@nuxt/"; "vite-plugin-vue"]);
    ("supabase", ["@supabase/"]);
    ("tailwind", ["tailwindcss"; "@tailwindcss/"; "postcss"; "autoprefixer"]);
    ("vite", ["vite"; "@vitejs/"; "rollup"; "@rollup/"]);
    ("typescript", ["typescript"; "tslib"; "ts-node"; "@types/node"]);
    ("eslint", ["eslint"; "@eslint/"; "@typescript-eslint/"; "prettier"]);
    ("stripe", ["stripe"; "@stripe/"]);
    ("testing", ["vitest"; "@testing-library/"; "playwright"; "@playwright/"]) ].

(** [pattern.test(name)] for the anchored alternation of [alts]: one of
    the alternatives matches at the start of the name. *)
Definition alternation_test (alts : list string) (name : string) : bool :=
  existsb
    (fun a => bool_decide (is_Some (Regex.exec
       {| Regex.anchored := true; Regex.atoms := [Regex.Lit a] |} name)))
    alts.

(** The group of a package: the first ecosystem whose pattern matches its
    name, or [other]. *)
Definition ecosystem_of (name : string) : string :=
  match List.find (fun e => alternation_test (snd e) name) ECOSYSTEM_GROUPS with
  | Some e => fst e
  | None => "other"
  end.

(** [if (!groups[g]) groups[g] = []; groups[g].push(item)] *)
Fixpoint push_group (g : string) (item : string * value)
    (groups : list (string * list (string * value)))
  : list (string * list (string * value)) :=
  match groups with
  | [] => [(g, [item])]
  | (g', items) :: rest =>
      if String.eqb g g' then (g', (items ++ [item])%list) :: rest
      else (g', items) :: push_group g item rest
  end.

(** [groupByEcosystem(outdated)]: the groups in the order in which they
    were first filled, each with its packages in the order of the
    mapping. *)
Definition groupByEcosystem (outdated : value)
  : outcome (list (string * list (string * value))) :=
  let? entries := JS.Object_entries outdated in
  Ok (fold_left (fun groups e => push_group (ecosystem_of (fst e)) e groups)
                entries []).

(** The packages of a group. *)
Definition group_items (g : string) (groups : list (string * list (string * value)))
  : list (string * value) :=
  match List.find (fun e => String.eqb g (fst e)) groups with
  | Some e => snd e
  | None => []
  end.

(** ** The limit on the length of a text ([constants.ts], [formatter.ts]) *)

Definition CHARACTER_LIMIT : Z := 25000.

(** The mark that ends a truncated text: two line feeds and the words. *)
Definition TRUNCATED : string := LF +:+ LF +:+ "... (truncated)".

(** [truncate(text)] *)
Definition truncate (text : string) : string :=
  if Z.of_nat (String.length text) <=? CHARACTER_LIMIT then text
  else Str.take (Z.to_nat (CHARACTER_LIMIT - 100)) text +:+ TRUNCATED.

(** ** Configuration ([project.ts]) *)

(** The process: the environment variable [DEPUP_PROJECTS_DIR], when it is
    set, and [path.resolve] on one path. The file system is looked up by
    resolved paths: a path that comes from a configuration file or from the
    environment is resolved before it is looked up. *)
Class Process := {
  env_DEPUP_PROJECTS_DIR : option string;
  resolve : string -> string;
}.

(** [{ projectsDir, ignoredPackages }] *)
Definition config_object (projectsDir : string) (ignoredPackages : value) : value :=
  VObj [("projectsDir", VStr projectsDir); ("ignoredPackages", ignoredPackages)].

(** [{ ...a, ...b }]: the properties of [a] in their order, those of [b]
    replacing the ones of the same name and coming after the others. *)
Definition merge (a b : value) : value :=
  VObj (fold_left (fun props kv => JS.define_prop (fst kv) (snd kv) props)
                  (spread b) (spread a)).

Section Config.
Context {rt : Runtime} {pr : Process}.

Definition CONFIG_PATHS : list string :=
  [ join homedir ".depsonarrc.json";
    join (join (join homedir ".config") "depsonar") "config.json" ].

Definition DEFAULT_PROJECTS_DIRS : list string :=
  [ join (join homedir "Cursor") "App"; join homedir "Projects";
    join homedir "Developer"; join homedir "Code"; join homedir "dev" ].

(** [existsSync(v)] on a value read from a document: false for anything
    but a text. *)
Definition existsSync_value (v : value) : M bool :=
  match v with
  | VStr p => existsSync (resolve p)
  | _ => ret false
  end.

(** [resolve(v)]: a [TypeError] for anything but a text. *)
Definition resolve_value (v : value) : outcome string :=
  match v with
  | VStr p => Ok (resolve p)
  | _ => Throw TypeError
  end.

(** The loop of [getProjectsDir] over the configuration files: the
    resolved [projectsDir] of the first file that has one that exists. *)
Fixpoint dir_from_configs (paths : list string) : M (option string) :=
  match paths with
  | [] => ret None
  | configPath :: rest =>
      let* present := existsSync configPath in
      if present
      then
        let* found :=
          try_catch
            (let* text := readFileSync configPath in
             let* config := liftO (parse text) in
             let* dir := liftO (JS.get config "projectsDir") in
             if JS.truthy dir
             then
               let* there := existsSync_value dir in
               if there
               then let* resolved := liftO (resolve_value dir) in ret (Some resolved)
               else ret None
             else ret None)
            (ret None) in
        match found with
        | Some dir => ret (Some dir)
        | None => dir_from_configs rest
        end
      else dir_from_configs rest
  end.

Fixpoint first_existing (dirs : list string) : M (option string) :=
  match dirs with
  | [] => ret None
  | dir :: rest =>
      let* there := existsSync dir in
      if there then ret (Some dir) else first_existing rest
  end.

Definition getProjectsDir : M string :=
  let* from_config := dir_from_configs CONFIG_PATHS in
  match from_config with
  | Some dir => ret dir
  | None =>
      let* from_env :=
        match env_DEPUP_PROJECTS_DIR with
        | Some envDir =>
            if Str.is_empty envDir then ret None else
            let* there := existsSync (resolve envDir) in
            if there then ret (Some (resolve envDir)) else ret None
        | None => ret None
        end in
      match from_env with
      | Some dir => ret dir
      | None =>
          let* found := first_existing DEFAULT_PROJECTS_DIRS in
          match found with
          | Some dir => ret dir
          | None => ret (join homedir "Projects")
          end
      end
  end.

(** The loop of [loadConfig]: the object made from the first
    configuration file that is there and can be used. *)
Fixpoint load_from (paths : list string) : M value :=
  match paths with
  | [] =>
      let* dir := getProjectsDir in
      ret (config_object dir (VArr []))
  | configPath :: rest =>
      let* present := existsSync configPath in
      if present
      then
        let* loaded :=
          try_catch
            (let* text := readFileSync configPath in
             let* raw := liftO (parse text) in
             let* dir := liftO (JS.get raw "projectsDir") in
             let* projectsDir :=
               if JS.truthy dir then liftO (resolve_value dir)
               else getProjectsDir in
             let* ignored := liftO (JS.get raw "ignoredPackages") in
             ret (Some (config_object projectsDir (JS.or_else ignored (VArr [])))))
            (ret None) in
        match loaded with
        | Some config => ret config
        | None => load_from rest
        end
      else load_from rest
  end.

Definition loadConfig : M value := load_from CONFIG_PATHS.

(** [saveConfig(config)] *)
Definition saveConfig (config : value) : M string :=
  let configPath := join homedir ".depsonarrc.json" in
  let* present := existsSync configPath in
  let* existing :=
    if present
    then let* text := readFileSync configPath in liftO (parse text)
    else ret empty_object in
  let merged := merge existing config in
  let* _ := writeFileSync configPath (JSON_stringify merged +:+ LF) in
  ret configPath.

(** [config.autoUpdate || []] on what [loadConfig()] returned, the list
    of the projects to update by themselves ([checker.ts],
    [dashboard.ts]). *)
Definition autoUpdate_list : M value :=
  let* config := loadConfig in
  let* auto := liftO (JS.get config "autoUpdate") in
  ret (JS.or_else auto (VArr [])).

End Config.

(** ** Discovery of the projects ([project.ts]) *)

Section Discovery.
Context {rt : Runtime} {pr : Process}.

(** [entry.isDirectory()] for the entry [name] of [dir]. *)
Definition isDirectory (dir name : string) : M bool := fun s =>
  (s, Ok (match fs (world s) !! join dir name with
          | Some (Dir _ _) => true
          | _ => false
          end)).

(** The loop of [discoverProjects] over the entries of the directory. An
    exception leaves the loop, and the projects pushed so far stay. *)
Fixpoint collect (dir : string) (entries : list string)
    (projects : list ProjectInfo) : M (list ProjectInfo) :=
  match entries with
  | [] => ret projects
  | entry_name :: rest =>
      let* is_dir := isDirectory dir entry_name in
      if negb is_dir then collect dir rest projects else
      if Str.startsWith "." entry_name || String.eqb entry_name "node_modules"
      then collect dir rest projects
      else
        let* r := try_catch
                    (let* info := getProjectInfo (join dir entry_name) in
                     ret (Some info))
                    (ret None) in
        match r with
        | Some (Some info) => collect dir rest (projects ++ [info])%list
        | Some None => collect dir rest projects
        | None => ret projects
        end
  end.

(** The projects [discoverProjects(rootDir)] finds, in the order of the
    directory listing: what it then sorts by name, with the collation of
    the runtime, and returns. [None] is a call without [rootDir]. *)
Definition discovered (rootDir : option string) : M (list ProjectInfo) :=
  let* dir :=
    match rootDir with
    | Some d => if Str.is_empty d then getProjectsDir else ret d
    | None => getProjectsDir
    end in
  let* there := existsSync dir in
  if negb there then ret [] else
  try_catch
    (let* entries := readdirSync dir in
     collect dir entries [])
    (ret []).

End Discovery.

(** ** Statements about the configuration *)

(** What [saveConfig] finds in the place of the configuration file: no
    file, which counts as the empty object, or a file whose text parses. *)
Definition saved_before {rt : Runtime} (s : State) (existing : value) : Prop :=
  (fs (world s) !! join homedir ".depsonarrc.json" = None /\ existing = empty_object)
  \/ (exists text t,
        fs (world s) !! join homedir ".depsonarrc.json" = Some (File text t)
        /\ JSON_parse text = Some existing).

(** ** Statements about the discovery *)

(** An entry of the projects directory that is looked at: a directory whose
    name does not start with a dot and is not [node_modules]. *)
Definition eligible (s : State) (dir entry_name : string) : bool :=
  match fs (world s) !! join dir entry_name with
  | Some (Dir _ _) => true
  | _ => false
  end
  && negb (Str.startsWith "." entry_name)
  && negb (String.eqb entry_name "node_modules").

(** ** Statements about the texts the resolvers read *)

(** Every character of [s] is in the class. *)
Definition all_in (cls : ascii -> bool) (s : string) : bool :=
  forallb cls (list_ascii_of_string s).

(** The text starts with a character of the class. *)
Definition starts_in (cls : ascii -> bool) (s : string) : bool :=
  match s with
  | String c _ => cls c
  | EmptyString => false
  end.

(** The search of a repetition for the longest run that lets the rest of
    the expression match, from a run of [k] characters down. *)
Fixpoint give_back (cls : ascii -> bool) (min : nat) (cap : bool)
    (rest : list Regex.atom) (s : string) (k : nat) : option (list string * nat) :=
  let try_k :=
    if (min <=? k)%nat
    then '(caps, n) ← Regex.match_here rest (Str.drop k s);
         Some (if cap then Str.take k s :: caps else caps, (k + n)%nat)
    else None in
  match try_k with
  | Some m => Some m
  | None => match k with
            | O => None
            | S k' => give_back cls min cap rest s k'
            end
  end.

(** A character other than the slash. *)
Definition not_slash (c : ascii) : bool := negb (Ascii.eqb c "/"%char).

(** ** Statements about the commands that are run *)

(** The commands that list outdated packages. *)
Definition LISTING_COMMANDS : list string :=
  [ "npm outdated --json"; "pnpm outdated --json"; "yarn outdated --json";
    "bun outdated --json"; "pip3 list --outdated --format=json";
    "pip list --outdated --format=json"; "cargo outdated --format json";
    "go list -m -u -json all"; "composer outdated --format=json --direct";
    "bundle outdated --parseable"; "flutter pub outdated --json";
    "dart pub outdated --json";
    "./gradlew dependencyUpdates -Drevision=release --output-formatter json";
    "gradle dependencyUpdates -Drevision=release --output-formatter json" ].

(** A call that only looks: a probe [which ...] without working directory,
    or a listing command run in the directory of the project. *)
Definition looks_only (path : string) (e : event) : Prop :=
  match e with
  | Exec cmd None _ => String.prefix "which " cmd = true
  | Exec cmd (Some cwd) _ => cwd = path /\ In cmd LISTING_COMMANDS
  end.

(** The number of commands run, the probes apart. *)
Definition runs (t : list event) : nat := length (List.filter is_run t).

(** The resolver returns a mapping, having only looked, and having run one
    command at most. *)
Definition only_looked (path : string) (s s' : State) (o : outcome value) : Prop :=
  exists mapping t,
    o = Ok mapping
    /\ trace s' = (trace s ++ t)%list
    /\ Forall (looks_only path) t
    /\ (runs t <= 1)%nat.

(** ** Worlds for the examples, continued *)

(** A process without the environment variable, in which the paths used
    are absolute and normal already. *)
Definition bare_process : Process :=
  {| env_DEPUP_PROJECTS_DIR := None; resolve := fun p => p |}.

(** A projects directory with a Node project, a hidden directory, a plain
    file and [node_modules]. *)
Definition workspace_state : State :=
  {| world :=
       {| fs := list_to_map
            [ ("/work", Dir ["app"; ".git"; "notes.txt"; "node_modules"] 0);
              ("/work/app", Dir ["package.json"] 0);
              ("/work/app/package.json", File "{}" 0);
              ("/work/.git", Dir [] 0);
              ("/work/notes.txt", File "todo" 0);
              ("/work/node_modules", Dir [] 0) ];
          clock := 0 |};
     trace := [] |}.

(** A cache file written at time 0, read seven hours later. *)
Definition stale_state : State :=
  demo_state (7 * 60 * 60 * 1000) [("/home/dev/.depsonar-cache.json", "{}")].

(** A React project that declares React among its development
    dependencies only. *)
Definition react_project : ProjectInfo :=
  {| pi_name := VStr "app"; pi_path := "/p/app"; language := node;
     framework := "React"; packageManager := npm; nodeVersion := VUndef;
     dependencies := empty_object;
     devDependencies := VObj [("react", VStr "^18.2.0")] |}.

(** A home directory whose configuration file names the projects
    directory [/work], which is there. *)
Definition configured_state : State :=
  {| world :=
       {| fs := list_to_map
            [ ("/home/dev/.depsonarrc.json",
               File (Json.doc "{'projectsDir':'/work','autoUpdate':['app']}") 0);
              ("/work", Dir [] 0) ];
          clock := 0 |};
     trace := [] |}.

(** * Proofs *)

(** ** Strings *)

Lemma prefix_char (c d : ascii) (s t : string) :
  String.prefix (String c s) (String d t) = Ascii.eqb c d && String.prefix s t.
Proof.
  simpl. destruct (ascii_dec c d) as [->|Hne].
  - by rewrite Ascii.eqb_refl.
  - apply Ascii.eqb_neq in Hne. by rewrite Hne.
Qed.

Lemma prefix_empty (s : string) : String.prefix EmptyString s = true.
Proof. by destruct s. Qed.

Lemma append_empty_r (s : string) : s +:+ EmptyString = s.
Proof. induction s as [|c s IH]; simpl; [done|by rewrite IH]. Qed.

Lemma append_assoc (a b c : string) : (a +:+ b) +:+ c = a +:+ (b +:+ c).
Proof. induction a as [|x a IH]; simpl; [done|by rewrite IH]. Qed.

Lemma drop_run_length (p : ascii -> bool) (s : string) :
  Str.drop (Regex.run_length p s) s = Str.drop_while p s.
Proof.
  induction s as [|c s IH]; simpl; [reflexivity|].
  destruct (p c); simpl; [apply IH|reflexivity].
Qed.

Lemma split_aux_not_nil (sep : string) (k : nat) (acc s : string) :
  Str.split_aux sep k acc s <> [].
Proof.
  revert k acc. induction s as [|c s IH]; intros k acc; [discriminate|].
  cbn [Str.split_aux]. destruct k; [|apply IH].
  destruct (String.prefix sep (String c s)); [discriminate|apply IH].
Qed.

(** The first piece of a split on one character is what comes before its
    first occurrence. *)
Lemma split_char_head (d : ascii) (acc s : string) :
  List.hd EmptyString (Str.split_aux (String d EmptyString) 0 acc s)
  = acc +:+ Str.take_while (fun c => negb (Ascii.eqb c d)) s.
Proof.
  revert acc. induction s as [|c s IH]; intros acc.
  - simpl. by rewrite append_empty_r.
  - cbn [Str.split_aux Str.take_while]. rewrite prefix_char, prefix_empty, andb_true_r.
    rewrite (Ascii.eqb_sym c d). destruct (Ascii.eqb d c); simpl.
    + by rewrite append_empty_r.
    + rewrite IH, append_assoc. done.
Qed.

(** Splitting on one character and joining with it gives the text back. *)
Lemma join_split_char (d : ascii) (acc s : string) :
  Str.join (String d EmptyString) (Str.split_aux (String d EmptyString) 0 acc s)
  = acc +:+ s.
Proof.
  revert acc. induction s as [|c s IH]; intros acc.
  - simpl. by rewrite append_empty_r.
  - cbn [Str.split_aux]. rewrite prefix_char, prefix_empty, andb_true_r.
    destruct (Ascii.eqb d c) eqn:E.
    + apply Ascii.eqb_eq in E as <-.
      cbn [String.length Nat.sub]. cbn [Str.join].
      destruct (Str.split_aux (String d EmptyString) 0 EmptyString s) eqn:Es.
      * by apply split_aux_not_nil in Es.
      * rewrite <- Es, IH. done.
    + rewrite IH, append_assoc. done.
Qed.

Lemma join_split_space (s : string) : Str.join " " (Str.split " " s) = s.
Proof. apply (join_split_char " "%char EmptyString s). Qed.

(** A trailing repetition that may be empty takes its whole run. *)
Lemma match_here_last_rep (cls : ascii -> bool) (s : string) :
  Regex.match_here [Regex.Rep cls 0 false] s
  = Some ([], (Regex.run_length cls s + 0)%nat).
Proof. cbn [Regex.match_here]. by destruct (Regex.run_length cls s). Qed.

Lemma major_token_spec (v : string) : major_token v = spec_major_token v.
Proof.
  unfold major_token, spec_major_token, Regex.replace, Regex.exec.
  cbn [Regex.anchored Regex.atoms re_leading_non_digits].
  rewrite match_here_last_rep. cbn [mbind option_bind].
  rewrite Nat.add_0_r. cbn [Str.take Nat.add]. simpl String.append.
  rewrite drop_run_length. unfold Str.split.
  by rewrite (split_char_head "."%char EmptyString).
Qed.

(** ** Version comparator *)

(** C7. [isMajorUpdate] strips the leading non-digit characters of each
    version, takes the token before the first dot and compares the two
    tokens as strings, answering false when either token is empty: it is the
    function the specification words, on every pair of strings, and it gives
    the four values of the specification. *)
Theorem isMajorUpdate_spec (current latest : string) :
  isMajorUpdate current latest = spec_isMajorUpdate current latest
  /\ isMajorUpdate "2.3.1" "3.0.0" = true
  /\ isMajorUpdate "2.3.1" "2.9.0" = false
  /\ isMajorUpdate "^1.2.0" "^1.9.0" = false
  /\ isMajorUpdate "abc" "def" = false.
Proof.
  split; [|by vm_compute].
  unfold isMajorUpdate, spec_isMajorUpdate. rewrite !major_token_spec.
  destruct (Str.is_empty (spec_major_token current)),
           (Str.is_empty (spec_major_token latest)),
           (String.eqb (spec_major_token current) (spec_major_token latest));
    reflexivity.
Qed.

(** ** Update commands *)

Lemma marker_of_total (lang : Language) : is_Some (marker_of lang).
Proof. destruct lang; vm_compute; eauto. Qed.

(** C3. For a Node project managed by npm, level [minor] gives the helper
    with [--target minor], then [npm install], chained with [&&]; level
    [latest] gives the helper without a target; both name the package
    subset when there is one. For pnpm the command is the single native
    [pnpm update], with the subset and, for level [latest], [--latest]; it is
    never a two-step command. *)
Theorem buildUpdateCommand_npm_two_step (info : ProjectInfo)
    (packages : option string) :
  language info = node ->
  (packageManager info = npm ->
     buildUpdateCommand info packages "minor"
       = two_step (" --target minor" +:+ scope_text packages)
     /\ buildUpdateCommand info packages "latest"
       = two_step (scope_text packages))
  /\ (packageManager info = pnpm -> forall level : string,
        buildUpdateCommand info packages level
          = "pnpm update" +:+ scope_text packages
            +:+ (if String.eqb level "latest" then " --latest" else EmptyString)
        /\ forall options, buildUpdateCommand info packages level <> two_step options).
Proof.
  intros Hlang. unfold buildUpdateCommand, scope_text, two_step.
  rewrite Hlang. cbn [marker_of]. 
  split; intros Hpm; rewrite Hpm.
  - change (String.eqb "minor" "latest") with false.
    change (String.eqb "latest" "latest") with true.
    cbv iota. rewrite !join_split_space.
    destruct packages as [p|]; cbn [Str.is_empty negb];
      [destruct (Str.trim p) eqn:E; cbn [Str.is_empty negb]|]; simpl; done.
  - intros level. 
    destruct packages as [p|]; cbn [Str.is_empty negb];
      [destruct (Str.trim p) eqn:E; cbn [Str.is_empty negb]|];
      destruct (String.eqb level "latest"); simpl;
      (split; [try rewrite append_empty_r; done|discriminate]).
Qed.

(** C4. With the package manager bun the level is not looked at: level
    [latest] gives the command of level [minor], without any flag, where the
    pnpm and yarn branches add [--latest]. *)
Theorem buildUpdateCommand_bun_latest :
  buildUpdateCommand (demo_project "/p/app" node bun) None "latest" = "bun update"
  /\ buildUpdateCommand (demo_project "/p/app" node bun) (Some "react") "latest"
     = "bun update react"
  /\ buildUpdateCommand (demo_project "/p/app" node pnpm) None "latest"
     = "pnpm update --latest"
  /\ buildUpdateCommand (demo_project "/p/app" node yarn) (Some "react") "latest"
     = "yarn upgrade react --latest"
  /\ forall dir packages level,
       buildUpdateCommand (demo_project dir node bun) packages level
       = "bun update" +:+ scope_text packages.
Proof.
  repeat split; try by vm_compute.
  intros dir packages level.
  unfold buildUpdateCommand, scope_text, demo_project.
  cbn [marker_of language packageManager].
  destruct packages as [p|]; cbn [Str.is_empty negb];
    [destruct (Str.trim p); cbn [Str.is_empty negb]|]; done.
Qed.

(** ** Computations *)

Lemma never_throws_ret {A} (a : A) : never_throws (ret a).
Proof. intros s. by exists s, a. Qed.

Lemma never_throws_bind {A B} (m : M A) (k : A -> M B) :
  never_throws m -> (forall a, never_throws (k a)) -> never_throws (bind m k).
Proof.
  intros Hm Hk s. unfold bind. destruct (Hm s) as (s1 & a & ->). apply Hk.
Qed.

Lemma never_throws_try_catch {A} (body handler : M A) :
  never_throws handler -> never_throws (try_catch body handler).
Proof.
  intros Hh s. unfold try_catch. destruct (body s) as [s1 [a|e]]; [by eexists _, _|apply Hh].
Qed.

Lemma never_throws_if {A} (b : bool) (m1 m2 : M A) :
  never_throws m1 -> never_throws m2 -> never_throws (if b then m1 else m2).
Proof. by destruct b. Qed.

Section ComputationFacts.
Context {rt : Runtime}.

Lemma never_throws_exec cmd cwd : never_throws (exec cmd cwd).
Proof. intros s. unfold exec. destruct (execSync _ _ _). by eexists _, _. Qed.

Lemma never_throws_cmdExists cmd : never_throws (cmdExists cmd).
Proof.
  apply never_throws_bind; [apply never_throws_exec|intros; apply never_throws_ret].
Qed.

Lemma never_throws_existsSync p : never_throws (existsSync p).
Proof. intros s. by eexists _, _. Qed.

Lemma never_throws_some_exists dir names : never_throws (some_exists dir names).
Proof.
  induction names as [|f names IH]; simpl; [apply never_throws_ret|].
  apply never_throws_bind; [apply never_throws_existsSync|].
  intros []; [apply never_throws_ret|apply IH].
Qed.

Lemma never_throws_Date_now : never_throws Date_now.
Proof. intros s. by eexists _, _. Qed.

Lemma reads_only_ret {A} (a : A) : reads_only (ret a).
Proof. done. Qed.

Lemma reads_only_bind {A B} (m : M A) (k : A -> M B) :
  reads_only m -> (forall a, reads_only (k a)) -> reads_only (bind m k).
Proof.
  intros Hm Hk s. unfold bind. specialize (Hm s).
  destruct (m s) as [s1 [a|e]]; simpl in *; subst; [apply Hk|done].
Qed.

Lemma reads_only_try_catch {A} (body handler : M A) :
  reads_only body -> reads_only handler -> reads_only (try_catch body handler).
Proof.
  intros Hb Hh s. unfold try_catch. specialize (Hb s).
  destruct (body s) as [s1 [a|e]]; simpl in *; subst; [done|apply Hh].
Qed.

Lemma reads_only_liftO {A} (o : outcome A) : reads_only (liftO o).
Proof. done. Qed.

Lemma reads_only_throw {A} (e : exn) : reads_only (@throw A e).
Proof. done. Qed.

Lemma reads_only_existsSync p : reads_only (existsSync p).
Proof. done. Qed.

Lemma reads_only_readFileSync p : reads_only (readFileSync p).
Proof. intros s. unfold readFileSync. by repeat case_match. Qed.

Lemma reads_only_readdirSync p : reads_only (readdirSync p).
Proof. intros s. unfold readdirSync. by repeat case_match. Qed.

Lemma reads_only_some_exists dir names : reads_only (some_exists dir names).
Proof.
  induction names as [|f names IH]; simpl; [done|].
  apply reads_only_bind; [done|]. by intros [].
Qed.

End ComputationFacts.

(** ** The resolver returns *)

Ltac returns_step :=
  first
    [ assumption
    | apply never_throws_ret
    | apply never_throws_try_catch
    | apply never_throws_cmdExists
    | apply never_throws_existsSync
    | apply never_throws_some_exists
    | apply never_throws_Date_now
    | match goal with
      | |- never_throws (if ?b then _ else _) => destruct b
      | |- never_throws (match ?x with _ => _ end) => destruct x
      end
    | apply never_throws_bind; [|intros ?] ].

Ltac returns := repeat returns_step.

Section ResolverReturns.
Context {rt : Runtime}.

Lemma getOutdatedNpm_returns path pm : never_throws (getOutdatedNpm path pm).
Proof. unfold getOutdatedNpm. returns. Qed.

Lemma getOutdatedPip_returns path : never_throws (getOutdatedPip path).
Proof. unfold getOutdatedPip. returns. Qed.

Lemma getOutdatedCargo_returns path : never_throws (getOutdatedCargo path).
Proof. unfold getOutdatedCargo. returns. Qed.

Lemma getOutdatedGo_returns path : never_throws (getOutdatedGo path).
Proof. unfold getOutdatedGo. returns. Qed.

Lemma getOutdatedComposer_returns path : never_throws (getOutdatedComposer path).
Proof. unfold getOutdatedComposer. returns. Qed.

Lemma getOutdatedGem_returns path : never_throws (getOutdatedGem path).
Proof. unfold getOutdatedGem. returns. Qed.

Lemma getOutdatedPub_returns path : never_throws (getOutdatedPub path).
Proof. unfold getOutdatedPub. returns. Qed.

Lemma getOutdatedSwift_returns path : never_throws (getOutdatedSwift path).
Proof. unfold getOutdatedSwift. returns. Qed.

Lemma getOutdatedGradle_returns path : never_throws (getOutdatedGradle path).
Proof. unfold getOutdatedGradle. returns. Qed.

Lemma getOutdated_returns path info : never_throws (getOutdated path info).
Proof.
  unfold getOutdated. destruct (marker_of (language info)) as [marker|];
    [|apply never_throws_ret].
  destruct (parseOutdated marker);
    eauto using getOutdatedNpm_returns, getOutdatedPip_returns,
      getOutdatedCargo_returns, getOutdatedGo_returns,
      getOutdatedComposer_returns, getOutdatedGem_returns,
      getOutdatedPub_returns, getOutdatedSwift_returns,
      getOutdatedGradle_returns.
Qed.

Lemma getSecurityIssues_returns path info : never_throws (getSecurityIssues path info).
Proof. unfold getSecurityIssues. returns. Qed.

End ResolverReturns.

(** ** Health score *)



Lemma count_major_typed (entries : list (string * value)) :
  Forall (fun e => string_versions e.2) entries ->
  exists n, count_major entries = Ok n.
Proof.
  induction 1 as [|[k pkg] rest (c & l & Hc & Hl) _ [n IH]]; simpl; [by eexists|].
  unfold entry_is_major. simpl in Hc, Hl. rewrite Hc, Hl. simpl. rewrite IH. simpl.
  by eexists.
Qed.

Lemma Object_keys_entries (v : value) (entries : list (string * value)) :
  JS.Object_entries v = Ok entries -> JS.Object_keys v = Ok (map fst entries).
Proof. unfold JS.Object_keys. by intros ->. Qed.

Lemma Math_min_Int (a b : Z) :
  JS.Math_min (JS.Int a) (JS.Int b) = JS.Int (Z.min a b).
Proof.
  unfold JS.Math_min, JS.lt. destruct (Z.ltb_spec b a); f_equal; lia.
Qed.

Lemma Math_max_Int (a b : Z) :
  JS.Math_max (JS.Int a) (JS.Int b) = JS.Int (Z.max a b).
Proof.
  unfold JS.Math_max, JS.lt. destruct (Z.ltb_spec a b); f_equal; lia.
Qed.

Lemma health_score_spec (o m : Z) (lock : bool) (sec : Z) :
  health_score o m lock (JS.ONum sec) = JS.Int (spec_score o m lock sec).
Proof.
  unfold health_score, spec_score. cbn [JS.ToNumber JS.mul JS.sub].
  rewrite !Math_min_Int. destruct lock; cbn [negb JS.sub];
    rewrite Math_min_Int, Math_max_Int; f_equal; lia.
Qed.




Section HealthFacts.
Context {rt : Runtime}.

Lemma some_exists_spec (dir : string) (names : list string) (s : State) :
  exists b, some_exists dir names s = (s, Ok b)
            /\ (b = true <-> some_present s dir names).
Proof.
  unfold some_present.
  induction names as [|f names (b & Hb & IH)]; simpl.
  - exists false. split; [done|]. split; [done|]. intros (f & Hf & _). by inv Hf.
  - unfold bind, existsSync. case_bool_decide as Hf; simpl.
    + exists true. split; [done|]. split; [|done]. intros _. exists f. split; [left|done].
    + exists b. split; [done|]. rewrite IH. split.
      * intros (g & Hg & Hp). exists g. split; [by right|done].
      * intros (g & Hg & Hp). inv Hg; [done|]. by exists g.
Qed.




End HealthFacts.

(** ** Background scan *)

Lemma scan_score_spec (o m : Z) :
  scan_score o m = Z.max 0 (Z.min 100 (100 - Z.min (3 * o) 40 - 10 * m)).
Proof. unfold scan_score. lia. Qed.

Section ScanFacts.
Context {rt : Runtime}.

Lemma scan_project_spec (info : ProjectInfo) (s : State) :
  exists s' r, scan_project info s = (s', Ok r)
               /\ forall e, r = Some e -> scan_invariant e.
Proof.
  unfold scan_project, try_catch, bind, liftO, ret, Date_now.
  repeat case_match; simplify_eq; eexists _, _; (split; [done|]);
    intros e' [= <-]; try done.
  split; [done|]. apply scan_score_spec.
Qed.

Lemma scan_projects_spec (projects : list ProjectInfo) (acc : list CacheEntry)
    (s : State) :
  Forall scan_invariant acc ->
  exists s' entries, scan_projects projects acc s = (s', Ok entries)
                     /\ Forall scan_invariant entries.
Proof.
  revert acc s. induction projects as [|info rest IH]; intros acc s Hacc; simpl.
  - by eexists _, _.
  - unfold bind. destruct (scan_project_spec info s) as (s1 & r & -> & Hr).
    apply IH. destruct r as [e|]; [|done].
    apply Forall_app. split; [done|]. constructor; [by apply Hr|done].
Qed.

End ScanFacts.

(** C10. Every entry the scan loop produces counts 0 security issues and
    scores 100 minus min(3 x outdated, 40) minus 10 x major, clamped to
    0..100, with no deduction for a missing lockfile or for security issues;
    the entries of a scan that returns are the ones written to the cache
    file; an entry refreshed by the auto-update pass keeps its security count
    and is scored the same way. So the cached score can exceed the score of
    [computeHealthReport]: for a Node project without lockfile it is 100
    where the report says 85. *)
Theorem scan_entries_score :
  (forall (rt : Runtime) projects s,
     exists s' entries, scan_projects projects [] s = (s', Ok entries)
                        /\ Forall scan_invariant entries)
  /\ (forall (rt : Runtime) projects s s' entries,
        scan projects s = (s', Ok entries) ->
        Forall scan_invariant entries
        /\ (projects <> [] ->
            exists now mtime,
              fs (world s') !! getCachePath
              = Some (File (JSON_stringify (cache_value SERVER_VERSION now entries)
                            +:+ LF) mtime)))
  /\ (forall e outdatedCount majorCount now,
        ce_securityIssues (refreshed_entry e outdatedCount majorCount now)
        = ce_securityIssues e
        /\ ce_score (refreshed_entry e outdatedCount majorCount now)
           = Z.max 0 (Z.min 100 (100 - Z.min (3 * outdatedCount) 40 - 10 * majorCount)))
  /\ (exists s1 e s2 r,
        @scan_project bare_runtime bare_project bare_state = (s1, Ok (Some e))
        /\ @computeHealthReport bare_runtime bare_project bare_state = (s2, Ok r)
        /\ ce_score e = 100 /\ score r = JS.Int 85).
Proof.
  split; [|split; [|split]].
  - intros rt projects s. by apply scan_projects_spec.
  - intros rt projects s s' entries. unfold scan.
    destruct projects as [|info rest].
    { intros [= <- <-]. split; [constructor|done]. }
    unfold bind.
    destruct (scan_projects_spec (info :: rest) [] s) as (s1 & es & -> & Hes);
      [constructor|].
    unfold writeCache, bind, Date_now, writeFileSync.
    repeat case_match; simplify_eq; intros [= <- <-]; (split; [done|]); intros _;
      simpl; rewrite lookup_insert_eq; by eexists _, _.
  - intros e o m now. split; [done|]. apply scan_score_spec.
  - eexists _, _, _, _. by vm_compute.
Qed.

(** ** Cache *)

Lemma entry_of_entry_value (e : CacheEntry) : entry_of_value (entry_value e) = Some e.
Proof. destruct e as [? ? [] ? ? ? ? ? ?]; reflexivity. Qed.

Lemma cached_entries_cache_value (version updatedAt : string)
    (entries : list CacheEntry) :
  cached_entries (cache_value version updatedAt entries) = Some entries.
Proof.
  unfold cached_entries, cache_value. cbn [JS.get JS.lookup_prop String.eqb].
  simpl. induction entries as [|e es IH]; [done|].
  cbn [map mapM]. rewrite entry_of_entry_value. simpl. by rewrite IH.
Qed.

Section CacheFacts.
Context {rt : Runtime}.

(** C9. Writing entries with [writeCache] and reading the file back with
    [readCache], no later than the maximal age after the write, gives the
    cache file that was written: its entries are the entries written, with
    the same fields, in the same order. The write needs the cache path not
    to be a directory, and the runtime to parse what it printed. *)
Theorem cache_round_trip (entries : list CacheEntry) (s : State) :
  let cache :=
    cache_value SERVER_VERSION (toISOString (clock (world s))) entries in
  (forall es t, fs (world s) !! getCachePath <> Some (Dir es t)) ->
  JSON_parse (JSON_stringify cache +:+ LF) = Some cache ->
  exists s1,
    writeCache entries s = (s1, Ok tt)
    /\ forall s2,
         fs (world s2) = fs (world s1) ->
         clock (world s2) - clock (world s) <= CACHE_MAX_AGE_MS ->
         readCache s2 = (s2, Ok cache)
         /\ cached_entries cache = Some entries.
Proof.
  intros cache Hdir Hcodec.
  assert (Hwrite : exists s1,
    writeCache entries s = (s1, Ok tt)
    /\ fs (world s1) !! getCachePath
       = Some (File (JSON_stringify cache +:+ LF) (clock (world s)))).
  { unfold writeCache, bind, Date_now, writeFileSync.
    destruct (fs (world s) !! getCachePath) as [[text t|es t]|] eqn:Hp;
      [|by destruct (Hdir es t)|];
      (eexists; split; [reflexivity|]); simpl; by rewrite lookup_insert_eq. }
  destruct Hwrite as (s1 & Hw & Hfile). exists s1. split; [done|].
  intros s2 Hfs Hage. split; [|apply cached_entries_cache_value].
  rewrite <- Hfs in Hfile.
  unfold readCache, try_catch, bind, existsSync, statSync_mtimeMs, Date_now,
    readFileSync, liftO, parse, ret.
  rewrite Hfile. rewrite bool_decide_eq_true_2 by eauto.
  cbn [negb]. cbv beta iota. rewrite Hfile.
  destruct (Z.ltb_spec CACHE_MAX_AGE_MS (clock (world s2) - clock (world s)));
    [lia|].
  cbv beta iota. rewrite Hfile. by rewrite Hcodec.
Qed.

End CacheFacts.

(** ** The JSON codec reads what it prints *)

Lemma digit_char (d : N) :
  (d < 10)%N ->
  Str.is_digit (pretty_N_char d) = true
  /\ Z.of_nat (nat_of_ascii (pretty_N_char d) - 48) = Z.of_N d.
Proof.
  intros Hd.
  assert (d = 0 \/ d = 1 \/ d = 2 \/ d = 3 \/ d = 4 \/ d = 5 \/ d = 6 \/ d = 7
          \/ d = 8 \/ d = 9)%N as H by lia.
  repeat destruct H as [->|H]; try subst d; by vm_compute.
Qed.

Lemma pretty_N_go_app (x : N) (s rest : string) :
  pretty_N_go x s +:+ rest = pretty_N_go x (s +:+ rest).
Proof.
  revert s. induction (N.lt_wf_0 x) as [x _ IH]; intros s.
  assert (x = 0 \/ 0 < x)%N as [->|Hx] by lia; [by rewrite !pretty_N_go_0|].
  rewrite (pretty_N_go_step x s), (pretty_N_go_step x (s +:+ rest)) by done.
  by rewrite IH by (by apply N.div_lt).
Qed.

(** Reading the digits of [x] in front of [s] shifts the number read so
    far and adds [x]. *)
Lemma read_digits_pretty_go (x : N) (s : string) :
  exists k, 0 <= k /\ forall acc,
    Json.read_digits acc (pretty_N_go x s)
    = Json.read_digits (acc * 10 ^ k + Z.of_N x) s.
Proof.
  revert s. induction (N.lt_wf_0 x) as [x _ IH]; intros s.
  assert (x = 0 \/ 0 < x)%N as [->|Hx] by lia.
  - exists 0. split; [done|]. intros acc. rewrite pretty_N_go_0. f_equal. lia.
  - destruct (IH (x `div` 10)%N ltac:(by apply N.div_lt)
                (String (pretty_N_char (x `mod` 10)) s)) as (k & Hk & Hread).
    exists (k + 1). split; [lia|]. intros acc.
    rewrite pretty_N_go_step by done. rewrite Hread. cbn [Json.read_digits].
    destruct (digit_char (x `mod` 10)%N) as [-> ->]; [by apply N.mod_lt|].
    f_equal. rewrite Z.pow_add_r by lia.
    rewrite (N.div_mod x 10) at 3 by done.
    rewrite N2Z.inj_add, N2Z.inj_mul. lia.
Qed.

(** The decimal text of a positive number starts with a digit that is not
    zero. *)
Lemma pretty_N_go_head (x : N) (s : string) :
  (0 < x)%N ->
  exists c tail, pretty_N_go x s = String c tail
                 /\ Str.is_digit c = true /\ c <> "0"%char.
Proof.
  revert s. induction (N.lt_wf_0 x) as [x _ IH]; intros s Hx.
  rewrite pretty_N_go_step by done.
  destruct (N.eq_0_gt_0_cases (x `div` 10)) as [Hd|Hd].
  - rewrite Hd, pretty_N_go_0.
    assert (Hm : (x `mod` 10 = x)%N).
    { pose proof (N.div_mod x 10 ltac:(done)) as Hdm. rewrite Hd in Hdm. lia. }
    rewrite Hm.
    assert (x < 10)%N by (rewrite <- Hm; by apply N.mod_lt).
    eexists _, _. split; [done|]. split; [by apply digit_char|].
    assert (x = 1 \/ x = 2 \/ x = 3 \/ x = 4 \/ x = 5 \/ x = 6 \/ x = 7
            \/ x = 8 \/ x = 9)%N as H' by lia.
    repeat destruct H' as [->|H']; try subst x; by vm_compute.
  - apply IH; [by apply N.div_lt|done].
Qed.

Lemma read_digits_stop (acc : Z) (rest : string) :
  Json.starts_with_digit rest = false -> Json.read_digits acc rest = (acc, rest).
Proof. destruct rest as [|c rest]; simpl; [done|]. by intros ->. Qed.

Lemma read_unsigned_positive (p : positive) (rest : string) :
  Json.ends_number rest = true ->
  exists c tail,
    pretty (Z.pos p) +:+ rest = String c tail
    /\ Str.is_digit c = true
    /\ Json.read_unsigned (String c tail) = Some (Z.pos p, rest).
Proof.
  intros Hend. apply andb_true_iff in Hend as [Hd He].
  apply negb_true_iff in Hd, He.
  unfold pretty, pretty_Z, pretty, pretty_positive, pretty, pretty_N.
  rewrite decide_False by done. rewrite pretty_N_go_app. simpl (EmptyString +:+ rest).
  destruct (pretty_N_go_head (N.pos p) rest) as (c & tail & Heq & Hc & Hnz); [lia|].
  exists c, tail. split; [done|]. split; [done|].
  unfold Json.read_unsigned.
  cbn [Json.starts_with_digit]. rewrite Hc. cbn [negb].
  assert (Hzero : String.prefix "0" (String c tail) = false).
  { rewrite prefix_char. apply andb_false_iff. left. apply Ascii.eqb_neq. congruence. }
  rewrite Hzero. cbn [andb].
  rewrite <- Heq.
  destruct (read_digits_pretty_go (N.pos p) rest) as (k & _ & Hread).
  rewrite Hread, read_digits_stop by done. rewrite He. simpl. done.
Qed.

Lemma digit_not_minus (c : ascii) : Str.is_digit c = true -> Ascii.eqb c "-"%char = false.
Proof. destruct c as [[] [] [] [] [] [] [] []]; by vm_compute. Qed.

Lemma read_number_pretty (z : Z) (rest : string) :
  Json.ends_number rest = true ->
  Json.read_number (pretty z +:+ rest) = Some (z, rest).
Proof.
  intros Hend. destruct z as [|p|p].
  - apply andb_true_iff in Hend as [Hd He]. apply negb_true_iff in Hd, He.
    change (pretty 0 +:+ rest) with (String "0"%char rest).
    unfold Json.read_number, Json.read_unsigned. simpl.
    rewrite Hd. simpl. rewrite read_digits_stop by done.
    rewrite andb_false_r. by rewrite He.
  - destruct (read_unsigned_positive p rest Hend) as (c & tail & -> & Hc & Hr).
    unfold Json.read_number. by rewrite (digit_not_minus c Hc).
  - destruct (read_unsigned_positive p rest Hend) as (c & tail & Heq & Hc & Hr).
    change (pretty (Z.neg p)) with ("-" +:+ pretty (Z.pos p)).
    rewrite append_assoc. simpl ("-" +:+ _). rewrite Heq.
    unfold Json.read_number. simpl (Ascii.eqb _ _). cbv iota. by rewrite Hr.
Qed.

(** A character, as it is printed in a string literal, is read back. *)
Lemma read_chars_quote_char (c : ascii) (rest : string) :
  Json.read_chars (Json.quote_char c +:+ rest)
  = '(body, after) ← Json.read_chars rest; Some (String c body, after).
Proof. destruct c as [[] [] [] [] [] [] [] []]; reflexivity. Qed.

Lemma read_chars_quote_chars (s rest : string) :
  Json.read_chars (Json.quote_chars s +:+ DQ +:+ rest) = Some (s, rest).
Proof.
  induction s as [|c s IH]; [done|].
  cbn [Json.quote_chars]. rewrite append_assoc, read_chars_quote_char, IH. done.
Qed.

Lemma read_chars_quote (s rest : string) :
  exists tail, Json.quote s +:+ rest = String (ascii_of_nat 34) tail
               /\ Json.read_chars tail = Some (s, rest).
Proof.
  unfold Json.quote. exists (Json.quote_chars s +:+ DQ +:+ rest). split.
  - by rewrite !append_assoc.
  - apply read_chars_quote_chars.
Qed.

(** Induction on values, through the lists of arrays and objects. *)
Lemma value_ind_nested (P : value -> Prop) :
  P VUndef -> P VNull -> (forall b, P (VBool b)) -> (forall n, P (VNum n)) ->
  (forall s, P (VStr s)) ->
  (forall items, Forall P items -> P (VArr items)) ->
  (forall props, Forall (fun kv => P kv.2) props -> P (VObj props)) ->
  forall v, P v.
Proof.
  intros Hu Hn Hb Hz Hs Ha Ho. fix IH 1. intros [| |b|n|s|items|props].
  - exact Hu.
  - exact Hn.
  - apply Hb.
  - apply Hz.
  - apply Hs.
  - apply Ha. induction items as [|x xs IHxs]; constructor; [apply IH|exact IHxs].
  - apply Ho. induction props as [|[k x] xs IHxs]; constructor; [apply IH|exact IHxs].
Qed.

Lemma skip_ws_head (c : ascii) (t : string) :
  Json.is_ws c = false -> Json.skip_ws (String c t) = String c t.
Proof. unfold Json.skip_ws. simpl. by intros ->. Qed.

Lemma skip_ws_spaces (k : nat) (t : string) :
  Json.skip_ws (Json.spaces k +:+ t) = Json.skip_ws t.
Proof. induction k as [|k IH]; [done|]. exact IH. Qed.

Lemma skip_ws_inner (k : nat) (t : string) :
  Json.skip_ws (LF +:+ Json.spaces k +:+ t) = Json.skip_ws t.
Proof. apply skip_ws_spaces. Qed.

Lemma skip_ws_idem (s : string) : Json.skip_ws (Json.skip_ws s) = Json.skip_ws s.
Proof.
  unfold Json.skip_ws. induction s as [|c s IH]; simpl; [done|].
  destruct (Json.is_ws c) eqn:E; [done|]. simpl. by rewrite E.
Qed.

Lemma read_value_skip (fuel : nat) (s : string) :
  Json.read_value fuel s = Json.read_value fuel (Json.skip_ws s).
Proof. destruct fuel; [done|]. simpl. by rewrite skip_ws_idem. Qed.

Lemma value_start_facts (c : ascii) :
  Json.value_start c = true ->
  Json.is_ws c = false /\ c <> "]"%char /\ c <> "}"%char /\ c <> ","%char.
Proof. destruct c as [[] [] [] [] [] [] [] []]; vm_compute; intros; try done. Qed.

Lemma digit_value_start (c : ascii) : Str.is_digit c = true -> Json.value_start c = true.
Proof. unfold Json.value_start. by intros ->. Qed.

(** A printed value starts with a character that only a value starts
    with. *)
Lemma print_head (indent : nat) (v : value) (rest : string) :
  exists c tail, Json.print indent v +:+ rest = String c tail
                 /\ Json.value_start c = true.
Proof.
  destruct v as [| |[]|z|s|[|x xs]|props]; try (by eexists _, _).
  - destruct z as [|p|p]; [by eexists _, _| |by eexists _, _].
    assert (Hz : exists c tail, pretty (Z.pos p) = String c tail /\ Str.is_digit c = true).
    { unfold pretty, pretty_Z, pretty, pretty_positive, pretty, pretty_N.
      rewrite decide_False by done.
      destruct (pretty_N_go_head (N.pos p) EmptyString) as (c & tail & -> & Hc & _);
        [lia|]. by eexists _, _. }
    destruct Hz as (c & tail & Hp & Hc). cbn [Json.print]. rewrite Hp.
    eexists _, _. split; [reflexivity|]. by apply digit_value_start.
  - cbn [Json.print].
    destruct (omap _ props); by eexists _, _.
Qed.

Lemma skip_ws_print (indent : nat) (v : value) (rest : string) :
  Json.skip_ws (Json.print indent v +:+ rest) = Json.print indent v +:+ rest.
Proof.
  destruct (print_head indent v rest) as (c & tail & -> & Hc).
  apply skip_ws_head. by apply value_start_facts.
Qed.

Lemma read_value_number (fuel : nat) (c : ascii) (tail : string) :
  Str.is_digit c = true \/ c = "-"%char ->
  Json.read_value (S fuel) (String c tail)
  = '(z, after) ← Json.read_number (String c tail); Some (VNum z, after).
Proof.
  destruct c as [[] [] [] [] [] [] [] []]; intros [H|H]; try discriminate H;
    reflexivity.
Qed.

Lemma pretty_Z_head (z : Z) (rest : string) :
  exists c tail, pretty z +:+ rest = String c tail
                 /\ (Str.is_digit c = true \/ c = "-"%char).
Proof.
  destruct z as [|p|p].
  - eexists _, _. split; [reflexivity|]. by left.
  - unfold pretty, pretty_Z, pretty, pretty_positive, pretty, pretty_N.
    rewrite decide_False by done.
    destruct (pretty_N_go_head (N.pos p) EmptyString) as (c & tail & -> & Hc & _);
      [lia|]. eexists _, _. split; [reflexivity|]. by left.
  - eexists _, _. split; [reflexivity|]. by right.
Qed.

Lemma reads_back_scalar (v : value) :
  match v with VArr _ | VObj _ => False | _ => True end -> reads_back v.
Proof.
  intros Hv Hdef indent rest fuel Hfuel Hend.
  destruct fuel as [|fuel]; [destruct v; simpl in Hfuel; lia|].
  destruct v as [| |[]|z|s|items|props]; try done.
  - cbn [Json.print]. simpl. by rewrite prefix_empty.
  - cbn [Json.print]. simpl. by rewrite prefix_empty.
  - cbn [Json.print]. simpl. by rewrite prefix_empty.
  - cbn [Json.print].
    destruct (pretty_Z_head z rest) as (c & tail & Heq & Hc).
    rewrite Heq, read_value_number by done. rewrite <- Heq.
    by rewrite read_number_pretty.
  - cbn [Json.print]. destruct (read_chars_quote s rest) as (tail & -> & Hr).
    change (Json.read_value (S fuel) (String (ascii_of_nat 34) tail))
      with ('(str, after) ← Json.read_chars tail; Some (VStr str, after)).
    by rewrite Hr.
Qed.

Lemma read_value_S (fuel : nat) (s : string) :
  Json.read_value (S fuel) s
  = match Json.skip_ws s with
    | EmptyString => None
    | String c rest =>
        let n := nat_of_ascii c in
        if (n =? 123)%nat then
          let rest := Json.skip_ws rest in
          if String.prefix "}" rest then Some (VObj [], Str.drop 1 rest)
          else '(props, after) ← Json.read_members fuel rest; Some (VObj props, after)
        else if (n =? 91)%nat then
          let rest := Json.skip_ws rest in
          if String.prefix "]" rest then Some (VArr [], Str.drop 1 rest)
          else '(items, after) ← Json.read_items fuel rest; Some (VArr items, after)
        else if (n =? 34)%nat then
          '(str, after) ← Json.read_chars rest; Some (VStr str, after)
        else if String.prefix "true" (String c rest)
             then Some (VBool true, Str.drop 4 (String c rest))
        else if String.prefix "false" (String c rest)
             then Some (VBool false, Str.drop 5 (String c rest))
        else if String.prefix "null" (String c rest)
             then Some (VNull, Str.drop 4 (String c rest))
        else '(z, after) ← Json.read_number (String c rest); Some (VNum z, after)
    end.
Proof. simpl. destruct (Json.skip_ws s); reflexivity. Qed.

Lemma read_items_S (fuel : nat) (s : string) :
  Json.read_items (S fuel) s
  = '(v, after) ← Json.read_value fuel s;
    let after := Json.skip_ws after in
    if String.prefix "," after
    then '(vs, after') ← Json.read_items fuel (Str.drop 1 after); Some (v :: vs, after')
    else if String.prefix "]" after then Some ([v], Str.drop 1 after)
    else None.
Proof. reflexivity. Qed.

Lemma read_members_S (fuel : nat) (s : string) :
  Json.read_members (S fuel) s
  = match Json.skip_ws s with
    | String q rest =>
        if (nat_of_ascii q =? 34)%nat then
          '(key, after) ← Json.read_chars rest;
          let after := Json.skip_ws after in
          if String.prefix ":" after then
            '(v, after) ← Json.read_value fuel (Str.drop 1 after);
            let after := Json.skip_ws after in
            if String.prefix "," after
            then '(ms, after') ← Json.read_members fuel (Str.drop 1 after);
                 Some ((key, v) :: ms, after')
            else if String.prefix "}" after then Some ([(key, v)], Str.drop 1 after)
            else None
          else None
        else None
    | EmptyString => None
    end.
Proof. reflexivity. Qed.

Lemma read_items_skip (fuel : nat) (s : string) :
  Json.read_items fuel (Json.skip_ws s) = Json.read_items fuel s.
Proof.
  destruct fuel; [done|]. by rewrite !read_items_S, <- read_value_skip.
Qed.

Lemma read_members_skip (fuel : nat) (s : string) :
  Json.read_members fuel (Json.skip_ws s) = Json.read_members fuel s.
Proof.
  destruct fuel; [done|]. by rewrite !read_members_S, skip_ws_idem.
Qed.

Lemma map_print_defined (k : nat) (items : list value) :
  forallb Json.defined items = true ->
  map (fun x => if Json.is_undef x then "null" else Json.print k x) items
  = map (Json.print k) items.
Proof.
  induction items as [|x xs IH]; [done|]. simpl.
  intros [Hx Hxs]%andb_true_iff. rewrite IH by done. by destruct x.
Qed.

(** The items of a printed array are read back, up to the bracket that
    closes it. *)
Lemma read_items_printed (k indent : nat) (items : list value)
    (rest : string) (fuel : nat) :
  items <> [] ->
  Forall reads_back items -> forallb Json.defined items = true ->
  (list_sum (map (fun x => S (Json.size x)) items) <= fuel)%nat ->
  Json.read_items fuel
    (Str.join ("," +:+ LF +:+ Json.spaces k) (map (Json.print k) items)
     +:+ LF +:+ Json.spaces indent +:+ "]" +:+ rest)
  = Some (items, rest).
Proof.
  revert fuel. induction items as [|x xs IH]; [done|].
  intros fuel _ Hall Hdef Hfuel.
  apply Forall_cons in Hall as [Hx Hxs].
  cbn [forallb] in Hdef. apply andb_true_iff in Hdef as [Hdx Hdxs].
  rewrite map_cons in Hfuel. change (list_sum (?a :: ?l)) with (a + list_sum l)%nat in Hfuel.
  destruct fuel as [|fuel]; [lia|]. rewrite read_items_S.
  destruct xs as [|y ys].
  - cbn [map Str.join].
    rewrite (Hx Hdx k _ fuel) by (done || lia). cbn [mbind option_bind].
    cbv zeta. rewrite skip_ws_inner.
    change ("]" +:+ rest) with (String "]"%char rest).
    rewrite skip_ws_head by done. simpl. by rewrite prefix_empty.
  - change (Str.join ?sep (map ?f (x :: y :: ys)))
      with (f x +:+ sep +:+ Str.join sep (map f (y :: ys))).
    rewrite !append_assoc.
    rewrite (Hx Hdx k _ fuel) by (done || lia). cbn [mbind option_bind].
    cbv zeta.
    change ("," +:+ ?t) with (String ","%char t).
    rewrite skip_ws_head by done.
    change (String.prefix "," (String ","%char ?t)) with (String.prefix EmptyString t).
    rewrite prefix_empty.
    change (Str.drop 1 (String ","%char ?t)) with t.
    rewrite <- read_items_skip, skip_ws_inner, read_items_skip.
    rewrite IH; [done|done|done|done|]. lia.
Qed.

Lemma omap_print_defined (k : nat) (props : list (string * value)) :
  forallb (fun kv => Json.defined (snd kv)) props = true ->
  omap (fun kv => if Json.is_undef (snd kv) then None
                  else Some (Json.quote (fst kv) +:+ ": " +:+ Json.print k (snd kv)))
       props
  = map (fun kv => Json.quote (fst kv) +:+ ": " +:+ Json.print k (snd kv)) props.
Proof.
  induction props as [|[key x] xs IH]; [done|]. cbn [forallb omap list_omap map snd fst].
  intros [Hx Hxs]%andb_true_iff. rewrite IH by done. by destruct x.
Qed.

(** The properties of a printed object are read back, up to the brace
    that closes it. *)
Lemma read_members_printed (k indent : nat) (props : list (string * value))
    (rest : string) (fuel : nat) :
  props <> [] ->
  Forall (fun kv => reads_back kv.2) props ->
  forallb (fun kv => Json.defined (snd kv)) props = true ->
  (list_sum (map (fun kv => S (Json.size (snd kv))) props) <= fuel)%nat ->
  Json.read_members fuel
    (Str.join ("," +:+ LF +:+ Json.spaces k)
       (map (fun kv => Json.quote (fst kv) +:+ ": " +:+ Json.print k (snd kv)) props)
     +:+ LF +:+ Json.spaces indent +:+ "}" +:+ rest)
  = Some (props, rest).
Proof.
  revert fuel. induction props as [|[key x] xs IH]; [done|].
  intros fuel _ Hall Hdef Hfuel.
  apply Forall_cons in Hall as [Hx Hxs]. cbn [snd] in Hx.
  cbn [forallb snd] in Hdef. apply andb_true_iff in Hdef as [Hdx Hdxs].
  rewrite map_cons in Hfuel.
  change (list_sum (?a :: ?l)) with (a + list_sum l)%nat in Hfuel. cbn [snd] in Hfuel.
  destruct fuel as [|fuel]; [lia|]. rewrite read_members_S.
  destruct xs as [|y ys].
  - cbn [map Str.join fst snd]. rewrite !append_assoc.
    destruct (read_chars_quote key (": " +:+ Json.print k x +:+ LF +:+
      Json.spaces indent +:+ "}" +:+ rest)) as (tail & -> & Hr).
    rewrite skip_ws_head by done.
    change (nat_of_ascii (ascii_of_nat 34) =? 34)%nat with true. cbv iota.
    rewrite Hr. cbn [mbind option_bind]. cbv zeta.
    change (": " +:+ ?t) with (String ":"%char (String " "%char t)).
    rewrite skip_ws_head by done.
    change (String.prefix ":" (String ":"%char ?t)) with (String.prefix EmptyString t).
    rewrite prefix_empty.
    change (Str.drop 1 (String ":"%char ?t)) with t.
    rewrite read_value_skip.
    change (Json.skip_ws (String " "%char ?t)) with (Json.skip_ws t).
    rewrite <- read_value_skip.
    rewrite (Hx Hdx k _ fuel) by (done || lia). cbn [mbind option_bind].
    cbv zeta. rewrite skip_ws_inner.
    change ("}" +:+ rest) with (String "}"%char rest).
    rewrite skip_ws_head by done. simpl. by rewrite prefix_empty.
  - change (Str.join ?sep (map ?f ((key, x) :: y :: ys)))
      with (f (key, x) +:+ sep +:+ Str.join sep (map f (y :: ys))).
    cbn [fst snd]. rewrite !append_assoc.
    match goal with
    | |- context [Json.quote key +:+ ?t] =>
        destruct (read_chars_quote key t) as (tail & -> & Hr)
    end.
    rewrite skip_ws_head by done.
    change (nat_of_ascii (ascii_of_nat 34) =? 34)%nat with true. cbv iota.
    rewrite Hr. cbn [mbind option_bind]. cbv zeta.
    change (": " +:+ ?t) with (String ":"%char (String " "%char t)).
    rewrite skip_ws_head by done.
    change (String.prefix ":" (String ":"%char ?t)) with (String.prefix EmptyString t).
    rewrite prefix_empty.
    change (Str.drop 1 (String ":"%char ?t)) with t.
    rewrite read_value_skip.
    change (Json.skip_ws (String " "%char ?t)) with (Json.skip_ws t).
    rewrite <- read_value_skip.
    rewrite (Hx Hdx k _ fuel) by (done || lia). cbn [mbind option_bind].
    cbv zeta.
    change ("," +:+ ?t) with (String ","%char t).
    rewrite skip_ws_head by done.
    change (String.prefix "," (String ","%char ?t)) with (String.prefix EmptyString t).
    rewrite prefix_empty.
    change (Str.drop 1 (String ","%char ?t)) with t.
    rewrite <- read_members_skip, skip_ws_inner, read_members_skip.
    rewrite IH; [done|done|done|done|]. lia.
Qed.

Lemma join_head {A} (sep : string) (f : A -> string) (x : A) (xs : list A)
    (t : string) :
  (forall t', exists c tail, f x +:+ t' = String c tail /\ Json.value_start c = true) ->
  exists c tail, Str.join sep (map f (x :: xs)) +:+ t = String c tail
                 /\ Json.value_start c = true.
Proof.
  intros Hf. destruct xs as [|y ys]; [apply Hf|].
  change (Str.join sep (map f (x :: y :: ys)))
    with (f x +:+ sep +:+ Str.join sep (map f (y :: ys))).
  rewrite append_assoc. apply Hf.
Qed.

Lemma quote_head (key t : string) :
  exists c tail, Json.quote key +:+ t = String c tail /\ Json.value_start c = true.
Proof. by eexists _, _. Qed.

Lemma reads_back_all (v : value) : reads_back v.
Proof.
  induction v as [| |b|n|s|items IH|props IH] using value_ind_nested;
    try (by apply reads_back_scalar).
  - intros Hdef indent rest fuel Hfuel Hend.
    change (forallb Json.defined items = true) in Hdef.
    change (S (list_sum (map (fun x => S (Json.size x)) items)) <= fuel)%nat in Hfuel.
    destruct fuel as [|fuel]; [lia|].
    destruct items as [|x xs].
    + simpl. by rewrite prefix_empty.
    + cbn [Json.print]. rewrite map_print_defined by done. rewrite !append_assoc.
      rewrite read_value_S.
      change ("[" +:+ ?t) with (String "["%char t).
      rewrite skip_ws_head by done. cbv zeta.
      change (nat_of_ascii "[" =? 123)%nat with false.
      change (nat_of_ascii "[" =? 91)%nat with true. cbv iota.
      rewrite skip_ws_inner.
      match goal with
      | |- context [Json.skip_ws (Str.join ?sep (map ?f (x :: xs)) +:+ ?t)] =>
          destruct (join_head sep f x xs t) as (c & tail & Heq & Hc);
            [intros t'; apply print_head|]
      end.
      rewrite Heq.
      destruct (value_start_facts c Hc) as (Hws & Hb & _).
      rewrite skip_ws_head by done. rewrite prefix_char.
      rewrite (proj2 (Ascii.eqb_neq "]" c)) by congruence. cbn [andb].
      rewrite <- Heq, read_items_printed; [done|done|done|done|lia].
  - intros Hdef indent rest fuel Hfuel Hend.
    change (forallb (fun kv => Json.defined (snd kv)) props = true) in Hdef.
    change (S (list_sum (map (fun kv => S (Json.size (snd kv))) props)) <= fuel)%nat
      in Hfuel.
    destruct fuel as [|fuel]; [lia|].
    cbn [Json.print]. rewrite omap_print_defined by done.
    destruct props as [|[key x] xs].
    + simpl. by rewrite prefix_empty.
    + match goal with
      | |- context [Str.join _ ?l] => remember l as printed eqn:Hp
      end.
      destruct printed as [|p ps]; [discriminate Hp|]. rewrite Hp.
      rewrite !append_assoc.
      rewrite read_value_S.
      change ("{" +:+ ?t) with (String "{"%char t).
      rewrite skip_ws_head by done. cbv zeta.
      change (nat_of_ascii "{" =? 123)%nat with true. cbv iota.
      rewrite skip_ws_inner.
      match goal with
      | |- context [Json.skip_ws (Str.join ?sep (map ?f ((key, x) :: xs)) +:+ ?t)] =>
          destruct (join_head sep f (key, x) xs t) as (c & tail & Heq & Hc);
            [intros t'; cbn [fst snd]; rewrite append_assoc; apply quote_head|]
      end.
      rewrite Heq.
      destruct (value_start_facts c Hc) as (Hws & _ & Hb & _).
      rewrite skip_ws_head by done. rewrite prefix_char.
      rewrite (proj2 (Ascii.eqb_neq "}" c)) by congruence. cbn [andb].
      rewrite <- Heq, read_members_printed; [done|done|done|done|lia].
Qed.

Lemma length_append (a b : string) :
  String.length (a +:+ b) = (String.length a + String.length b)%nat.
Proof. induction a as [|c a IH]; simpl; [done|by rewrite IH]. Qed.

Lemma join_length {A} (sep : string) (f : A -> string) (m : A -> nat) (l : list A) :
  Forall (fun a => (m a <= String.length (f a))%nat) l ->
  (1 <= String.length sep)%nat ->
  (list_sum (map (fun a => S (m a)) l)
   <= String.length (Str.join sep (map f l)) + String.length sep)%nat.
Proof.
  intros Hall Hsep. induction Hall as [|x xs Hx Hxs IH]; [simpl; lia|].
  rewrite map_cons. change (list_sum (?a :: ?t)) with (a + list_sum t)%nat.
  destruct xs as [|y ys]; [simpl; lia|].
  change (Str.join sep (map f (x :: y :: ys)))
    with (f x +:+ sep +:+ Str.join sep (map f (y :: ys))).
  rewrite !length_append. lia.
Qed.

Lemma print_length_pos (indent : nat) (v : value) :
  (1 <= String.length (Json.print indent v))%nat.
Proof.
  destruct (print_head indent v EmptyString) as (c & tail & Heq & _).
  rewrite append_empty_r in Heq. rewrite Heq. simpl. lia.
Qed.

(** The text of a document is at least as long as the document is large. *)
Lemma size_print (v : value) :
  Json.defined v = true ->
  forall indent, (Json.size v <= String.length (Json.print indent v))%nat.
Proof.
  induction v as [| |b|n|s|items IH|props IH] using value_ind_nested;
    intros Hdef indent; try apply print_length_pos.
  - change (forallb Json.defined items = true) in Hdef.
    change (Json.size (VArr items))
      with (S (list_sum (map (fun x => S (Json.size x)) items))).
    destruct items as [|x xs]; [simpl; lia|].
    cbn [Json.print]. rewrite map_print_defined by done.
    rewrite !length_append.
    match goal with
    | |- context [Str.join ?sep (map ?f (x :: xs))] =>
        pose proof (join_length sep f Json.size (x :: xs)) as Hj
    end.
    rewrite !length_append in Hj. simpl (String.length ",") in Hj.
    simpl (String.length "[").
    assert (Hall : Forall (fun a => (Json.size a
                     <= String.length (Json.print (indent + 2) a))%nat) (x :: xs)).
    { rewrite forallb_forall in Hdef. rewrite Forall_forall in *.
      intros a Ha. apply IH; [done|]. by apply Hdef, list_elem_of_In. }
    specialize (Hj Hall ltac:(lia)). change (String.length LF) with 1%nat in *.
    simpl (String.length (String _ EmptyString)). lia.
  - change (forallb (fun kv => Json.defined (snd kv)) props = true) in Hdef.
    change (Json.size (VObj props))
      with (S (list_sum (map (fun kv => S (Json.size (snd kv))) props))).
    cbn [Json.print]. rewrite omap_print_defined by done.
    destruct props as [|[key x] xs]; [simpl; lia|].
    match goal with
    | |- context [Str.join _ ?l] => remember l as printed eqn:Hp
    end.
    destruct printed as [|p ps]; [discriminate Hp|]. rewrite Hp.
    rewrite !length_append.
    match goal with
    | |- context [Str.join ?sep (map ?f ((key, x) :: xs))] =>
        pose proof (join_length sep f (fun kv => Json.size (snd kv)) ((key, x) :: xs))
          as Hj
    end.
    rewrite !length_append in Hj. simpl (String.length ",") in Hj.
    simpl (String.length "{").
    assert (Hall : Forall (fun kv : string * value => (Json.size (snd kv)
                     <= String.length (Json.quote (fst kv) +:+ ": "
                          +:+ Json.print (indent + 2) (snd kv)))%nat)
                     ((key, x) :: xs)).
    { rewrite forallb_forall in Hdef. rewrite Forall_forall in *.
      intros a Ha. rewrite !length_append.
      assert (Hda : Json.defined (snd a) = true) by (by apply Hdef, list_elem_of_In).
      pose proof (IH a Ha Hda (indent + 2)%nat). lia. }
    specialize (Hj Hall ltac:(lia)). change (String.length LF) with 1%nat in *.
    simpl (String.length (String _ EmptyString)). lia.
Qed.

(** [JSON.parse] reads a document back from what [JSON.stringify] printed
    for it, also with a line feed after it. *)
Lemma parse_stringify (v : value) :
  Json.defined v = true -> Json.parse (Json.stringify v +:+ LF) = Some v.
Proof.
  intros Hdef. unfold Json.parse, Json.stringify.
  rewrite (reads_back_all v Hdef 0%nat LF); [done| |done].
  rewrite length_append. pose proof (size_print v Hdef 0%nat). lia.
Qed.

(** With this codec the cache file is read back as it was written, whenever
    no project name is [undefined]. *)
Lemma codec_reads_cache (table : list (string * exec_outcome))
    (version updatedAt : string) (entries : list CacheEntry) :
  Forall (fun e => Json.defined (ce_project e) = true) entries ->
  let cache := cache_value version updatedAt entries in
  @JSON_parse (demo_runtime table)
    (@JSON_stringify (demo_runtime table) cache +:+ LF) = Some cache.
Proof.
  intros Hall cache. apply parse_stringify.
  unfold cache, cache_value. cbn [Json.defined forallb snd andb].
  rewrite andb_true_r. induction Hall as [|e es He Hes IH]; [done|].
  cbn [map forallb]. rewrite IH, andb_true_r.
  unfold entry_value. cbn [Json.defined forallb snd andb]. by rewrite He.
Qed.

(** ** Classifier *)

Ltac reads_step :=
  first
    [ assumption
    | apply reads_only_ret
    | apply reads_only_liftO
    | apply reads_only_throw
    | apply reads_only_existsSync
    | apply reads_only_readFileSync
    | apply reads_only_readdirSync
    | apply reads_only_some_exists
    | apply reads_only_try_catch
    | match goal with
      | |- reads_only (if ?b then _ else _) => destruct b
      | |- reads_only (match ?x with _ => _ end) => destruct x
      end
    | apply reads_only_bind; [|intros ?] ].

Ltac reads := repeat reads_step.

(** A computation that returns and leaves the state as it found it. *)
Lemma returns_unchanged {A} (m : M A) (s : State) :
  never_throws m -> reads_only m -> exists a, m s = (s, Ok a).
Proof.
  intros Ht Hr. destruct (Ht s) as (s' & a & Hm). specialize (Hr s).
  rewrite Hm in Hr. simpl in Hr. subst. by exists a.
Qed.

Section ClassifierFacts.
Context {rt : Runtime}.

Lemma some_exists_eq (dir : string) (names : list string) (s : State) :
  some_exists dir names s
  = (s, Ok (existsb (fun f => present s (join dir f)) names)).
Proof.
  induction names as [|f names IH]; simpl; [done|].
  unfold bind, existsSync, present. by case_bool_decide.
Qed.

Lemma detect_in_reads dir markers : reads_only (detect_in dir markers).
Proof. induction markers as [|[l m] rest IH]; simpl; reads. Qed.

Lemma detect_in_returns dir markers : never_throws (detect_in dir markers).
Proof. induction markers as [|[l m] rest IH]; simpl; returns. Qed.

Lemma some_hit_reads dir names : reads_only (some_hit dir names).
Proof. induction names as [|f names IH]; simpl; unfold detector_hit; reads. Qed.

Lemma some_hit_returns dir names : never_throws (some_hit dir names).
Proof. induction names as [|f names IH]; simpl; unfold detector_hit; returns. Qed.

Lemma framework_by_file_reads dir ds : reads_only (framework_by_file dir ds).
Proof.
  induction ds as [|[fw names] rest IH]; simpl; [reads|].
  apply reads_only_bind; [apply some_hit_reads|]. intros []; reads.
Qed.

Lemma framework_by_file_returns dir ds : never_throws (framework_by_file dir ds).
Proof.
  induction ds as [|[fw names] rest IH]; simpl; [returns|].
  apply never_throws_bind; [apply some_hit_returns|]. intros []; returns.
Qed.

Lemma detectFramework_reads dir : reads_only (detectFramework dir).
Proof.
  unfold detectFramework.
  apply reads_only_bind; [apply framework_by_file_reads|]. intros [fw|]; [reads|].
  apply reads_only_bind; [apply detect_in_reads|]. intros lang. reads.
Qed.

Lemma detectFramework_returns dir : never_throws (detectFramework dir).
Proof.
  unfold detectFramework.
  apply never_throws_bind; [apply framework_by_file_returns|]. intros [fw|]; [returns|].
  apply never_throws_bind; [apply detect_in_returns|]. intros lang. returns.
Qed.

Lemma detectPackageManager_reads dir : reads_only (detectPackageManager dir).
Proof. unfold detectPackageManager. reads. Qed.

Lemma detectPackageManager_returns dir : never_throws (detectPackageManager dir).
Proof. unfold detectPackageManager. returns. Qed.

Lemma read_manifest_reads dir lang : reads_only (read_manifest dir lang).
Proof. unfold read_manifest. destruct lang; reads. Qed.

Lemma read_manifest_returns dir lang : never_throws (read_manifest dir lang).
Proof. unfold read_manifest. destruct lang; returns. Qed.

(** Without a usable manifest the record keeps the base name of the
    directory and no dependency. *)
Lemma read_manifest_default dir lang s :
  manifest_unusable s dir lang ->
  read_manifest dir lang s
  = (s, Ok {| m_name := VStr (basename dir); m_deps := empty_object;
              m_devDeps := empty_object; m_nodeVersion := VUndef |}).
Proof.
  unfold manifest_unusable, is_file, read_manifest, try_catch, bind,
    readFileSync, existsSync, liftO, parse, ret.
  destruct lang; intros H; try done.
  - destruct (fs (world s) !! join dir "package.json") as [[text t|es t]|] eqn:E;
      [|done|done]. by rewrite (H text t eq_refl).
  - case_bool_decide; [|done].
    destruct (fs (world s) !! join dir "requirements.txt") as [[text t|es t]|] eqn:E;
      [|done|done]. destruct H. by eexists _, _.
  - destruct (fs (world s) !! join dir "Cargo.toml") as [[text t|es t]|] eqn:E;
      [|done|done]. destruct H. by eexists _, _.
  - destruct (fs (world s) !! join dir "go.mod") as [[text t|es t]|] eqn:E;
      [|done|done]. destruct H. by eexists _, _.
  - destruct (fs (world s) !! join dir "composer.json") as [[text t|es t]|] eqn:E;
      [|done|done]. by rewrite (H text t eq_refl).
Qed.

End ClassifierFacts.

Lemma find_map {A B} (f : A -> B) (p : B -> bool) (l : list A) :
  List.find p (map f l) = f <$> List.find (fun a => p (f a)) l.
Proof. induction l as [|a l IH]; simpl; [done|]. by destruct (p (f a)). Qed.

Lemma find_ext_Forall {A} (p q : A -> bool) (l : list A) :
  Forall (fun a => p a = q a) l -> List.find p l = List.find q l.
Proof. induction 1 as [|a l Ha _ IH]; simpl; [done|]. by rewrite Ha, IH. Qed.

Lemma registry_order : REGISTRY_ORDER = [node; python; rust; go; php; ruby; dart; swift; kotlin].
Proof. reflexivity. Qed.

Lemma registry_markers :
  Forall (fun e => marker_of e.1 = Some e.2) LANGUAGE_MARKERS.
Proof. repeat constructor. Qed.

Section Classification.
Context {rt : Runtime}.

Lemma detect_in_eq (dir : string) (markers : list (Language * LanguageMarker))
    (s : State) :
  detect_in dir markers s
  = (s, Ok (default node
              (fst <$> List.find
                 (fun e => existsb (fun f => present s (join dir f)) (files e.2))
                 markers))).
Proof.
  induction markers as [|[l m] rest IH]; simpl; [done|].
  unfold bind. rewrite some_exists_eq.
  by destruct (existsb _ (files m)).
Qed.

Lemma detectLanguage_eq (dir : string) (s : State) :
  detectLanguage dir s = (s, Ok (default node (spec_classify s dir))).
Proof.
  unfold detectLanguage, spec_classify, REGISTRY_ORDER.
  rewrite detect_in_eq, find_map. do 3 f_equal.
  all: apply find_ext_Forall.
  all: eapply Forall_impl; [apply registry_markers|].
  all: intros [l m] Hm; unfold marker_present; simpl in *; by rewrite Hm.
Qed.

(** C6. [getProjectInfo] selects the first ecosystem of the registry, in
    its order, that has a marker file in the directory, and answers [null]
    when no ecosystem has one; it changes nothing and never throws. The
    record of a classified directory keeps the directory as its path, and
    with a manifest that cannot be read or parsed it has the base name of
    the directory for name and no dependencies. A directory with both
    [package.json] and [Cargo.toml] is a Node project. *)
Theorem getProjectInfo_classifies (dir : string) (s : State) :
  exists r,
    getProjectInfo dir s = (s, Ok r)
    /\ language <$> r = spec_classify s dir
    /\ (forall info, r = Some info ->
          pi_path info = dir
          /\ (manifest_unusable s dir (language info) ->
              pi_name info = VStr (basename dir)
              /\ dependencies info = empty_object
              /\ devDependencies info = empty_object))
    /\ (present s (join dir "package.json") = true ->
        present s (join dir "Cargo.toml") = true ->
        language <$> r = Some node).
Proof.
  assert (Hnode : present s (join dir "package.json") = true ->
                  spec_classify s dir = Some node).
  { intros Hp. unfold spec_classify. rewrite registry_order. simpl.
    unfold marker_present at 1. simpl. by rewrite Hp. }
  unfold getProjectInfo, bind. rewrite detectLanguage_eq.
  destruct (spec_classify s dir) as [lang|] eqn:Hc;
    cbv beta iota delta [from_option id fmap option_fmap option_map].
  - apply find_some in Hc as [_ Hp]. unfold marker_present in Hp.
    destruct (marker_of lang) as [marker|]; [|done].
    rewrite some_exists_eq, Hp. cbn [negb].
    destruct (returns_unchanged (read_manifest dir lang) s
                (read_manifest_returns _ _) (read_manifest_reads _ _)) as [m Hm].
    destruct (returns_unchanged (detectFramework dir) s
                (detectFramework_returns _) (detectFramework_reads _)) as [fw Hfw].
    destruct (returns_unchanged (detectPackageManager dir) s
                (detectPackageManager_returns _) (detectPackageManager_reads _))
      as [pm Hpm].
    rewrite Hm, Hfw.
    assert (Hpm' : exists pm', (if bool_decide (lang = node)
                                then detectPackageManager dir else ret npm) s
                               = (s, Ok pm')).
    { case_bool_decide; by eexists. }
    destruct Hpm' as [pm' ->].
    eexists. split; [reflexivity|]. split; [done|]. split.
    + intros info [= <-]. split; [done|]. simpl. intros Hu.
      rewrite (read_manifest_default _ _ _ Hu) in Hm. by simplify_eq.
    + intros Hp1 _. by apply Hnode.
  - pose proof (find_none _ _ Hc node) as Hn. rewrite registry_order in Hn.
    specialize (Hn ltac:(by left)). unfold marker_present in Hn.
    destruct (marker_of_total node) as [marker Em]. rewrite Em in *.
    rewrite some_exists_eq, Hn. cbn [negb].
    exists None. split; [reflexivity|]. split; [done|]. split; [done|].
    intros Hp1 _. by apply Hnode.
Qed.

End Classification.

(** ** Entries of the outdated mapping *)

Lemma define_prop_Forall (P : string * value -> Prop) (k : string) (v : value)
    (props : list (string * value)) :
  Forall P props -> P (k, v) -> Forall P (JS.define_prop k v props).
Proof.
  intros Hall Hv. induction Hall as [|[k' v'] rest Hk' Hrest IH]; simpl.
  - by constructor.
  - destruct (String.eqb k k'); by constructor.
Qed.

Lemma set_prop_Forall (P : string * value -> Prop) (k : string) (v : value)
    (props : list (string * value)) :
  Forall P props -> P (k, v) -> Forall P (JS.set_prop k v props).
Proof.
  intros Hall Hv. unfold JS.set_prop.
  destruct (String.eqb k "__proto__"); [done|by apply define_prop_Forall].
Qed.

Lemma lookup_prop_In (k : string) (props : list (string * value)) (v : value) :
  JS.lookup_prop k props = Some v -> exists k', In (k', v) props.
Proof.
  induction props as [|[k' v'] rest IH]; simpl; [done|].
  destruct (JS.lookup_prop k rest) as [w|].
  - intros [= <-]. destruct (IH eq_refl) as [k'' Hin]. exists k''. by right.
  - destruct (String.eqb k k'); [|done]. intros [= <-]. exists k'. by left.
Qed.

Lemma dedup_keys_lookup (seen : list string) (props : list (string * value))
    (k : string) :
  In k (JS.dedup_keys seen props) -> is_Some (JS.lookup_prop k props).
Proof.
  revert seen. induction props as [|[k' v'] rest IH]; intros seen; simpl; [done|].
  destruct (existsb (String.eqb k') seen).
  - intros Hin. destruct (IH _ Hin) as [w ->]. by eexists.
  - intros [<-|Hin].
    + destruct (JS.lookup_prop k' rest); [by eexists|]. rewrite String.eqb_refl. by eexists.
    + destruct (IH _ Hin) as [w ->]. by eexists.
Qed.

(** The entries of an object built property by property are its
    properties. *)
Lemma Object_entries_satisfy (P : value -> Prop) (props : list (string * value)) :
  Forall (fun e => P e.2) props -> entries_satisfy P (VObj props).
Proof.
  intros Hall. eexists. split; [reflexivity|].
  apply Forall_forall. intros [k v] Hin. apply list_elem_of_In in Hin.
  apply in_map_iff in Hin as (k' & [= <- <-] & Hk).
  destruct (dedup_keys_lookup _ _ _ Hk) as [w Hw]. rewrite Hw. simpl.
  destruct (lookup_prop_In _ _ _ Hw) as [k'' Hin].
  rewrite Forall_forall in Hall. apply (Hall (k'', w)). by apply list_elem_of_In.
Qed.

Lemma empty_object_satisfies (P : value -> Prop) : entries_satisfy P empty_object.
Proof. by apply Object_entries_satisfy. Qed.

(** A loop that keeps an invariant of the object it builds. *)
Lemma for_of_invariant {A B} (Inv : A -> Prop) (body : A -> B -> outcome A)
    (xs : list B) (acc r : A) :
  (forall a x a', Inv a -> body a x = Ok a' -> Inv a') ->
  Inv acc -> JS.for_of body acc xs = Ok r -> Inv r.
Proof.
  intros Hbody. revert acc. induction xs as [|x xs IH]; intros acc Hacc; simpl.
  - by intros [= <-].
  - destruct (body acc x) as [a'|e] eqn:Hb; simpl; [|done].
    apply IH. by eapply Hbody.
Qed.



(** Unfolds a run of a parser into its cases. *)
Ltac unfold_run :=
  unfold cmdExists, run in *;
  unfold try_catch, bind, exec, existsSync, readFileSync,
    liftO, parse, ret, throw in *.

Ltac run_cases := unfold_run; repeat case_match; simplify_eq.

Section EntryFacts.
Context {rt : Runtime}.





End EntryFacts.


(** ** Running a computation step by step *)

Lemma post_elim {A} (m : M A) (s s' : State) (o : outcome A)
    (Q : State -> outcome A -> Prop) :
  post m s Q -> m s = (s', o) -> Q s' o.
Proof. unfold post. intros H E. by rewrite E in H. Qed.

Lemma post_intro {A} (m : M A) (s : State) (Q : State -> outcome A -> Prop) :
  (forall s' o, m s = (s', o) -> Q s' o) -> post m s Q.
Proof. unfold post. intros H. apply H. apply surjective_pairing. Qed.

Lemma post_ret {A} (a : A) s (Q : State -> outcome A -> Prop) :
  Q s (Ok a) -> post (ret a) s Q.
Proof. done. Qed.

Lemma post_throw {A} (e : exn) s (Q : State -> outcome A -> Prop) :
  Q s (Throw e) -> post (throw e) s Q.
Proof. done. Qed.

Lemma post_liftO {A} (o : outcome A) s (Q : State -> outcome A -> Prop) :
  Q s o -> post (liftO o) s Q.
Proof. done. Qed.

Lemma post_bind {A B} (m : M A) (k : A -> M B) s (Q : State -> outcome B -> Prop) :
  post m s (fun s1 o => match o with
                        | Ok a => post (k a) s1 Q
                        | Throw e => Q s1 (Throw e)
                        end) ->
  post (bind m k) s Q.
Proof. unfold post, bind. by destruct (m s) as [s1 [a|e]]. Qed.

Lemma post_try_catch {A} (body handler : M A) s (Q : State -> outcome A -> Prop) :
  post body s (fun s1 o => match o with
                           | Ok a => Q s1 (Ok a)
                           | Throw _ => post handler s1 Q
                           end) ->
  post (try_catch body handler) s Q.
Proof. unfold post, try_catch. by destruct (body s) as [s1 [a|e]]. Qed.

Lemma run_output_not_threw (e : event) (out : string) :
  run_output e = Some out -> run_threw e = false.
Proof. destruct e as [cmd [cwd|] [o|[o|]]]; simpl; try done. by destruct (Str.is_empty o). Qed.

Section StepFacts.
Context {rt : Runtime}.

Lemma post_cmdExists cmd s (Q : State -> outcome bool -> Prop) :
  (forall out w, execSync ("which " +:+ cmd) None (world s) = (Exited out, w) ->
                 Q (after_exec s ("which " +:+ cmd) None (Exited out) w) (Ok true)) ->
  (forall o w, execSync ("which " +:+ cmd) None (world s) = (Failed o, w) ->
               Q (after_exec s ("which " +:+ cmd) None (Failed o) w) (Ok false)) ->
  post (cmdExists cmd) s Q.
Proof.
  intros H1 H2. unfold post, cmdExists, bind, exec, ret.
  destruct (execSync _ _ _) as [[out|o] w] eqn:E; simpl; eauto.
Qed.

Lemma post_run cmd cwd s (Q : State -> outcome string -> Prop) :
  (forall res w out,
      execSync cmd (Some cwd) (world s) = (res, w) ->
      run_output (Exec cmd (Some cwd) res) = Some out ->
      Q (after_exec s cmd (Some cwd) res w) (Ok out)) ->
  (forall res w,
      execSync cmd (Some cwd) (world s) = (res, w) ->
      run_threw (Exec cmd (Some cwd) res) = true ->
      Q (after_exec s cmd (Some cwd) res w) (Throw (CommandFailed cmd))) ->
  post (run cmd cwd) s Q.
Proof.
  intros H1 H2. unfold post, run, bind, exec, ret, throw.
  destruct (execSync _ _ _) as [[out|[out|]] w] eqn:E; simpl.
  - by eapply H1.
  - destruct (Str.is_empty out) eqn:Eo; simpl.
    + eapply H2; [done|]. simpl. by rewrite Eo.
    + eapply H1; [done|]. simpl. by rewrite Eo.
  - by eapply H2.
Qed.

Lemma post_existsSync p s (Q : State -> outcome bool -> Prop) :
  Q s (Ok (present s p)) -> post (existsSync p) s Q.
Proof. done. Qed.

Lemma post_readFileSync p s (Q : State -> outcome string -> Prop) :
  (forall text t, fs (world s) !! p = Some (File text t) -> Q s (Ok text)) ->
  (~ is_file s p -> Q s (Throw FsError)) ->
  post (readFileSync p) s Q.
Proof.
  intros H1 H2. unfold post, readFileSync, is_file in *.
  destruct (fs (world s) !! p) as [[text t|es t]|] eqn:E; simpl.
  - by eapply H1.
  - apply H2. by intros (? & ? & ?).
  - apply H2. by intros (? & ? & ?).
Qed.

Lemma post_parse text s (Q : State -> outcome value -> Prop) :
  (forall v, JSON_parse text = Some v -> Q s (Ok v)) ->
  (JSON_parse text = None -> Q s (Throw SyntaxError)) ->
  post (liftO (parse text)) s Q.
Proof. intros H1 H2. unfold post, liftO, parse. simpl. destruct (JSON_parse text); eauto. Qed.

End StepFacts.

Ltac wp_step :=
  lazymatch goal with
  | |- post (ret _) _ _ => apply post_ret
  | |- post (throw _) _ _ => apply post_throw
  | |- post (liftO (parse _)) _ _ => apply post_parse; [intros ? ?|intros ?]
  | |- post (liftO _) _ _ => apply post_liftO
  | |- post (bind _ _) _ _ => apply post_bind
  | |- post (try_catch _ _) _ _ => apply post_try_catch
  | |- post (cmdExists _) _ _ => apply post_cmdExists; intros ? ? ?
  | |- post (run _ _) _ _ => apply post_run; [intros ? ? ? ? ?|intros ? ? ? ?]
  | |- post (existsSync _) _ _ => apply post_existsSync
  | |- post (readFileSync _) _ _ => apply post_readFileSync; [intros ? ? ?|intros ?]
  | |- post (if ?b then _ else _) _ _ => destruct b eqn:?
  | |- post (match ?x with _ => _ end) _ _ => destruct x eqn:?
  | |- match ?o with Ok _ => _ | Throw _ => _ end => destruct o eqn:?
  | |- post (let _ := _ in _) _ _ => cbv zeta
  end; cbv beta iota.

Ltac wp := repeat wp_step.

(** ** Failures of the external tools *)

Ltac use_failure :=
  repeat match goal with
    | H : Forall _ (_ :: _) |- _ => inv H
    | H : Forall _ (_ ++ _) |- _ => apply Forall_app in H as [? ?]
    | H : Exists _ [] |- _ => inv H
    | H : Exists _ (_ :: _) |- _ => inv H
    | H : Exists _ (_ ++ _) |- _ => apply Exists_app in H as [?|?]
    | H : exists _, _ |- _ => destruct H
    | H : _ /\ _ |- _ => destruct H
    | H : unparsable_file _ _ |- _ => destruct H as (? & ? & ? & ?)
    | H : run_output ?e = Some _, H' : context [run_threw ?e] |- _ =>
        rewrite (run_output_not_threw _ _ H) in H'
    end;
  simpl in *; simplify_eq; try done; try congruence;
  repeat match goal with
    | H : context [match ?res with Exited _ => _ | Failed _ => _ end] |- _ =>
        destruct res as [?|[?|]]
    | H : context [if Str.is_empty ?out then _ else _] |- _ =>
        destruct (Str.is_empty out) eqn:?
    end;
  simpl in *; simplify_eq; try done; try congruence.


Section FailureFacts.
Context {rt : Runtime}.










End FailureFacts.

(** ** Fragments of the Go listing *)







Section GoFacts.
Context {rt : Runtime}.

Lemma go_update_well_formed fragment version newer path :
  go_well_formed fragment version newer path ->
  Str.endsWith "}" (Str.trim fragment) = false ->
  go_update fragment = Ok (Some (go_key path, entry version newer newer)).
Proof.
  intros (parsed & update & Hp & Hu & Htu & Hv & Htv & Hpath & Hn) Hends.
  unfold go_update, go_object, parse. rewrite Hends, Hp. simpl.
  rewrite Hu. simpl. rewrite Hv. simpl.
  rewrite Htu, Htv. simpl. rewrite Hpath. simpl. by rewrite Hn.
Qed.




End GoFacts.

Lemma getOutdated_dispatch {rt : Runtime} (path : string) (info : ProjectInfo) :
  getOutdated path info
  = match language info with
    | node => getOutdatedNpm path (packageManager info)
    | python => getOutdatedPip path
    | rust => getOutdatedCargo path
    | go => getOutdatedGo path
    | php => getOutdatedComposer path
    | ruby => getOutdatedGem path
    | dart => getOutdatedPub path
    | swift => getOutdatedSwift path
    | kotlin => getOutdatedGradle path
    end.
Proof. unfold getOutdated. by destruct (language info). Qed.




(** ** The check before the command *)

Ltac stopped :=
  unfold stopped_at_check, after_exec;
  eexists; split; [reflexivity|]; split;
  [simpl; rewrite <- ?app_assoc; first [reflexivity|symmetry; apply app_nil_r]|];
  repeat constructor.

(** With no tool installed, every resolver but the one of Node stops at
    its check (for Kotlin/Java, when the project has no wrapper script
    either). *)
Lemma check_stops_resolver {rt : Runtime} (path : string) (info : ProjectInfo)
    (s : State) :
  no_tool_found ->
  language info <> node ->
  (language info = kotlin -> present s (join path "gradlew") = false) ->
  post (getOutdated path info) s (stopped_at_check s).
Proof.
  intros Hno Hlang Hwrap. rewrite getOutdated_dispatch.
  destruct (language info); [done|..];
    [unfold getOutdatedPip|unfold getOutdatedCargo|unfold getOutdatedGo
    |unfold getOutdatedComposer|unfold getOutdatedGem|unfold getOutdatedPub
    |unfold getOutdatedSwift
    |unfold getOutdatedGradle; specialize (Hwrap eq_refl)];
    repeat (first
      [ lazymatch goal with
        | |- post (cmdExists ?c) _ _ =>
            let Hex := fresh "Hex" in
            let Hf := fresh "Hf" in
            apply post_cmdExists; intros ? ? Hex;
            [exfalso; lazymatch type of Hex with
                      | execSync _ _ ?w = _ =>
                          destruct (Hno c w) as (? & ? & Hf);
                          rewrite Hf in Hex; discriminate
                      end|]
        end
      | wp_step ]);
    try (simpl in *; congruence); stopped.
Qed.

(** C8. The resolver of Node runs its listing command without checking
    first that the package manager exists: the command is the first and only
    call it makes, in every world. Where no tool is installed the command is
    still invoked (and fails), while the resolver of Go stops at its failed
    check. *)
Theorem getOutdatedNpm_runs_unchecked :
  (forall (rt : Runtime) path pm s,
     exists res w mapping,
       execSync (pm_name pm +:+ " outdated --json") (Some path) (world s) = (res, w)
       /\ getOutdatedNpm path pm s
          = (after_exec s (pm_name pm +:+ " outdated --json") (Some path) res w,
             Ok mapping))
  /\ (let r := @getOutdated bare_runtime "/p/app" bare_project bare_state in
      r.2 = Ok empty_object
      /\ trace r.1 = [Exec "npm outdated --json" (Some "/p/app") (Failed None)])
  /\ (let r := @getOutdated bare_runtime "/p/svc" go_project go_state in
      r.2 = Ok empty_object
      /\ trace r.1 = [Exec "which go" None (Failed None)]).
Proof.
  split; [|by vm_compute].
  intros rt path pm s.
  assert (H : post (getOutdatedNpm path pm) s (fun s' o =>
            exists res w mapping,
              execSync (pm_name pm +:+ " outdated --json") (Some path) (world s)
              = (res, w)
              /\ s' = after_exec s (pm_name pm +:+ " outdated --json") (Some path) res w
              /\ o = Ok mapping)).
  { unfold getOutdatedNpm. wp. all: by eexists _, _, _. }
  unfold post in H. destruct (getOutdatedNpm path pm s) as [s' o]. simpl in H.
  destruct H as (res & w & mapping & Hex & -> & ->). by exists res, w, mapping.
Qed.

(** ** What the guarded resolvers and the Swift resolver return *)


Section ResolverEntries.
Context {rt : Runtime}.






End ResolverEntries.





(** * Examples *)

(** The theorems at work on concrete projects. *)



Lemma buildUpdateCommand_npm_two_step_react :
  buildUpdateCommand (demo_project "/p/app" node npm) (Some "react vite") "minor"
  = "npx -y npm-check-updates -u --target minor react vite && npm install"
  /\ buildUpdateCommand (demo_project "/p/app" node pnpm) (Some "react vite") "minor"
     = "pnpm update react vite".
Proof.
  split.
  - exact (proj1 (proj1 (buildUpdateCommand_npm_two_step
                           (demo_project "/p/app" node npm) (Some "react vite")
                           eq_refl) eq_refl)).
  - exact (proj1 (proj2 (buildUpdateCommand_npm_two_step
                           (demo_project "/p/app" node pnpm) (Some "react vite")
                           eq_refl) eq_refl "minor")).
Defined.


Lemma getProjectInfo_classifies_mixed :
  exists r,
    @getProjectInfo bare_runtime "/p/app" mixed_state = (mixed_state, Ok r)
    /\ language <$> r = Some node
    /\ forall info, r = Some info -> pi_name info = VStr "app".
Proof.
  destruct (@getProjectInfo_classifies bare_runtime "/p/app" mixed_state)
    as (r & Hr & Hc & Hm & Hn).
  assert (Hnode : language <$> r = Some node) by (apply Hn; reflexivity).
  exists r. split; [exact Hr|]. split; [exact Hnode|].
  intros info ->. destruct (Hm info eq_refl) as [_ Hd].
  injection Hnode as Hl. apply Hd. rewrite Hl.
  intros text t Hfile. vm_compute in Hfile. injection Hfile as <- _.
  vm_compute. reflexivity.
Defined.

Lemma cache_round_trip_demo :
  exists s1 s2,
    @writeCache bare_runtime demo_entries bare_state = (s1, Ok tt)
    /\ clock (world s2) = 1000
    /\ exists cache,
         @readCache bare_runtime s2 = (s2, Ok cache)
         /\ cached_entries cache = Some demo_entries.
Proof.
  destruct (@cache_round_trip bare_runtime demo_entries bare_state)
    as (s1 & Hw & Hread).
  - intros es t. vm_compute. discriminate.
  - vm_compute. reflexivity.
  - exists s1, {| world := {| fs := fs (world s1); clock := 1000 |}; trace := [] |}.
    split; [exact Hw|]. split; [reflexivity|].
    eexists. apply Hread; [reflexivity|]. vm_compute. discriminate.
Defined.

Lemma scan_entries_score_bare :
  exists s' entries,
    @scan bare_runtime [bare_project] bare_state = (s', Ok entries)
    /\ Forall scan_invariant entries
    /\ exists now mtime,
         fs (world s') !! @getCachePath bare_runtime
         = Some (File (Json.stringify (cache_value SERVER_VERSION now entries) +:+ LF)
                      mtime).
Proof.
  destruct scan_entries_score as (_ & Hscan & _).
  eexists _, _. split; [vm_compute; reflexivity|].
  edestruct (Hscan bare_runtime [bare_project] bare_state) as [Hinv Hfile].
  - vm_compute. reflexivity.
  - split; [exact Hinv|]. apply Hfile. discriminate.
Defined.

(** * Further properties of the code *)

(** ** Health report: counts and recommendations *)

Lemma pretty_head_neq (n : Z) (rest : string) (c : ascii) (t : string) :
  Str.is_digit c = false -> c <> "-"%char -> pretty n +:+ rest <> String c t.
Proof.
  intros Hd Hm. destruct (pretty_Z_head n rest) as (c' & tail & -> & [Hc|Hc]).
  - intros [= -> _]. congruence.
  - intros [= -> _]. congruence.
Qed.

Lemma count_major_bounds (entries : list (string * value)) (n : Z) :
  count_major entries = Ok n -> 0 <= n <= Z.of_nat (length entries).
Proof.
  revert n. induction entries as [|[k pkg] rest IH]; intros n; simpl.
  - intros [= <-]. lia.
  - destruct (entry_is_major pkg) as [major|]; simpl; [|done].
    destruct (count_major rest) as [m|]; simpl; [|done].
    specialize (IH m eq_refl). intros [= <-]. destruct major; lia.
Qed.

Lemma recommend_spec (lock : bool) (m sec o : Z) :
  0 <= m <= o ->
  let sc := spec_score o m lock sec in
  let recs := recommend lock m (JS.ONum sec) o (JS.Int sc) in
  ("All good! Dependencies are up to date." ∈ recs <-> sc = 100)
  /\ ("Missing lockfile. Run install to generate one." ∈ recs <-> lock = false)
  /\ ("Many outdated packages. Start with minor/patch updates." ∈ recs <-> 10 < o)
  /\ (0 <= sec -> sc = 100 -> recs = ["All good! Dependencies are up to date."])
  /\ (0 < o <= 10 -> m = 0 -> lock = true -> sec = 0 -> recs = [] /\ sc = 100 - 3 * o).
Proof.
  intros Hm sc recs. subst recs. unfold recommend.
  cbn [JS.ToNumber JS.lt JS.same JS.operand_text].
  assert (Hmaj : forall c t, Str.is_digit c = false -> c <> "-"%char ->
            pretty m +:+ " major update(s). Review changelogs before updating."
            <> String c t) by (intros; by apply pretty_head_neq).
  assert (Hsec : forall c t, Str.is_digit c = false -> c <> "-"%char ->
            pretty sec +:+ " security issue(s). Run audit fix." <> String c t)
    by (intros; by apply pretty_head_neq).
  assert (Hsc : sc = spec_score o m lock sec) by done.
  unfold spec_score in Hsc. clearbody sc.
  destruct lock; cbn [negb] in *;
    destruct (Z.ltb_spec 0 m), (Z.ltb_spec 0 sec), (Z.ltb_spec 10 o),
      (Z.eqb_spec sc 100);
    cbn [app]; rewrite ?elem_of_cons, ?elem_of_nil.
  all: repeat split; intros;
    repeat match goal with
      | H : _ \/ _ |- _ => destruct H
      | H : False |- _ => destruct H
      end;
    try (exfalso;
         match goal with
         | H : _ = pretty _ +:+ _ |- _ =>
             symmetry in H; revert H; first [apply Hmaj|apply Hsec]; done
         end);
    try discriminate; try lia; try (exfalso; lia); try done; auto 10.
Qed.

Section ReportFacts.
Context {rt : Runtime}.

(** X1. In every report [computeHealthReport] returns, the major updates
    are counted among the outdated packages (0 <= majorUpdates <=
    outdatedCount). When the security count of the report is a number, the
    recommendations follow the numbers of the report: the all-good line is
    there exactly when the score is 100, the missing-lockfile line exactly
    when no lockfile was found, the many-outdated line exactly when more
    than 10 packages are outdated. With a score of 100 and no negative
    security count the all-good line is the only one; with 1 to 10
    outdated packages, none of them major, a lockfile and no security
    issue, the score is 100 minus 3 per package and there is no
    recommendation at all. *)
Theorem computeHealthReport_recommendations (info : ProjectInfo) (s s' : State)
    (r : HealthReport) (issues : Z) :
  computeHealthReport info s = (s', Ok r) ->
  securityIssues r = JS.ONum issues ->
  0 <= majorUpdates r <= outdatedCount r
  /\ ("All good! Dependencies are up to date." ∈ recommendations r
      <-> score r = JS.Int 100)
  /\ ("Missing lockfile. Run install to generate one." ∈ recommendations r
      <-> lockfileExists r = false)
  /\ ("Many outdated packages. Start with minor/patch updates." ∈ recommendations r
      <-> 10 < outdatedCount r)
  /\ (0 <= issues -> score r = JS.Int 100 ->
      recommendations r = ["All good! Dependencies are up to date."])
  /\ (0 < outdatedCount r <= 10 -> majorUpdates r = 0 ->
      lockfileExists r = true -> issues = 0 ->
      recommendations r = [] /\ score r = JS.Int (100 - 3 * outdatedCount r)).
Proof.
  unfold computeHealthReport, bind, liftO.
  destruct (getOutdated _ _ _) as [s1 [outdated|e]] eqn:Hout; [|done].
  destruct (JS.Object_entries outdated) as [entries|e] eqn:He.
  2:{ unfold JS.Object_keys. by rewrite He. }
  rewrite (Object_keys_entries _ _ He).
  destruct (count_major entries) as [n|e] eqn:Hn; [|done].
  destruct (some_exists_spec (pi_path info) LOCKFILES s1) as (b & -> & Hb).
  destruct (getSecurityIssues _ _ _) as [s2 [sec|e]]; [|done].
  intros [= <- <-].
  cbn [score outdatedCount majorUpdates lockfileExists securityIssues recommendations].
  intros ->. rewrite length_map, health_score_spec.
  pose proof (count_major_bounds _ _ Hn) as Hm.
  destruct (recommend_spec b n issues (Z.of_nat (length entries)) Hm)
    as (H1 & H2 & H3 & H4 & H5).
  split; [done|]. split.
  { rewrite H1. split; [by intros ->|by intros [= ->]]. }
  split; [done|]. split; [done|]. split.
  { intros Hi [= Hs]. by apply H4. }
  intros Ho Hz Hl Hi. destruct (H5 Ho Hz Hl Hi) as [Hr Hs]. split; [done|by rewrite Hs].
Qed.

End ReportFacts.

(** ** Update commands outside Node *)

(** X2. For a project that is not a Node project, [buildUpdateCommand] does
    not look at the package manager; for Python it does not look at the
    level either, and for every other language it does not look at the
    package subset: the command updates everything, whatever packages were
    asked for. A subset of white space only is no subset. *)
Theorem buildUpdateCommand_non_node (info info' : ProjectInfo)
    (packages packages' : option string) (level level' : string) :
  language info <> node ->
  language info' = language info ->
  (language info = python ->
     buildUpdateCommand info packages level = buildUpdateCommand info' packages level')
  /\ (language info <> python ->
        buildUpdateCommand info packages level
        = buildUpdateCommand info' packages' level)
  /\ (forall p, Str.trim p = EmptyString ->
        buildUpdateCommand info (Some p) level = buildUpdateCommand info None level).
Proof.
  intros Hnode Hsame. unfold buildUpdateCommand. rewrite Hsame.
  destruct (language info); try done; cbn [marker_of].
  all: repeat split; try done; intros; try done.
  all: match goal with H : Str.trim _ = _ |- _ => by rewrite H end.
Qed.

(** ** Cache: what is not read, what is not touched *)

Section CacheEdges.
Context {rt : Runtime}.

(** X3. [readCache] never throws and changes nothing. It answers [null]
    when the cache path is not a file, when the file is older than
    [CACHE_MAX_AGE_MS] (six hours), and when its text is not JSON; a file
    that is exactly six hours old is still read. *)
Theorem readCache_null (s : State) :
  exists v,
    readCache s = (s, Ok v)
    /\ (~ is_file s getCachePath -> v = VNull)
    /\ (forall text t,
          fs (world s) !! getCachePath = Some (File text t) ->
          (CACHE_MAX_AGE_MS < clock (world s) - t -> v = VNull)
          /\ (clock (world s) - t <= CACHE_MAX_AGE_MS ->
              v = default VNull (JSON_parse text))).
Proof.
  unfold readCache, try_catch, bind, existsSync, statSync_mtimeMs, Date_now,
    readFileSync, liftO, parse, ret, is_file.
  destruct (fs (world s) !! getCachePath) as [[text t|es t]|] eqn:E.
  - rewrite bool_decide_eq_true_2 by eauto. cbn [negb]. cbv beta iota.
    rewrite ?E. cbv beta iota.
    destruct (Z.ltb_spec CACHE_MAX_AGE_MS (clock (world s) - t)); rewrite ?E.
    + exists VNull. split; [done|]. split; [done|].
      intros ? ? [= <- <-]. split; [done|lia].
    + destruct (JSON_parse text) as [v|] eqn:Ep.
      * exists v. split; [done|]. split; [intros []; by eexists _, _|].
        intros ? ? [= <- <-]. split; [lia|]. by rewrite Ep.
      * exists VNull. split; [done|]. split; [done|].
        intros ? ? [= <- <-]. split; [done|]. by rewrite Ep.
  - rewrite bool_decide_eq_true_2 by eauto. cbn [negb]. cbv beta iota.
    rewrite ?E. cbv beta iota.
    exists VNull. split; [destruct (_ <? _); by rewrite ?E|]. split; [done|]. done.
  - rewrite bool_decide_eq_false_2 by (by intros [? ?]). cbn [negb].
    exists VNull. split; [done|]. split; [done|]. done.
Qed.

(** X4. [writeCache] throws when the cache path is a directory, and then
    changes nothing. Otherwise it returns, and it touches the cache file
    only: every other path, the clock and the record of the commands run
    are as before. A second write replaces the first: the file system
    after both is the file system after the second alone. *)
Theorem writeCache_frame (entries entries2 : list CacheEntry) (s : State) :
  (forall es t, fs (world s) !! getCachePath = Some (Dir es t) ->
                writeCache entries s = (s, Throw FsError))
  /\ ((forall es t, fs (world s) !! getCachePath <> Some (Dir es t)) ->
      exists s1 s2 s2',
        writeCache entries s = (s1, Ok tt)
        /\ (forall p, p <> getCachePath -> fs (world s1) !! p = fs (world s) !! p)
        /\ clock (world s1) = clock (world s)
        /\ trace s1 = trace s
        /\ writeCache entries2 s1 = (s2, Ok tt)
        /\ writeCache entries2 s = (s2', Ok tt)
        /\ fs (world s2) = fs (world s2')).
Proof.
  unfold writeCache, bind, Date_now, writeFileSync. split.
  - intros es t E. by rewrite E.
  - intros Hdir.
    destruct (fs (world s) !! getCachePath) as [[text t|es t]|] eqn:E;
      [|by destruct (Hdir es t)|].
    all: eexists _, _, _; split; [reflexivity|]; cbn [world fs clock trace].
    all: split; [intros p Hp; by rewrite lookup_insert_ne|].
    all: split; [done|]; split; [done|].
    all: rewrite lookup_insert_eq; split; [reflexivity|]; split; [reflexivity|].
    all: cbn [world fs clock]; by rewrite insert_insert_eq.
Qed.

(** X5. The dashboard reads the cache file whatever its age:
    [readCacheFile] never throws, changes nothing, and answers the parsed
    text of the file, or [null] when there is no file or its text is not
    JSON. So whenever [readCache] answers a cache, [readCacheFile] answers
    the same one, and it still answers it when the file has expired for
    [readCache]. *)
Theorem readCacheFile_ignores_age (s : State) :
  exists v w,
    readCache s = (s, Ok v)
    /\ readCacheFile s = (s, Ok w)
    /\ (v <> VNull -> w = v)
    /\ (~ is_file s getCachePath -> w = VNull)
    /\ (forall text t, fs (world s) !! getCachePath = Some (File text t) ->
                       w = default VNull (JSON_parse text)).
Proof.
  unfold readCache, readCacheFile, CACHE_PATH, getCachePath, CACHE_FILENAME,
    try_catch, bind, existsSync, statSync_mtimeMs, Date_now,
    readFileSync, liftO, parse, ret, is_file.
  destruct (fs (world s) !! join homedir ".depsonar-cache.json")
    as [[text t|es t]|] eqn:E.
  - rewrite bool_decide_eq_true_2 by eauto. cbn [negb]. cbv beta iota.
    rewrite ?E. cbv beta iota.
    destruct (JSON_parse text) as [v|] eqn:Ep;
      destruct (Z.ltb_spec CACHE_MAX_AGE_MS (clock (world s) - t));
      rewrite ?E, ?Ep;
      eexists _, _; (split; [reflexivity|]); (split; [reflexivity|]);
      (split; [done|]); (split; [intros []; by eexists _, _|]);
      intros ? ? [= <- <-]; by rewrite Ep.
  - rewrite bool_decide_eq_true_2 by eauto. cbn [negb]. cbv beta iota.
    rewrite ?E. cbv beta iota.
    exists VNull, VNull. split; [destruct (_ <? _); by rewrite ?E|].
    by rewrite ?E.
  - rewrite bool_decide_eq_false_2 by (by intros [? ?]). cbn [negb].
    exists VNull, VNull. done.
Qed.

End CacheEdges.

(** ** Properties of objects *)

Lemma lookup_prop_app (k : string) (a b : list (string * value)) :
  JS.lookup_prop k (a ++ b)
  = match JS.lookup_prop k b with
    | Some w => Some w
    | None => JS.lookup_prop k a
    end.
Proof.
  induction a as [|[k' v'] a IH]; simpl; [by destruct (JS.lookup_prop k b)|].
  rewrite IH. by destruct (JS.lookup_prop k b), (JS.lookup_prop k a).
Qed.

Lemma lookup_prop_keyed (g : string -> value) (k : string) (ks : list string) :
  JS.lookup_prop k (map (fun k' => (k', g k')) ks)
  = if existsb (String.eqb k) ks then Some (g k) else None.
Proof.
  induction ks as [|k' ks IH]; simpl; [done|]. rewrite IH.
  destruct (String.eqb_spec k k') as [->|Hne]; simpl.
  - by destruct (existsb _ ks).
  - by destruct (existsb _ ks).
Qed.

Lemma dedup_keys_complete (seen : list string) (props : list (string * value))
    (k : string) :
  is_Some (JS.lookup_prop k props) ->
  existsb (String.eqb k) seen = false ->
  existsb (String.eqb k) (JS.dedup_keys seen props) = true.
Proof.
  revert seen. induction props as [|[k' v'] rest IH]; intros seen; simpl.
  - by intros [? ?].
  - intros Hk Hseen. destruct (String.eqb_spec k k') as [->|Hne].
    + rewrite Hseen. simpl. by rewrite String.eqb_refl.
    + assert (Hrest : is_Some (JS.lookup_prop k rest)).
      { destruct (JS.lookup_prop k rest); [by eexists|]. by destruct Hk. }
      destruct (existsb (String.eqb k') seen); [by apply IH|].
      simpl. apply orb_true_iff. right. apply IH; [done|].
      simpl. apply orb_false_iff. split; [by apply String.eqb_neq|done].
Qed.

Lemma dedup_keys_sound (seen : list string) (props : list (string * value))
    (k : string) :
  existsb (String.eqb k) (JS.dedup_keys seen props) = true ->
  is_Some (JS.lookup_prop k props).
Proof.
  intros H. apply existsb_exists in H as (k' & Hin & Heq).
  apply String.eqb_eq in Heq as <-. by eapply dedup_keys_lookup.
Qed.

(** The properties of the copy [{...v}] of an object are those of the
    object. *)
Lemma lookup_spread_object (k : string) (props : list (string * value)) :
  JS.lookup_prop k (spread (VObj props)) = JS.lookup_prop k props.
Proof.
  unfold spread. cbn [JS.Object_entries].
  rewrite (lookup_prop_keyed (fun k => default VUndef (JS.lookup_prop k props))).
  destruct (existsb (String.eqb k) (JS.dedup_keys [] props)) eqn:E.
  - apply dedup_keys_sound in E as [w ->]. done.
  - destruct (JS.lookup_prop k props) as [w|] eqn:El; [|done].
    rewrite dedup_keys_complete in E; [done|by rewrite El|done].
Qed.

Lemma or_else_null (x : value) :
  JS.or_else x VNull = VNull \/ JS.truthy (JS.or_else x VNull) = true.
Proof. unfold JS.or_else. destruct (JS.truthy x) eqn:E; [by right|by left]. Qed.

(** ** Framework version *)

(** X6. [getFrameworkVersion] answers [null] or a truthy value, never
    [undefined] or the empty text. For each of the nine frameworks it knows,
    a version declared in [devDependencies] for the package of the framework
    is the one reported, whatever [dependencies] declares for it; for any
    other framework the answer is [null]. *)
Theorem getFrameworkVersion_spec (info : ProjectInfo) :
  (getFrameworkVersion info = VNull \/ JS.truthy (getFrameworkVersion info) = true)
  /\ (forall fw k props v,
        (fw, k) ∈ FRAMEWORK_PACKAGES ->
        framework info = fw ->
        devDependencies info = VObj props ->
        JS.lookup_prop k props = Some v ->
        JS.truthy v = true ->
        getFrameworkVersion info = v)
  /\ (framework info ∉ map fst FRAMEWORK_PACKAGES -> getFrameworkVersion info = VNull).
Proof.
  split; [|split].
  - unfold getFrameworkVersion. repeat case_match; try apply or_else_null. by left.
  - intros fw k props v Hin Hfw Hdev Hk Hv.
    assert (Hdep : allDeps_get (dependencies info) (devDependencies info) k = v).
    { unfold allDeps_get. rewrite lookup_prop_app, Hdev, lookup_spread_object, Hk. done. }
    unfold getFrameworkVersion. rewrite Hfw.
    unfold FRAMEWORK_PACKAGES in Hin.
    repeat (apply elem_of_cons in Hin as [[= -> ->]|Hin];
            [cbn [String.eqb Ascii.eqb Bool.eqb]; cbv iota; rewrite Hdep;
             unfold JS.or_else; by rewrite ?Hv|]).
    by apply elem_of_nil in Hin.
  - intros Hnot. unfold getFrameworkVersion.
    repeat match goal with
      | |- context [String.eqb (framework info) ?lit] =>
          destruct (String.eqb_spec (framework info) lit) as [Heq|_];
            [exfalso; apply Hnot; rewrite Heq; unfold FRAMEWORK_PACKAGES;
             cbn [map fst]; set_solver|]
      end.
    done.
Qed.

(** ** Version comparison *)

Lemma drop_while_append (p : ascii -> bool) (a b : string) :
  forallb p (list_ascii_of_string a) = true ->
  Str.drop_while p (a +:+ b) = Str.drop_while p b.
Proof.
  induction a as [|c a IH]; simpl; [done|].
  intros [-> Ha]%andb_true_iff. by apply IH.
Qed.

Lemma drop_while_stops (p : ascii -> bool) (a b : string) :
  forallb p (list_ascii_of_string a) = false ->
  Str.drop_while p (a +:+ b) = Str.drop_while p a +:+ b.
Proof.
  induction a as [|c a IH]; simpl; [done|].
  destruct (p c); simpl; [apply IH|done].
Qed.

Lemma take_while_stop (p : ascii -> bool) (a : string) (c : ascii) (b : string) :
  p c = false ->
  Str.take_while p (a +:+ String c b) = Str.take_while p a.
Proof.
  intros Hc. induction a as [|x a IH]; simpl; [by rewrite Hc|].
  destruct (p x); [by rewrite IH|done].
Qed.

(** X7. [isMajorUpdate] never holds between a version and itself, and it
    does not depend on the order of its arguments. Characters before the
    first digit do not count: a range prefix such as a caret, a tilde or a
    letter in front of a version changes nothing. Only the text up to the
    first dot counts: two versions that start with the same text, with a
    digit in it, followed by a dot are never a major update of one
    another. *)
Theorem isMajorUpdate_algebra (a b p t u : string) :
  isMajorUpdate a a = false
  /\ isMajorUpdate a b = isMajorUpdate b a
  /\ (no_digit p = true -> isMajorUpdate (p +:+ a) b = isMajorUpdate a b)
  /\ (no_digit p = false ->
      isMajorUpdate (p +:+ "." +:+ t) (p +:+ "." +:+ u) = false).
Proof.
  unfold isMajorUpdate. rewrite !major_token_spec. split; [|split; [|split]].
  - rewrite String.eqb_refl. done.
  - rewrite (String.eqb_sym (spec_major_token a)).
    by destruct (String.eqb _ _), (Str.is_empty _), (Str.is_empty _).
  - intros Hp. unfold spec_major_token.
    by rewrite (drop_while_append _ p a Hp).
  - intros Hp.
    assert (Hsame : forall x, spec_major_token (p +:+ "." +:+ x)
                              = spec_major_token (p +:+ ".")).
    { intros x. unfold spec_major_token.
      rewrite (drop_while_stops _ p _ Hp), (drop_while_stops _ p _ Hp).
      change ("." +:+ x) with (String "."%char x).
      rewrite (take_while_stop _ _ "."%char x) by done.
      by rewrite (take_while_stop _ _ "."%char EmptyString). }
    rewrite (Hsame t), (Hsame u), String.eqb_refl. done.
Qed.

(** ** Security audit *)

Ltac audit_answer :=
  unfold audit_answers, after_exec;
  eexists _, _; split; [reflexivity|]; split;
  [simpl; rewrite <- ?app_assoc; first [reflexivity|symmetry; apply app_nil_r]|];
  repeat split; intros; use_failure.

Section AuditFacts.
Context {rt : Runtime}.

Lemma getSecurityIssues_answers path info s :
  post (getSecurityIssues path info) s (audit_answers s).
Proof.
  unfold getSecurityIssues.
  destruct (marker_of (language info)) as [marker|]; [|wp; audit_answer].
  destruct (auditCmd marker) as [audit|]; [|wp; audit_answer].
  wp. all: audit_answer.
Qed.

(** X8. [getSecurityIssues] never throws. It answers 0 without running
    anything for Dart, Swift and Kotlin/Java, which have no audit command;
    it answers 0 when no audit command was run (the check of the tool said
    no), when the command failed without output, and when its output is
    not JSON. *)
Theorem getSecurityIssues_counts (path : string) (info : ProjectInfo) (s : State) :
  exists s' o,
    getSecurityIssues path info s = (s', o)
    /\ audit_answers s s' o
    /\ (language info ∈ [dart; swift; kotlin] -> s' = s /\ o = Ok (JS.ONum 0)).
Proof.
  pose proof (getSecurityIssues_answers path info s) as H. unfold post in H.
  destruct (getSecurityIssues path info s) as [s' o] eqn:E. simpl in H.
  exists s', o. split; [done|]. split; [done|].
  intros Hl. unfold getSecurityIssues in E.
  repeat (apply elem_of_cons in Hl as [Hl|Hl]; [rewrite Hl in E; by inv E|]).
  by apply elem_of_nil in Hl.
Qed.

End AuditFacts.

(** ** Entries whose wanted version is the latest one *)

Lemma fold_left_invariant {A B} (Inv : A -> Prop) (f : A -> B -> A)
    (xs : list B) (acc : A) :
  (forall a x, Inv a -> Inv (f a x)) -> Inv acc -> Inv (fold_left f xs acc).
Proof.
  intros Hf. revert acc. induction xs as [|x xs IH]; intros acc Hacc; simpl; [done|].
  apply IH. by apply Hf.
Qed.

Section SettledFacts.
Context {rt : Runtime}.

Lemma pip_item_settled result item result' :
  Forall (fun e => wanted_is_latest e.2) result ->
  pip_item result item = Ok result' ->
  Forall (fun e => wanted_is_latest e.2) result'.
Proof.
  unfold pip_item, obind. intros Hall H.
  repeat case_match; simplify_eq.
  apply set_prop_Forall; [done|]. by eexists _, _.
Qed.

Lemma composer_item_settled result item result' :
  Forall (fun e => wanted_is_latest e.2) result ->
  composer_item result item = Ok result' ->
  Forall (fun e => wanted_is_latest e.2) result'.
Proof.
  unfold composer_item, obind. intros Hall H.
  repeat case_match; simplify_eq; [|done].
  apply set_prop_Forall; [done|]. by eexists _, _.
Qed.

Lemma swift_pin_settled result pin result' :
  Forall (fun e => wanted_is_latest e.2) result ->
  swift_pin result pin = Ok result' ->
  Forall (fun e => wanted_is_latest e.2) result'.
Proof.
  unfold swift_pin, obind. intros Hall H.
  repeat case_match; simplify_eq; try done.
  apply set_prop_Forall; [done|]. by eexists _, _.
Qed.

Lemma gradle_item_settled result dep result' :
  Forall (fun e => wanted_is_latest e.2) result ->
  gradle_item result dep = Ok result' ->
  Forall (fun e => wanted_is_latest e.2) result'.
Proof.
  unfold gradle_item, obind. intros Hall H.
  repeat case_match; simplify_eq.
  all: apply set_prop_Forall; [done|]; by eexists _, _.
Qed.

Lemma go_fragment_settled result fragment :
  Forall (fun e => wanted_is_latest e.2) result ->
  Forall (fun e => wanted_is_latest e.2) (go_fragment result fragment).
Proof.
  unfold go_fragment, go_update, obind. intros Hall.
  repeat case_match; simplify_eq; try done.
  apply set_prop_Forall; [done|]. by eexists _, _.
Qed.

Lemma gem_line_texts result line :
  Forall (fun e => text_entry e.2 /\ wanted_is_latest e.2) result ->
  Forall (fun e => text_entry e.2 /\ wanted_is_latest e.2) (gem_line result line).
Proof.
  unfold gem_line. intros Hall.
  repeat case_match; simplify_eq; try done.
  apply set_prop_Forall; [done|]. split; [by eexists _, _, _|by eexists _, _].
Qed.

End SettledFacts.

Ltac settled_by lemma :=
  intros ? [= <-];
  first
    [ apply empty_object_satisfies
    | apply Object_entries_satisfy;
      eapply for_of_invariant; [apply lemma|constructor|eassumption]
    | apply Object_entries_satisfy;
      apply fold_left_invariant; [intros; by apply lemma|constructor] ].

Section SettledResolvers.
Context {rt : Runtime}.

Lemma getOutdatedPip_settled path s :
  post (getOutdatedPip path) s
    (fun _ o => forall mapping, o = Ok mapping -> entries_satisfy wanted_is_latest mapping).
Proof. unfold getOutdatedPip. wp. all: settled_by pip_item_settled. Qed.

Lemma getOutdatedGo_settled path s :
  post (getOutdatedGo path) s
    (fun _ o => forall mapping, o = Ok mapping -> entries_satisfy wanted_is_latest mapping).
Proof. unfold getOutdatedGo. wp. all: settled_by go_fragment_settled. Qed.

Lemma getOutdatedComposer_settled path s :
  post (getOutdatedComposer path) s
    (fun _ o => forall mapping, o = Ok mapping -> entries_satisfy wanted_is_latest mapping).
Proof. unfold getOutdatedComposer. wp. all: settled_by composer_item_settled. Qed.

Lemma getOutdatedGem_texts path s :
  post (getOutdatedGem path) s
    (fun _ o => forall mapping, o = Ok mapping ->
       entries_satisfy (fun pkg => text_entry pkg /\ wanted_is_latest pkg) mapping).
Proof. unfold getOutdatedGem. wp. all: settled_by gem_line_texts. Qed.

Lemma getOutdatedSwift_settled path s :
  post (getOutdatedSwift path) s
    (fun _ o => forall mapping, o = Ok mapping -> entries_satisfy wanted_is_latest mapping).
Proof. unfold getOutdatedSwift. wp. all: settled_by swift_pin_settled. Qed.

Lemma getOutdatedGradle_settled path s :
  post (getOutdatedGradle path) s
    (fun _ o => forall mapping, o = Ok mapping -> entries_satisfy wanted_is_latest mapping).
Proof. unfold getOutdatedGradle. wp. all: settled_by gradle_item_settled. Qed.

End SettledResolvers.

Lemma entries_satisfy_impl (P Q : value -> Prop) (mapping : value) :
  (forall pkg, P pkg -> Q pkg) -> entries_satisfy P mapping -> entries_satisfy Q mapping.
Proof.
  intros HPQ (entries & He & Hall). exists entries. split; [done|].
  eapply Forall_impl; [done|]. intros [k v]. apply HPQ.
Qed.

Lemma text_entry_versions (pkg : value) : text_entry pkg -> string_versions pkg.
Proof. intros (c & w & l & ->). by exists c, l. Qed.

Section SettledTheorems.
Context {rt : Runtime}.

(** X9. The resolvers of Python, Go, PHP, Ruby, Swift and Kotlin/Java do
    not tell the wanted version from the latest one: in every entry of the
    mapping [getOutdated] returns for these languages, wanted and latest
    are the same value. *)
Theorem getOutdated_wanted_is_latest (path : string) (info : ProjectInfo)
    (s s' : State) (mapping : value) :
  getOutdated path info s = (s', Ok mapping) ->
  language info ∈ [python; go; php; ruby; swift; kotlin] ->
  entries_satisfy wanted_is_latest mapping.
Proof.
  rewrite getOutdated_dispatch. intros Hrun Hl.
  repeat (apply elem_of_cons in Hl as [Hl|Hl]; [rewrite Hl in Hrun|]).
  - by eapply (post_elim _ _ _ _ _ (getOutdatedPip_settled path s) Hrun).
  - by eapply (post_elim _ _ _ _ _ (getOutdatedGo_settled path s) Hrun).
  - by eapply (post_elim _ _ _ _ _ (getOutdatedComposer_settled path s) Hrun).
  - eapply entries_satisfy_impl;
      [|by eapply (post_elim _ _ _ _ _ (getOutdatedGem_texts path s) Hrun)].
    by intros pkg [_ ?].
  - by eapply (post_elim _ _ _ _ _ (getOutdatedSwift_settled path s) Hrun).
  - by eapply (post_elim _ _ _ _ _ (getOutdatedGradle_settled path s) Hrun).
  - by apply elem_of_nil in Hl.
Qed.

Lemma getOutdated_ruby_typed (path : string) (info : ProjectInfo)
    (s s' : State) (mapping : value) :
  language info = ruby ->
  getOutdated path info s = (s', Ok mapping) ->
  typed_outdated mapping.
Proof.
  rewrite getOutdated_dispatch. intros -> Hrun.
  eapply (entries_satisfy_impl _ string_versions);
    [|by eapply (post_elim _ _ _ _ _ (getOutdatedGem_texts path s) Hrun)].
  intros pkg [Ht _]. by apply text_entry_versions.
Qed.

(** X10. For a Ruby project the versions of every entry are pieces of
    the output of [bundle outdated], so they are texts, and nothing that
    reads the mapping can throw: [computeHealthReport] returns a report
    from every state, and the scan loop of the checker gives an entry for
    the project, never skipping it. *)
Theorem ruby_report_returns (info : ProjectInfo) (s : State) :
  language info = ruby ->
  (exists s' r, computeHealthReport info s = (s', Ok r))
  /\ (exists s' e, scan_project info s = (s', Ok (Some e))).
Proof.
  intros Hl.
  destruct (getOutdated_returns (pi_path info) info s) as (s1 & outdated & Hout).
  destruct (getOutdated_ruby_typed _ _ _ _ _ Hl Hout) as (entries & He & Hty).
  destruct (count_major_typed _ Hty) as [n Hn].
  split.
  - unfold computeHealthReport, bind. rewrite Hout.
    unfold liftO. rewrite (Object_keys_entries _ _ He), He, Hn.
    destruct (some_exists_spec (pi_path info) LOCKFILES s1) as (b & -> & _).
    destruct (getSecurityIssues_returns (pi_path info) info s1) as (s2 & sec & ->).
    by eexists _, _.
  - unfold scan_project, try_catch, bind. rewrite Hout.
    unfold liftO. rewrite (Object_keys_entries _ _ He), He, Hn.
    unfold Date_now, ret. by eexists _, _.
Qed.

End SettledTheorems.

(** ** The Node resolver hands over what it parsed *)

Section PassThrough.
Context {rt : Runtime}.

(** X11. The Node resolver does not check the shape of what the tool
    printed: a document that is not an array is returned as it was parsed.
    When the document is [null], [computeHealthReport] throws a
    [TypeError], while the scan loop of the checker catches it and skips
    the project. *)
Theorem getOutdatedNpm_passes_through (info : ProjectInfo) (s : State)
    (res : exec_outcome) (w : World) (raw : string) (parsed : value) :
  let cmd := pm_name (packageManager info) +:+ " outdated --json" in
  let s1 := after_exec s cmd (Some (pi_path info)) res w in
  language info = node ->
  execSync cmd (Some (pi_path info)) (world s) = (res, w) ->
  run_output (Exec cmd (Some (pi_path info)) res) = Some raw ->
  Str.is_empty (Str.trim raw) = false ->
  JSON_parse raw = Some parsed ->
  (forall items, parsed <> VArr items) ->
  getOutdated (pi_path info) info s = (s1, Ok parsed)
  /\ (parsed = VNull ->
      computeHealthReport info s = (s1, Throw TypeError)
      /\ scan_project info s = (s1, Ok None)).
Proof.
  intros cmd s1 Hl Hexec Hout Hblank Hparse Harr.
  assert (Hrun : run cmd (pi_path info) s = (s1, Ok raw)).
  { unfold run, bind, exec. rewrite Hexec. subst s1. unfold after_exec.
    destruct res as [out|[out|]]; simpl in Hout.
    - by injection Hout as ->.
    - destruct (Str.is_empty out); [done|]. by injection Hout as ->.
    - done. }
  assert (Hget : getOutdated (pi_path info) info s = (s1, Ok parsed)).
  { rewrite getOutdated_dispatch, Hl. unfold getOutdatedNpm, try_catch, bind.
    fold cmd. rewrite Hrun, Hblank. unfold liftO, parse. rewrite Hparse.
    destruct parsed; try done. by destruct (Harr items). }
  split; [done|]. intros ->. split.
  - unfold computeHealthReport, bind. by rewrite Hget.
  - unfold scan_project, try_catch, bind. by rewrite Hget.
Qed.

End PassThrough.

(** ** The record of a project *)

Section RecordFacts.
Context {rt : Runtime}.

Lemma detectPackageManager_eq (dir : string) (s : State) :
  detectPackageManager dir s = (s, Ok (lockfile_manager s dir)).
Proof.
  unfold detectPackageManager, lockfile_manager, bind, existsSync, ret, present.
  repeat case_bool_decide; done.
Qed.

Lemma requirement_line_starred (deps : list (string * value)) (line : string) :
  Forall (fun kv => kv.2 = VStr "*") deps ->
  Forall (fun kv => kv.2 = VStr "*") (requirement_line deps line).
Proof.
  intros Hall. unfold requirement_line.
  repeat case_match; try done. by apply set_prop_Forall.
Qed.

(** What the manifest gives for a language other than Node. *)
Lemma read_manifest_shape (dir : string) (lang : Language) (s : State) :
  lang <> node ->
  exists m,
    read_manifest dir lang s = (s, Ok m)
    /\ m_nodeVersion m = VUndef
    /\ (lang <> php -> m_devDeps m = empty_object)
    /\ (lang = python -> starred (m_deps m))
    /\ (lang <> python -> lang <> php -> m_deps m = empty_object).
Proof.
  intros Hnode.
  unfold read_manifest, try_catch, bind, readFileSync, existsSync, liftO, parse, ret.
  destruct lang; try done.
  all: repeat case_match; simplify_eq.
  all: eexists; (split; [reflexivity|]); cbn [m_nodeVersion m_devDeps m_deps].
  all: repeat split; try done; intros.
  all: first
         [ by exists []
         | eexists; split; [reflexivity|];
           apply fold_left_invariant;
           [intros; by apply requirement_line_starred|done] ].
Qed.

(** X12. In the record [getProjectInfo] makes of a directory, the package
    manager of a Node project is the one its lockfiles name (bun before
    pnpm before yarn, npm otherwise: [package-lock.json] is never looked
    at), and the package manager of any other project is npm. Outside Node
    no runtime constraint is recorded; outside Node and PHP there are no
    development dependencies; a Python project has the version [*] for
    every dependency, and a project of another language than Node, Python
    and PHP has no dependency at all. *)
Theorem getProjectInfo_record (dir : string) (s s' : State) (info : ProjectInfo) :
  getProjectInfo dir s = (s', Ok (Some info)) ->
  packageManager info
  = (if bool_decide (language info = node) then lockfile_manager s dir else npm)
  /\ (language info <> node ->
      nodeVersion info = VUndef
      /\ (language info <> php -> devDependencies info = empty_object)
      /\ (language info = python -> starred (dependencies info))
      /\ (language info <> python -> language info <> php ->
          dependencies info = empty_object)).
Proof.
  unfold getProjectInfo, bind. rewrite detectLanguage_eq.
  destruct (marker_of_total (default node (spec_classify s dir))) as [marker ->].
  rewrite some_exists_eq.
  destruct (existsb _ (files marker)); cbn [negb]; [|done].
  set (lang := default node (spec_classify s dir)).
  destruct (returns_unchanged (detectFramework dir) s
              (detectFramework_returns _) (detectFramework_reads _)) as [fw Hfw].
  destruct (decide (lang = node)) as [Hn|Hn].
  - destruct (returns_unchanged (read_manifest dir lang) s
                (read_manifest_returns _ _) (read_manifest_reads _ _)) as [m ->].
    rewrite Hfw. rewrite (bool_decide_eq_true_2 _ Hn), detectPackageManager_eq.
    intros [= <- <-]. cbn [packageManager language].
    by rewrite (bool_decide_eq_true_2 _ Hn).
  - destruct (read_manifest_shape dir lang s Hn) as (m & -> & Hv & Hdev & Hpy & Hnone).
    rewrite Hfw. rewrite (bool_decide_eq_false_2 _ Hn).
    intros [= <- <-].
    cbn [packageManager language nodeVersion devDependencies dependencies].
    by rewrite (bool_decide_eq_false_2 _ Hn).
Qed.

End RecordFacts.

(** ** The framework of a directory *)

Lemma bind_ok {A B} (m : M A) (k : A -> M B) (s s' : State) (a : A) :
  m s = (s', Ok a) -> bind m k s = k a s'.
Proof. unfold bind. by intros ->. Qed.

Lemma framework_names_known : Forall (fun n => n <> "Unknown" /\ n <> EmptyString) FRAMEWORK_NAMES.
Proof. unfold FRAMEWORK_NAMES. simpl. repeat constructor; discriminate. Qed.

Section FrameworkFacts.
Context {rt : Runtime}.

Lemma detector_hit_eq (dir f : string) (s : State) :
  detector_hit dir f s = (s, Ok (detector_present s dir f)).
Proof.
  unfold detector_hit, detector_present, try_catch, bind, readdirSync, existsSync,
    ret, present.
  destruct (Str.startsWith "*." f); [|done].
  by destruct (fs (world s) !! dir) as [[text t|es t]|].
Qed.

Lemma some_hit_eq (dir : string) (names : list string) (s : State) :
  some_hit dir names s = (s, Ok (existsb (detector_present s dir) names)).
Proof.
  induction names as [|f names IH]; simpl; [done|].
  unfold bind. rewrite detector_hit_eq. by destruct (detector_present s dir f).
Qed.

Lemma framework_by_file_eq (dir : string) (ds : list (string * list string))
    (s : State) :
  framework_by_file dir ds s
  = (s, Ok (fst <$> List.find (fun d => existsb (detector_present s dir) (snd d)) ds)).
Proof.
  induction ds as [|[fw names] rest IH]; simpl; [done|].
  unfold bind. rewrite some_hit_eq. by destruct (existsb _ names).
Qed.

(** What the dependencies of [package.json] say of the framework. *)
Lemma sniff_spec (dir : string) (lang : Language) (s : State) :
  exists r,
    try_catch
      (if bool_decide (lang = node)
       then
         let* text := readFileSync (join dir "package.json") in
         let* pkg := liftO (parse text) in
         let* deps := liftO (JS.get pkg "dependencies") in
         let* devDeps := liftO (JS.get pkg "devDependencies") in
         ret (framework_by_dependency deps devDeps)
       else ret None)
      (ret None) s
    = (s, Ok r)
    /\ (lang <> node -> r = None)
    /\ (forall fw, r = Some fw -> fw ∈ map snd NODE_FRAMEWORKS).
Proof.
  unfold try_catch, bind, readFileSync, liftO, parse, ret.
  case_bool_decide; repeat case_match; simplify_eq;
    (eexists; split; [reflexivity|]); (split; [done|]); intros fw Hfw; try done.
  unfold framework_by_dependency in Hfw.
  destruct (List.find _ NODE_FRAMEWORKS) as [[k n]|] eqn:Ef; [|done].
  injection Hfw as <-. apply find_some in Ef as [Hin _].
  apply list_elem_of_In. apply in_map_iff. by exists (k, n).
Qed.

(** X13. [detectFramework] never throws and changes nothing. A file of
    [FRAMEWORK_DETECTORS] in the directory decides, the first framework of
    the table that has one, whatever the dependencies of [package.json]
    say; without such a file a project that is not a Node project gets the
    display name of its language. The answer is always one of the names
    of the tables: the fallback [Unknown] is never answered, nor the empty
    text. *)
Theorem detectFramework_spec (dir : string) (s : State) :
  exists fw,
    detectFramework dir s = (s, Ok fw)
    /\ fw ∈ FRAMEWORK_NAMES
    /\ fw <> "Unknown"
    /\ (forall d, framework_detected s dir = Some d -> fw = d)
    /\ (forall lang marker,
          framework_detected s dir = None ->
          spec_classify s dir = Some lang -> lang <> node ->
          marker_of lang = Some marker ->
          fw = name marker).
Proof.
  assert (Hknown : forall fw, fw ∈ FRAMEWORK_NAMES -> fw <> "Unknown").
  { intros fw Hin. pose proof framework_names_known as H.
    rewrite Forall_forall in H. by apply H. }
  unfold detectFramework.
  rewrite (bind_ok _ _ _ _ _ (framework_by_file_eq dir _ s)).
  fold (framework_detected s dir).
  destruct (framework_detected s dir) as [d|] eqn:Hd.
  - exists d. split; [done|].
    assert (Hin : d ∈ FRAMEWORK_NAMES).
    { unfold framework_detected in Hd.
      destruct (List.find _ FRAMEWORK_DETECTORS) as [[fw names]|] eqn:Ef; [|done].
      injection Hd as <-. apply find_some in Ef as [Hin _].
      unfold FRAMEWORK_NAMES. apply elem_of_app. left.
      apply list_elem_of_In, in_map_iff. by exists (fw, names). }
    split; [done|]. split; [by apply Hknown|]. split; [by intros ? [= <-]|done].
  - rewrite (bind_ok _ _ _ _ _ (detectLanguage_eq dir s)).
    set (lang := default node (spec_classify s dir)).
    destruct (sniff_spec dir lang s) as (r & Hr & Hother & Hnode).
    rewrite (bind_ok _ _ _ _ _ Hr).
    destruct r as [fw|].
    + exists fw. split; [done|].
      assert (Hin : fw ∈ FRAMEWORK_NAMES).
      { unfold FRAMEWORK_NAMES. apply elem_of_app. right. apply elem_of_app. left.
        by apply Hnode. }
      split; [done|]. split; [by apply Hknown|]. split; [done|].
      intros l m _ Hc Hl _. subst lang. rewrite Hc in Hother. by specialize (Hother Hl).
    + destruct (marker_of lang) as [marker|] eqn:Em;
        [|by destruct (marker_of_total lang) as [? ?]; simplify_eq].
      assert (Hname : name marker ∈ FRAMEWORK_NAMES).
      { unfold FRAMEWORK_NAMES. do 2 (apply elem_of_app; right).
        unfold marker_of in Em.
        destruct (List.find _ LANGUAGE_MARKERS) as [[l m]|] eqn:Ef; [|done].
        injection Em as <-. apply find_some in Ef as [Hin _].
        apply list_elem_of_In, in_map_iff. by exists (l, m). }
      assert (Hne : Str.is_empty (name marker) = false).
      { pose proof framework_names_known as H. rewrite Forall_forall in H.
        destruct (H _ Hname) as [_ Hn]. by destruct (name marker). }
      rewrite Hne. exists (name marker). split; [done|]. split; [done|].
      split; [by apply Hknown|]. split; [done|].
      intros l m _ Hc _ Hm. subst lang. rewrite Hc in Em. simpl in Em. congruence.
Qed.

End FrameworkFacts.

(** ** The entries of a scan and the projects they come from *)

Section ScanOrder.
Context {rt : Runtime}.




End ScanOrder.

(** ** Ecosystem groups *)

Lemma alternation_test_prefix (alts : list string) (name : string) :
  alternation_test alts name = existsb (fun a => String.prefix a name) alts.
Proof.
  unfold alternation_test. induction alts as [|a alts IH]; simpl; [done|].
  rewrite IH. f_equal. unfold Regex.exec. cbn [Regex.anchored Regex.atoms Regex.match_here].
  by destruct (String.prefix a name).
Qed.

Lemma group_items_push (g g' : string) (item : string * value)
    (groups : list (string * list (string * value))) :
  group_items g' (push_group g item groups)
  = if String.eqb g' g then (group_items g groups ++ [item])%list
    else group_items g' groups.
Proof.
  unfold group_items. induction groups as [|[g0 items] rest IH]; simpl.
  - destruct (String.eqb_spec g' g) as [->|Hne]; simpl; [done|done].
  - destruct (String.eqb_spec g g0) as [->|Hne]; simpl.
    + destruct (String.eqb_spec g' g0) as [->|Hne']; simpl; [done|].
      done.
    + destruct (String.eqb_spec g' g0) as [->|Hne']; simpl.
      * destruct (String.eqb_spec g0 g) as [->|_]; [done|done].
      * apply IH.
Qed.

Lemma push_group_names (g : string) (item : string * value)
    (groups : list (string * list (string * value))) :
  NoDup (map fst groups) ->
  NoDup (map fst (push_group g item groups))
  /\ forall x, x ∈ map fst (push_group g item groups) <-> x = g \/ x ∈ map fst groups.
Proof.
  induction groups as [|[g0 items] rest IH]; simpl.
  - intros _. split; [apply NoDup_singleton|].
    intros x. rewrite elem_of_cons, elem_of_nil. tauto.
  - intros [Hg0 Hrest]%NoDup_cons. destruct (IH Hrest) as [IH1 IH2].
    destruct (String.eqb_spec g g0) as [->|Hne]; simpl.
    + split; [by constructor|]. intros x. rewrite elem_of_cons. tauto.
    + split.
      * constructor; [|done]. rewrite IH2. intros [?|?]; [congruence|done].
      * intros x. rewrite elem_of_cons, IH2, elem_of_cons. tauto.
Qed.

Lemma push_group_filled (g : string) (item : string * value)
    (groups : list (string * list (string * value))) :
  Forall (fun e => e.2 <> []) groups ->
  Forall (fun e => e.2 <> []) (push_group g item groups).
Proof.
  induction 1 as [|[g0 items] rest Hne Hrest IH]; simpl.
  - by repeat constructor.
  - destruct (String.eqb g g0); constructor; try done. simpl. by destruct items.
Qed.

Lemma ecosystem_of_known (name : string) :
  ecosystem_of name = "other" \/ ecosystem_of name ∈ map fst ECOSYSTEM_GROUPS.
Proof.
  unfold ecosystem_of.
  destruct (List.find _ ECOSYSTEM_GROUPS) as [[g alts]|] eqn:E; [|by left].
  right. apply find_some in E as [Hin _].
  apply list_elem_of_In, in_map_iff. by exists (g, alts).
Qed.

(** What the loop of [groupByEcosystem] keeps true of the groups, after
    the entries [seen]. *)
Lemma group_fold_spec (entries seen : list (string * value))
    (groups : list (string * list (string * value))) :
  NoDup (map fst groups) ->
  Forall (fun e => e.2 <> []) groups ->
  (forall g, g ∈ map fst groups -> g = "other" \/ g ∈ map fst ECOSYSTEM_GROUPS) ->
  (forall g, group_items g groups
             = filter (fun e => String.eqb (ecosystem_of e.1) g = true) seen) ->
  let result := fold_left (fun groups e => push_group (ecosystem_of (fst e)) e groups)
                          entries groups in
  NoDup (map fst result)
  /\ Forall (fun e => e.2 <> []) result
  /\ (forall g, g ∈ map fst result -> g = "other" \/ g ∈ map fst ECOSYSTEM_GROUPS)
  /\ (forall g, group_items g result
                = filter (fun e => String.eqb (ecosystem_of e.1) g = true)
                         (seen ++ entries)%list).
Proof.
  revert seen groups. induction entries as [|e entries IH]; intros seen groups; simpl.
  - intros Hn Hf Hk Hg. rewrite app_nil_r. done.
  - intros Hn Hf Hk Hg.
    destruct (push_group_names (ecosystem_of e.1) e groups Hn) as [Hn' Hin'].
    specialize (IH (seen ++ [e])%list (push_group (ecosystem_of e.1) e groups)).
    rewrite <- app_assoc in IH. apply IH.
    + done.
    + by apply push_group_filled.
    + intros g Hgin. apply Hin' in Hgin as [->|?]; [apply ecosystem_of_known|by apply Hk].
    + intros g. rewrite group_items_push, filter_app, Hg.
      rewrite filter_cons, filter_nil.
      destruct (String.eqb_spec g (ecosystem_of e.1)) as [->|Hne].
      * rewrite decide_True by apply String.eqb_refl. done.
      * rewrite decide_False; [by rewrite app_nil_r|].
        intros Heq%String.eqb_eq. done.
Qed.

(** X15. [groupByEcosystem] sorts the entries of the mapping into groups
    without losing or repeating any: the packages of a group are exactly the
    entries of the mapping whose name falls in that ecosystem, in the order
    of the mapping. No group is listed twice, none is empty, and every group
    is an ecosystem of the table or [other]. On [null] and [undefined] it
    throws a [TypeError]. *)
Theorem groupByEcosystem_partition (outdated : value) :
  match JS.Object_entries outdated with
  | Ok entries =>
      exists groups,
        groupByEcosystem outdated = Ok groups
        /\ NoDup (map fst groups)
        /\ Forall (fun e => e.2 <> []) groups
        /\ (forall g, g ∈ map fst groups -> g = "other" \/ g ∈ map fst ECOSYSTEM_GROUPS)
        /\ (forall g, group_items g groups
                      = filter (fun e => String.eqb (ecosystem_of e.1) g = true) entries)
  | Throw e => groupByEcosystem outdated = Throw e
  end.
Proof.
  unfold groupByEcosystem.
  destruct (JS.Object_entries outdated) as [entries|e]; [|done]. simpl.
  eexists. split; [reflexivity|].
  apply (group_fold_spec entries [] []); try done; [constructor|].
  intros g Hg. by apply elem_of_nil in Hg.
Qed.

Lemma find_all_false {A} (f : A -> bool) (l : list A) :
  (forall x, In x l -> f x = false) -> List.find f l = None.
Proof.
  induction l as [|x l IH]; simpl; [done|]. intros H.
  rewrite (H x) by (by left). apply IH. intros y Hy. apply H. by right.
Qed.

Lemma prefix_append (p s : string) :
  String.prefix p s = true -> exists rest, s = p +:+ rest.
Proof.
  revert s. induction p as [|c p IH]; intros s.
  - intros _. by exists s.
  - destruct s as [|d s]; [intros H; discriminate H|].
    rewrite prefix_char. intros [Hc H]%andb_true_iff.
    apply Ascii.eqb_eq in Hc as ->.
    destruct (IH s H) as [rest ->]. by exists rest.
Qed.

(** X16. The group of a package is the first ecosystem of the table with
    an alternative that starts the name, and [other] when no alternative
    does. So every name that starts with [vitest] is in the group [vite],
    whose alternative [vite] comes first: the alternative [vitest] of the
    group [testing] never decides. *)
Theorem ecosystem_of_first_match (name : string) :
  (ecosystem_of name = "other"
   <-> forall g alts a, In (g, alts) ECOSYSTEM_GROUPS -> In a alts ->
                        String.prefix a name = false)
  /\ (String.prefix "vitest" name = true -> ecosystem_of name = "vite")
  /\ (ecosystem_of name = "testing" ->
      String.prefix "@testing-library/" name = true
      \/ String.prefix "playwright" name = true
      \/ String.prefix "@playwright/" name = true).
Proof.
  assert (Hvitest : String.prefix "vitest" name = true -> ecosystem_of name = "vite").
  { intros [rest ->]%prefix_append. by vm_compute. }
  split; [|split; [done|]].
  - unfold ecosystem_of.
    destruct (List.find _ ECOSYSTEM_GROUPS) as [[g alts]|] eqn:E.
    + apply find_some in E as [Hin Ht]. cbn [fst snd] in *. split.
      * intros ->. exfalso. unfold ECOSYSTEM_GROUPS in Hin. simpl in Hin.
        repeat destruct Hin as [[=]|Hin]; done.
      * intros Hnone. exfalso. rewrite alternation_test_prefix in Ht.
        apply existsb_exists in Ht as (a & Ha & Hp).
        by rewrite (Hnone g alts a Hin Ha) in Hp.
    + split; [|done]. intros _ g alts a Hin Ha.
      pose proof (find_none _ _ E (g, alts) Hin) as Ht. cbn [snd] in Ht.
      rewrite alternation_test_prefix in Ht.
      destruct (String.prefix a name) eqn:Hp; [|done].
      assert (existsb (fun a => String.prefix a name) alts = true) as Hex
        by (apply existsb_exists; by exists a).
      congruence.
  - intros Ht.
    destruct (String.prefix "vitest" name) eqn:Hv;
      [rewrite Hvitest in Ht by done; discriminate|].
    unfold ecosystem_of in Ht.
    destruct (List.find _ ECOSYSTEM_GROUPS) as [[g alts]|] eqn:E; [|discriminate].
    apply find_some in E as [Hin Hm]. cbn [fst snd] in *. subst g.
    rewrite alternation_test_prefix in Hm.
    unfold ECOSYSTEM_GROUPS in Hin. simpl in Hin.
    repeat destruct Hin as [[= <-]|Hin]; try done.
    simpl in Hm. rewrite ?orb_false_r in Hm.
    change (String.prefix "vitest" name || (String.prefix "@testing-library/" name
            || (String.prefix "playwright" name || String.prefix "@playwright/" name))
            = true) in Hm.
    rewrite Hv in Hm. simpl in Hm.
    apply orb_true_iff in Hm as [?|Hm]; [by left|].
    apply orb_true_iff in Hm as [?|?]; [right; by left|right; by right].
Qed.

(** ** The limit on the length of a text *)

Lemma length_take (n : nat) (s : string) :
  String.length (Str.take n s) = Nat.min n (String.length s).
Proof.
  revert s. induction n as [|n IH]; intros [|c s]; simpl; try done. by rewrite IH.
Qed.

Lemma take_drop (n : nat) (s : string) : Str.take n s +:+ Str.drop n s = s.
Proof.
  revert s. induction n as [|n IH]; intros [|c s]; simpl; try done. by rewrite IH.
Qed.

Lemma truncated_length : String.length TRUNCATED = 17%nat.
Proof. reflexivity. Qed.

(** X17. [truncate] never returns a text longer than [CHARACTER_LIMIT]. A
    text within the limit is returned as it is; a longer one is cut to its
    first [CHARACTER_LIMIT - 100] characters, followed by the mark that says
    so. *)
Theorem truncate_bound (text : string) :
  Z.of_nat (String.length (truncate text)) <= CHARACTER_LIMIT
  /\ (Z.of_nat (String.length text) <= CHARACTER_LIMIT -> truncate text = text)
  /\ (CHARACTER_LIMIT < Z.of_nat (String.length text) ->
      exists kept cut,
        text = kept +:+ cut
        /\ truncate text = kept +:+ TRUNCATED
        /\ Z.of_nat (String.length kept) = CHARACTER_LIMIT - 100).
Proof.
  unfold truncate, CHARACTER_LIMIT.
  destruct (Z.leb_spec (Z.of_nat (String.length text)) 25000) as [Hle|Hgt].
  - split; [done|]. split; [done|]. lia.
  - split; [|split; [lia|]].
    + rewrite length_append, length_take, truncated_length. lia.
    + intros _. exists (Str.take (Z.to_nat (25000 - 100)) text),
                       (Str.drop (Z.to_nat (25000 - 100)) text).
      split; [by rewrite take_drop|]. split; [done|].
      rewrite length_take. lia.
Qed.

(** ** Objects built property by property, and their copies *)

Lemma lookup_define_prop_ne (k k' : string) (v : value) (props : list (string * value)) :
  k <> k' -> JS.lookup_prop k (JS.define_prop k' v props) = JS.lookup_prop k props.
Proof.
  intros Hne. induction props as [|[k0 v0] rest IH]; simpl.
  - by rewrite (proj2 (String.eqb_neq _ _) Hne).
  - destruct (String.eqb_spec k' k0) as [->|Hne0]; simpl.
    + by rewrite (proj2 (String.eqb_neq _ _) Hne).
    + by rewrite IH.
Qed.

Lemma lookup_prop_absent (k : string) (props : list (string * value)) :
  k ∉ map fst props -> JS.lookup_prop k props = None.
Proof.
  induction props as [|[k0 v0] rest IH]; simpl; [done|].
  rewrite not_elem_of_cons. intros [Hne Hrest]. rewrite IH by done.
  by rewrite (proj2 (String.eqb_neq _ _) Hne).
Qed.

Lemma lookup_define_prop_eq (k : string) (v : value) (props : list (string * value)) :
  NoDup (map fst props) -> JS.lookup_prop k (JS.define_prop k v props) = Some v.
Proof.
  induction props as [|[k0 v0] rest IH]; simpl.
  - intros _. by rewrite String.eqb_refl.
  - intros [Hk0 Hrest]%NoDup_cons.
    destruct (String.eqb_spec k k0) as [->|Hne]; simpl.
    + rewrite lookup_prop_absent by done. by rewrite String.eqb_refl.
    + by rewrite IH.
Qed.

Lemma define_prop_keys (k : string) (v : value) (props : list (string * value)) :
  NoDup (map fst props) ->
  NoDup (map fst (JS.define_prop k v props))
  /\ forall x, x ∈ map fst (JS.define_prop k v props) <-> x = k \/ x ∈ map fst props.
Proof.
  induction props as [|[k0 v0] rest IH]; simpl.
  - intros _. split; [apply NoDup_singleton|].
    intros x. rewrite elem_of_cons, elem_of_nil. tauto.
  - intros [Hk0 Hrest]%NoDup_cons. destruct (IH Hrest) as [IH1 IH2].
    destruct (String.eqb_spec k k0) as [->|Hne]; simpl.
    + split; [by constructor|]. intros x. rewrite elem_of_cons. tauto.
    + split.
      * constructor; [|done]. rewrite IH2. intros [?|?]; [congruence|done].
      * intros x. rewrite elem_of_cons, IH2, elem_of_cons. tauto.
Qed.

(** Setting the properties [bs] one after the other: the last value set
    for a name is its value, and a name that is not set keeps its own. *)
Lemma fold_set_lookup (k : string) (bs props : list (string * value)) :
  NoDup (map fst props) ->
  JS.lookup_prop k
    (fold_left (fun props kv => JS.define_prop (fst kv) (snd kv) props) bs props)
  = match JS.lookup_prop k bs with
    | Some v => Some v
    | None => JS.lookup_prop k props
    end.
Proof.
  revert props. induction bs as [|[k0 v0] bs IH]; intros props Hnd; simpl; [done|].
  rewrite IH by (by apply define_prop_keys).
  destruct (JS.lookup_prop k bs); [done|].
  destruct (String.eqb_spec k k0) as [->|Hne].
  - by apply lookup_define_prop_eq.
  - by apply lookup_define_prop_ne.
Qed.

Lemma dedup_keys_NoDup (seen : list string) (props : list (string * value)) :
  NoDup (JS.dedup_keys seen props)
  /\ forall k, k ∈ JS.dedup_keys seen props -> existsb (String.eqb k) seen = false.
Proof.
  revert seen. induction props as [|[k0 v0] rest IH]; intros seen; simpl.
  - split; [constructor|]. intros k Hk. by apply elem_of_nil in Hk.
  - destruct (existsb (String.eqb k0) seen) eqn:E; [apply IH|].
    destruct (IH (k0 :: seen)) as [IH1 IH2]. split.
    + constructor; [|done]. intros Hin. specialize (IH2 _ Hin). simpl in IH2.
      by rewrite String.eqb_refl in IH2.
    + intros k [->|Hin]%elem_of_cons; [done|].
      specialize (IH2 _ Hin). simpl in IH2. by apply orb_false_iff in IH2 as [_ ?].
Qed.

Lemma map_fst_combine {A B} (l : list A) (l' : list B) :
  length l = length l' -> map fst (combine l l') = l.
Proof.
  revert l'. induction l as [|x l IH]; intros [|y l']; simpl; try done.
  intros [= H]. by rewrite IH.
Qed.

Lemma index_keys_NoDup (n : nat) : NoDup (JS.index_keys n).
Proof.
  unfold JS.index_keys.
  apply (NoDup_fmap_2_strong (fun i => pretty (Z.of_nat i))); [|apply NoDup_seq].
  intros i j _ _ H. apply (inj pretty) in H. lia.
Qed.

(** The copy of a value has no property twice. *)
Lemma spread_NoDup (v : value) : NoDup (map fst (spread v)).
Proof.
  unfold spread. destruct v as [| |b|n|t|items|props]; simpl; try constructor.
  - rewrite map_fst_combine; [apply index_keys_NoDup|].
    unfold JS.index_keys, JS.char_values.
    rewrite !length_map, length_seq. clear.
    induction t as [|c t IH]; simpl; [done|]. by rewrite IH.
  - rewrite map_fst_combine; [apply index_keys_NoDup|].
    unfold JS.index_keys. by rewrite length_map, length_seq.
  - rewrite map_map. simpl. rewrite map_id. apply dedup_keys_NoDup.
Qed.

(** A property of the merged object is the property of the second object
    when it has one, and of the first otherwise. *)
Lemma merge_lookup (a b : value) (k : string) :
  JS.get (merge a b) k
  = Ok (default VUndef
          (match JS.lookup_prop k (spread b) with
           | Some v => Some v
           | None => JS.lookup_prop k (spread a)
           end)).
Proof.
  unfold merge. cbn [JS.get]. by rewrite fold_set_lookup by apply spread_NoDup.
Qed.

(** ** Configuration *)

Section ConfigFacts.
Context {rt : Runtime} {pr : Process}.

(** What one configuration file gives [getProjectsDir]. *)
Lemma config_dir_spec (configPath : string) (s : State) :
  exists found,
    try_catch
      (let* text := readFileSync configPath in
       let* config := liftO (parse text) in
       let* dir := liftO (JS.get config "projectsDir") in
       if JS.truthy dir
       then
         let* there := existsSync_value dir in
         if there
         then let* resolved := liftO (resolve_value dir) in ret (Some resolved)
         else ret None
       else ret None)
      (ret None) s
    = (s, Ok found)
    /\ (forall d, found = Some d -> present s d = true)
    /\ (forall text t config p,
          fs (world s) !! configPath = Some (File text t) ->
          JSON_parse text = Some config ->
          JS.get config "projectsDir" = Ok (VStr p) ->
          Str.is_empty p = false ->
          present s (resolve p) = true ->
          found = Some (resolve p)).
Proof.
  unfold try_catch, bind, readFileSync, liftO, parse, existsSync_value,
    resolve_value, existsSync, ret, present.
  repeat case_match; simplify_eq.
  all: eexists; (split; [reflexivity|]); split;
    [intros d' Hd; simplify_eq; try done
    |intros text' t' config' p' Hf' Hp' Hg' Hne' Hpr'; simplify_eq;
     repeat match goal with
       | H : ?x = _, H' : ?x = _ |- _ => rewrite H in H'; simplify_eq
       end;
     simpl in *; try congruence; try done;
     try (match goal with H : Str.is_empty ?p = false |- _ => rewrite H in * end;
          done)].
Qed.

Lemma dir_from_configs_spec (paths : list string) (s : State) :
  exists r,
    dir_from_configs paths s = (s, Ok r)
    /\ (forall d, r = Some d -> present s d = true)
    /\ (Forall (fun p => present s p = false) paths -> r = None)
    /\ (forall configPath rest text t config p,
          paths = configPath :: rest ->
          fs (world s) !! configPath = Some (File text t) ->
          JSON_parse text = Some config ->
          JS.get config "projectsDir" = Ok (VStr p) ->
          Str.is_empty p = false ->
          present s (resolve p) = true ->
          r = Some (resolve p)).
Proof.
  induction paths as [|configPath rest (r & Hr & Hp & Hnone & _)]; simpl.
  - exists None. split; [done|]. split; [done|]. split; [done|]. done.
  - unfold bind at 1. unfold existsSync at 1. fold (present s configPath).
    destruct (present s configPath) eqn:Epr.
    + destruct (config_dir_spec configPath s) as (found & Hf & Hfp & Hfirst).
      rewrite (bind_ok _ _ _ _ _ Hf). destruct found as [d|].
      * exists (Some d). split; [done|]. split; [done|].
        split; [intros H; inv H; congruence|].
        intros ? ? text t config p [= <- <-] Hfile Hparse Hget Hne Hthere.
        by rewrite <- (Hfirst _ _ _ _ Hfile Hparse Hget Hne Hthere).
      * exists r. split; [done|]. split; [done|].
        split; [intros H; inv H; congruence|].
        intros ? ? text t config p [= <- <-] Hfile Hparse Hget Hne Hthere.
        by specialize (Hfirst _ _ _ _ Hfile Hparse Hget Hne Hthere).
    + exists r. split; [done|]. split; [done|].
      split; [intros H; inv H; by apply Hnone|].
      intros ? ? text t config p [= <- <-] Hfile.
      unfold present in Epr. rewrite Hfile in Epr.
      by rewrite bool_decide_eq_true_2 in Epr by eauto.
Qed.

Lemma first_existing_spec (dirs : list string) (s : State) :
  exists r,
    first_existing dirs s = (s, Ok r)
    /\ (forall d, r = Some d -> present s d = true)
    /\ (Forall (fun p => present s p = false) dirs -> r = None).
Proof.
  induction dirs as [|dir rest (r & Hr & Hp & Hnone)]; simpl.
  - by exists None.
  - unfold bind, existsSync. fold (present s dir).
    destruct (present s dir) eqn:Epr.
    + exists (Some dir). split; [done|]. split; [by intros ? [= <-]|].
      intros H. inv H. congruence.
    + exists r. split; [done|]. split; [done|]. intros H. inv H. by apply Hnone.
Qed.

Lemma env_dir_spec (s : State) :
  exists r,
    match env_DEPUP_PROJECTS_DIR with
    | Some envDir =>
        if Str.is_empty envDir then ret None else
        let* there := existsSync (resolve envDir) in
        if there then ret (Some (resolve envDir)) else ret None
    | None => ret None
    end s = (s, Ok r)
    /\ (forall d, r = Some d -> present s d = true)
    /\ (forall e, env_DEPUP_PROJECTS_DIR = Some e -> Str.is_empty e = false ->
                  present s (resolve e) = true -> r = Some (resolve e))
    /\ (env_DEPUP_PROJECTS_DIR = None -> r = None).
Proof.
  destruct env_DEPUP_PROJECTS_DIR as [e|]; [|by exists None].
  destruct (Str.is_empty e) eqn:Ee.
  - exists None. split; [done|]. split; [done|]. split; [|done].
    intros ? [= <-]. congruence.
  - unfold bind, existsSync, ret. fold (present s (resolve e)).
    destruct (present s (resolve e)) eqn:Epr.
    + exists (Some (resolve e)). split; [done|]. split; [by intros ? [= <-]|].
      split; [by intros ? [= <-]|done].
    + exists None. split; [done|]. split; [done|]. split; [|done].
      intros ? [= <-]. congruence.
Qed.

Lemma getProjectsDir_facts (s : State) :
  exists d,
    getProjectsDir s = (s, Ok d)
    /\ (present s d = true \/ d = join homedir "Projects")
    /\ (forall text t config p,
          fs (world s) !! join homedir ".depsonarrc.json" = Some (File text t) ->
          JSON_parse text = Some config ->
          JS.get config "projectsDir" = Ok (VStr p) ->
          Str.is_empty p = false ->
          present s (resolve p) = true ->
          d = resolve p)
    /\ (Forall (fun p => present s p = false) CONFIG_PATHS ->
        (forall e, env_DEPUP_PROJECTS_DIR = Some e -> Str.is_empty e = false ->
                   present s (resolve e) = true -> d = resolve e)
        /\ (env_DEPUP_PROJECTS_DIR = None ->
            Forall (fun p => present s p = false) DEFAULT_PROJECTS_DIRS ->
            d = join homedir "Projects")).
Proof.
  unfold getProjectsDir.
  destruct (dir_from_configs_spec CONFIG_PATHS s) as (r & Hr & Hp & Hnone & Hfirst).
  rewrite (bind_ok _ _ _ _ _ Hr).
  assert (Hconfig : forall text t config p,
            fs (world s) !! join homedir ".depsonarrc.json" = Some (File text t) ->
            JSON_parse text = Some config ->
            JS.get config "projectsDir" = Ok (VStr p) ->
            Str.is_empty p = false ->
            present s (resolve p) = true ->
            r = Some (resolve p)).
  { intros text t config p Hfile Hparse Hget Hne Hthere.
    by apply (Hfirst _ _ _ _ _ _ eq_refl Hfile Hparse Hget Hne Hthere). }
  destruct r as [d|].
  - exists d. split; [done|]. split; [left; by apply Hp|]. split.
    + intros text t config p Hfile Hparse Hget Hne Hthere.
      specialize (Hconfig _ _ _ _ Hfile Hparse Hget Hne Hthere). congruence.
    + intros Hall. by specialize (Hnone Hall).
  - destruct (env_dir_spec s) as (e & He & Hep & Henv & Hnoenv).
    rewrite (bind_ok _ _ _ _ _ He). destruct e as [d|].
    + exists d. split; [done|]. split; [left; by apply Hep|].
      split; [intros text t config p Hf' Hp' Hg' Hne' Hpr';
         by specialize (Hconfig text t config p Hf' Hp' Hg' Hne' Hpr')|].
      intros _. split.
      * intros e Ee Hne Hthere. specialize (Henv _ Ee Hne Hthere). congruence.
      * intros Hn. by specialize (Hnoenv Hn).
    + destruct (first_existing_spec DEFAULT_PROJECTS_DIRS s) as (f & Hf & Hfp & Hfnone).
      rewrite (bind_ok _ _ _ _ _ Hf).
      destruct f as [d|]; eexists; (split; [reflexivity|]);
        (split; [first [left; by apply Hfp|by right]|]);
        (split; [intros text t config p Hf' Hp' Hg' Hne' Hpr';
         by specialize (Hconfig text t config p Hf' Hp' Hg' Hne' Hpr')|]);
        intros _; split.
      * intros e Ee Hne Hthere. by specialize (Henv _ Ee Hne Hthere).
      * intros _ Hall. by specialize (Hfnone Hall).
      * intros e Ee Hne Hthere. by specialize (Henv _ Ee Hne Hthere).
      * done.
Qed.

(** X18. [getProjectsDir] never throws and changes nothing. The directory
    it answers is there, unless it is the last resort, [Projects] in the
    home directory, which is answered without a look. A [projectsDir] of
    the first configuration file that is there decides; without any
    configuration file the environment variable decides when what it
    names is there; and with no configuration file, no variable and none
    of the usual directories, the answer is the last resort. *)
Theorem getProjectsDir_spec (s : State) :
  exists d,
    getProjectsDir s = (s, Ok d)
    /\ (present s d = true \/ d = join homedir "Projects")
    /\ (forall text t config p,
          fs (world s) !! join homedir ".depsonarrc.json" = Some (File text t) ->
          JSON_parse text = Some config ->
          JS.get config "projectsDir" = Ok (VStr p) ->
          Str.is_empty p = false ->
          present s (resolve p) = true ->
          d = resolve p)
    /\ (Forall (fun p => present s p = false) CONFIG_PATHS ->
        (forall e, env_DEPUP_PROJECTS_DIR = Some e -> Str.is_empty e = false ->
                   present s (resolve e) = true -> d = resolve e)
        /\ (env_DEPUP_PROJECTS_DIR = None ->
            Forall (fun p => present s p = false) DEFAULT_PROJECTS_DIRS ->
            d = join homedir "Projects")).
Proof. apply getProjectsDir_facts. Qed.

(** What one configuration file gives [loadConfig]. *)
Lemma load_file_spec (configPath : string) (s : State) :
  exists loaded,
    try_catch
      (let* text := readFileSync configPath in
       let* raw := liftO (parse text) in
       let* dir := liftO (JS.get raw "projectsDir") in
       let* projectsDir :=
         if JS.truthy dir then liftO (resolve_value dir)
         else getProjectsDir in
       let* ignored := liftO (JS.get raw "ignoredPackages") in
       ret (Some (config_object projectsDir (JS.or_else ignored (VArr [])))))
      (ret None) s
    = (s, Ok loaded)
    /\ (forall c, loaded = Some c -> exists d ip, c = config_object d ip)
    /\ (forall text t raw p,
          fs (world s) !! configPath = Some (File text t) ->
          JSON_parse text = Some raw ->
          JS.get raw "projectsDir" = Ok (VStr p) ->
          Str.is_empty p = false ->
          exists ip, loaded = Some (config_object (resolve p) ip)).
Proof.
  destruct (getProjectsDir_facts s) as (d0 & Hd0 & _).
  unfold try_catch, bind, readFileSync, liftO, parse, resolve_value, ret.
  repeat (case_match; simplify_eq; rewrite ?Hd0 in *; simplify_eq).
  all: eexists; (split; [reflexivity|]); split;
    [intros c Hc; simplify_eq; try done; by eexists _, _
    |intros text' t' raw' p' Hf' Hp' Hg' Hne'; simplify_eq;
     repeat match goal with
       | H : ?x = _, H' : ?x = _ |- _ => rewrite H in H'; simplify_eq
       end;
     simpl in *; try congruence; try done;
     try (match goal with H : Str.is_empty ?p = false |- _ => rewrite H in * end;
          done);
     try (match goal with
          | H : JS.get ?v _ = Ok _, H' : JS.get ?v _ = Throw _ |- _ =>
              destruct v; discriminate
          end);
     try (by eexists)].
Qed.

Lemma load_from_spec (paths : list string) (s : State) :
  exists d ip,
    load_from paths s = (s, Ok (config_object d ip))
    /\ (forall configPath rest text t raw p,
          paths = configPath :: rest ->
          fs (world s) !! configPath = Some (File text t) ->
          JSON_parse text = Some raw ->
          JS.get raw "projectsDir" = Ok (VStr p) ->
          Str.is_empty p = false ->
          d = resolve p).
Proof.
  induction paths as [|configPath rest (d & ip & Hrest & _)]; simpl.
  - destruct (getProjectsDir_facts s) as (d0 & Hd0 & _).
    rewrite (bind_ok _ _ _ _ _ Hd0). by eexists _, _.
  - unfold bind at 1. unfold existsSync at 1. fold (present s configPath).
    destruct (present s configPath) eqn:Epr.
    + destruct (load_file_spec configPath s) as (loaded & Hl & Hshape & Hfirst).
      rewrite (bind_ok _ _ _ _ _ Hl). destruct loaded as [c|].
      * destruct (Hshape c eq_refl) as (d' & ip' & ->).
        exists d', ip'. split; [done|].
        intros ? ? text t raw p [= <- <-] Hfile Hparse Hget Hne.
        destruct (Hfirst _ _ _ _ Hfile Hparse Hget Hne) as [ip'' Heq].
        by injection Heq.
      * exists d, ip. split; [done|].
        intros ? ? text t raw p [= <- <-] Hfile Hparse Hget Hne.
        by destruct (Hfirst _ _ _ _ Hfile Hparse Hget Hne).
    + exists d, ip. split; [done|].
      intros ? ? text t raw p [= <- <-] Hfile.
      unfold present in Epr. rewrite Hfile in Epr.
      by rewrite bool_decide_eq_true_2 in Epr by eauto.
Qed.

Lemma loadConfig_facts (s : State) :
  exists d ip,
    loadConfig s = (s, Ok (config_object d ip))
    /\ (forall text t raw p,
          fs (world s) !! join homedir ".depsonarrc.json" = Some (File text t) ->
          JSON_parse text = Some raw ->
          JS.get raw "projectsDir" = Ok (VStr p) ->
          Str.is_empty p = false ->
          d = resolve p).
Proof.
  destruct (load_from_spec CONFIG_PATHS s) as (d & ip & Hl & Hfirst).
  exists d, ip. split; [done|]. intros text t raw p.
  by apply (Hfirst _ _ text t raw p eq_refl).
Qed.

(** X19. [loadConfig] never throws and changes nothing, and what it
    answers has two properties, [projectsDir] and [ignoredPackages], and
    no other: whatever else a configuration file holds is dropped. So the
    list of the projects to update by themselves, read from what
    [loadConfig] answers, is always empty, also after [saveConfig] saved
    one. The [projectsDir] of the first configuration file is answered
    resolved, whether it is there or not. *)
Theorem loadConfig_keys (s : State) :
  exists d ip,
    loadConfig s = (s, Ok (config_object d ip))
    /\ (forall k, k <> "projectsDir" -> k <> "ignoredPackages" ->
                  JS.get (config_object d ip) k = Ok VUndef)
    /\ autoUpdate_list s = (s, Ok (VArr []))
    /\ (forall text t raw p,
          fs (world s) !! join homedir ".depsonarrc.json" = Some (File text t) ->
          JSON_parse text = Some raw ->
          JS.get raw "projectsDir" = Ok (VStr p) ->
          Str.is_empty p = false ->
          d = resolve p).
Proof.
  destruct (loadConfig_facts s) as (d & ip & Hl & Hfirst).
  exists d, ip. split; [done|]. split; [|split; [|done]].
  - intros k H1 H2. unfold config_object. cbn [JS.get JS.lookup_prop].
    apply String.eqb_neq in H1, H2. by rewrite H1, H2.
  - unfold autoUpdate_list. rewrite (bind_ok _ _ _ _ _ Hl). done.
Qed.

Lemma saveConfig_writes (config existing : value) (s : State) :
  saved_before s existing ->
  saveConfig config s
  = ({| world :=
          {| fs := <[join homedir ".depsonarrc.json" :=
                       File (JSON_stringify (merge existing config) +:+ LF)
                            (clock (world s))]> (fs (world s));
             clock := clock (world s) |};
        trace := trace s |},
     Ok (join homedir ".depsonarrc.json")).
Proof.
  unfold saveConfig, bind, existsSync, readFileSync, liftO, parse, writeFileSync, ret.
  intros [[Hnone ->]|(text & t & Hfile & Hparse)].
  - rewrite Hnone. rewrite bool_decide_eq_false_2 by (by intros [? ?]).
    cbv beta iota. by rewrite Hnone.
  - rewrite Hfile. rewrite bool_decide_eq_true_2 by eauto.
    cbv beta iota. rewrite Hfile, Hparse. cbv beta iota. by rewrite Hfile.
Qed.

(** X20. [saveConfig] merges what it is given into the configuration
    file of the home directory and answers its path: in the document
    written, a property of the new configuration has its new value and
    every other property of the file has the value it had. When the file
    is there and its text is not JSON, [saveConfig] throws a [SyntaxError]
    and writes nothing. *)
Theorem saveConfig_spec (config : value) (s : State) :
  (forall text t,
      fs (world s) !! join homedir ".depsonarrc.json" = Some (File text t) ->
      JSON_parse text = None ->
      saveConfig config s = (s, Throw SyntaxError))
  /\ (forall existing,
        saved_before s existing ->
        exists s',
          saveConfig config s = (s', Ok (join homedir ".depsonarrc.json"))
          /\ fs (world s')
             = <[join homedir ".depsonarrc.json" :=
                   File (JSON_stringify (merge existing config) +:+ LF)
                        (clock (world s))]> (fs (world s)))
  /\ (forall props cprops k,
        JS.get (merge (VObj props) (VObj cprops)) k
        = match JS.lookup_prop k cprops with
          | Some v => Ok v
          | None => JS.get (VObj props) k
          end).
Proof.
  split; [|split].
  - intros text t Hfile Hparse.
    unfold saveConfig, bind, existsSync, readFileSync, liftO, parse.
    rewrite Hfile. rewrite bool_decide_eq_true_2 by eauto.
    cbv beta iota. by rewrite Hfile, Hparse.
  - intros existing Hbefore. eexists. split; [by apply saveConfig_writes|done].
  - intros props cprops k. rewrite merge_lookup, !lookup_spread_object.
    by destruct (JS.lookup_prop k cprops).
Qed.

(** X21. A projects directory that [saveConfig] saves is the one
    [loadConfig] then answers, resolved, whatever else the configuration
    file held before and whether the directory is there or not. It needs
    the runtime to parse the document it printed. *)
Theorem saveConfig_loadConfig (p : string) (existing : value) (s : State) :
  let config := VObj [("projectsDir", VStr p)] in
  let merged := merge existing config in
  Str.is_empty p = false ->
  saved_before s existing ->
  JSON_parse (JSON_stringify merged +:+ LF) = Some merged ->
  exists s' ip,
    saveConfig config s = (s', Ok (join homedir ".depsonarrc.json"))
    /\ loadConfig s' = (s', Ok (config_object (resolve p) ip)).
Proof.
  intros config merged Hne Hbefore Hcodec.
  rewrite (saveConfig_writes config existing s Hbefore). fold merged.
  destruct (loadConfig_facts
    {| world :=
         {| fs := <[join homedir ".depsonarrc.json" :=
                      File (JSON_stringify merged +:+ LF) (clock (world s))]>
                    (fs (world s));
            clock := clock (world s) |};
       trace := trace s |}) as (d & ip & Hl & Hfirst).
  eexists _, ip. split; [reflexivity|]. rewrite Hl.
  rewrite (Hfirst (JSON_stringify merged +:+ LF) (clock (world s)) merged p);
    [done| |done| |done].
  - cbn [world fs]. by rewrite lookup_insert_eq.
  - subst merged config. rewrite merge_lookup.
    change (spread (VObj [("projectsDir", VStr p)])) with [("projectsDir", VStr p)].
    done.
Qed.

End ConfigFacts.

(** ** Discovery of the projects *)

Section DiscoveryFacts.
Context {rt : Runtime} {pr : Process}.

Lemma getProjectInfo_reads (dir : string) : reads_only (getProjectInfo dir).
Proof.
  unfold getProjectInfo. apply reads_only_bind; [apply detect_in_reads|].
  intros lang. destruct (marker_of lang); [|reads].
  apply reads_only_bind; [reads|]. intros has. destruct (negb has); [reads|].
  apply reads_only_bind; [apply read_manifest_reads|]. intros m.
  apply reads_only_bind; [apply detectFramework_reads|]. intros fw.
  apply reads_only_bind; [|intros; reads].
  case_bool_decide; [apply detectPackageManager_reads|reads].
Qed.

Lemma getProjectInfo_returns (dir : string) : never_throws (getProjectInfo dir).
Proof.
  unfold getProjectInfo. apply never_throws_bind; [apply detect_in_returns|].
  intros lang. destruct (marker_of lang); [|returns].
  apply never_throws_bind; [returns|]. intros has. destruct (negb has); [returns|].
  apply never_throws_bind; [apply read_manifest_returns|]. intros m.
  apply never_throws_bind; [apply detectFramework_returns|]. intros fw.
  apply never_throws_bind; [|intros; returns].
  case_bool_decide; [apply detectPackageManager_returns|returns].
Qed.

Lemma collect_spec (dir : string) (entries : list string)
    (acc : list ProjectInfo) (s : State) :
  exists found,
    collect dir entries acc s = (s, Ok (acc ++ found)%list)
    /\ forall info,
         info ∈ found
         <-> exists entry_name,
               entry_name ∈ entries /\ eligible s dir entry_name = true
               /\ getProjectInfo (join dir entry_name) s = (s, Ok (Some info)).
Proof.
  revert acc. induction entries as [|entry_name rest IH]; intros acc; simpl.
  - exists []. rewrite app_nil_r. split; [done|]. intros info. split.
    + by intros ?%elem_of_nil.
    + intros (? & ?%elem_of_nil & _). done.
  - assert (Hskip : eligible s dir entry_name = false ->
              forall found : list ProjectInfo,
                (forall info,
                   info ∈ found
                   <-> exists n, n ∈ rest /\ eligible s dir n = true
                                 /\ getProjectInfo (join dir n) s = (s, Ok (Some info))) ->
                forall info,
                  info ∈ found
                  <-> exists n, n ∈ entry_name :: rest /\ eligible s dir n = true
                                /\ getProjectInfo (join dir n) s = (s, Ok (Some info))).
    { intros He found Hf info. rewrite Hf. split.
      - intros (n & Hn & ?). exists n. split; [by right|done].
      - intros (n & [->|Hn]%elem_of_cons & Hel & ?); [congruence|by exists n]. }
    unfold bind at 1, isDirectory at 1. unfold eligible in Hskip |- *.
    destruct (fs (world s) !! join dir entry_name) as [[text t|es t]|] eqn:Ef;
      cbn [negb andb] in *.
    1,3: destruct (IH acc) as (found & Hc & Hf); exists found;
         (split; [done|]); by apply Hskip.
    destruct (Str.startsWith "." entry_name) eqn:Edot; cbn [negb andb orb] in *.
    { destruct (IH acc) as (found & Hc & Hf). exists found.
      split; [done|]. by apply Hskip. }
    destruct (String.eqb entry_name "node_modules") eqn:Enm; cbn [negb andb orb] in *.
    { destruct (IH acc) as (found & Hc & Hf). exists found.
      split; [done|]. by apply Hskip. }
    destruct (returns_unchanged (getProjectInfo (join dir entry_name)) s
                (getProjectInfo_returns _) (getProjectInfo_reads _)) as [r Hr].
    unfold bind at 1, try_catch at 1. rewrite (bind_ok _ _ _ _ _ Hr).
    unfold ret at 1. cbv beta iota.
    destruct r as [info0|].
    + destruct (IH (acc ++ [info0])%list) as (found & Hc & Hf).
      exists (info0 :: found). rewrite <- app_assoc in Hc. split; [done|].
      intros info. rewrite elem_of_cons, Hf. split.
      * intros [->|(n & Hn & ?)].
        -- exists entry_name. split; [by left|]. by rewrite Ef, Edot, Enm.
        -- exists n. split; [by right|done].
      * intros (n & [->|Hn]%elem_of_cons & Hel & Hg).
        -- left. congruence.
        -- right. by exists n.
    + destruct (IH acc) as (found & Hc & Hf). exists found. split; [done|].
      intros info. rewrite Hf. split.
      * intros (n & Hn & ?). exists n. split; [by right|done].
      * intros (n & [->|Hn]%elem_of_cons & Hel & Hg); [congruence|by exists n].
Qed.

(** X22. The projects [discoverProjects] finds in a root directory are
    the records [getProjectInfo] makes of the entries of the root that it
    looks at: the directories whose name neither starts with a dot nor is
    [node_modules]. A plain file, a hidden directory and [node_modules] are
    never scanned, a directory without a marker file gives no project, and
    nothing else is left out. A root that is not a directory gives no
    project; the collection, before the sort by name, never throws and
    changes nothing. Without a root the directory of [getProjectsDir] is
    the root. *)
Theorem discovered_spec (root : string) (s : State) :
  Str.is_empty root = false ->
  exists found,
    discovered (Some root) s = (s, Ok found)
    /\ (forall info,
          info ∈ found
          <-> exists listing t entry_name,
                fs (world s) !! root = Some (Dir listing t)
                /\ entry_name ∈ listing /\ eligible s root entry_name = true
                /\ getProjectInfo (join root entry_name) s = (s, Ok (Some info)))
    /\ (forall d, getProjectsDir s = (s, Ok d) -> d = root ->
                  discovered None s = (s, Ok found)).
Proof.
  intros Hroot.
  assert (Hin : exists found,
    (let* there := existsSync root in
     if negb there then ret [] else
     try_catch (let* entries := readdirSync root in collect root entries [])
               (ret [])) s = (s, Ok found)
    /\ (forall info,
          info ∈ found
          <-> exists listing t entry_name,
                fs (world s) !! root = Some (Dir listing t)
                /\ entry_name ∈ listing /\ eligible s root entry_name = true
                /\ getProjectInfo (join root entry_name) s = (s, Ok (Some info)))).
  { unfold bind at 1, existsSync at 1, try_catch, readdirSync.
    destruct (fs (world s) !! root) as [[text t|listing t]|] eqn:Ef.
    - rewrite bool_decide_eq_true_2 by eauto. cbn [negb]. cbv beta iota.
      unfold bind. rewrite Ef. exists []. split; [done|]. intros info. split.
      + by intros ?%elem_of_nil.
      + by intros (? & ? & ? & ? & _).
    - rewrite bool_decide_eq_true_2 by eauto. cbn [negb]. cbv beta iota.
      unfold bind at 1. rewrite Ef.
      destruct (collect_spec root listing [] s) as (found & -> & Hf).
      exists found. split; [done|]. intros info. rewrite Hf. split.
      + intros (n & ? & ? & ?). by exists listing, t, n.
      + intros (? & ? & n & [= <- <-] & ? & ? & ?). by exists n.
    - rewrite bool_decide_eq_false_2 by (by intros [? ?]). cbn [negb].
      exists []. split; [done|]. intros info. split.
      + by intros ?%elem_of_nil.
      + by intros (? & ? & ? & ? & _). }
  destruct Hin as (found & Hrun & Hf). exists found. split; [|split; [done|]].
  - unfold discovered. rewrite Hroot. unfold bind at 1, ret at 1. exact Hrun.
  - intros d Hd ->. unfold discovered. by rewrite (bind_ok _ _ _ _ _ Hd).
Qed.

End DiscoveryFacts.

(** ** Matching a text piece by piece *)

Lemma match_here_rep (cls : ascii -> bool) (min : nat) (cap : bool)
    (rest : list Regex.atom) (s : string) :
  Regex.match_here (Regex.Rep cls min cap :: rest) s
  = give_back cls min cap rest s (Regex.run_length cls s).
Proof.
  cbn [Regex.match_here]. generalize (Regex.run_length cls s) as k.
  induction k as [|k IH]; simpl; [done|]. by rewrite IH.
Qed.

Lemma give_back_here (cls : ascii -> bool) (min : nat) (cap : bool)
    (rest : list Regex.atom) (s : string) (k : nat) (caps : list string) (n : nat) :
  (min <= k)%nat ->
  Regex.match_here rest (Str.drop k s) = Some (caps, n) ->
  give_back cls min cap rest s k
  = Some (if cap then Str.take k s :: caps else caps, (k + n)%nat).
Proof.
  intros Hmin Hrest. destruct k; simpl in *.
  - assert (min = 0)%nat as -> by lia. simpl. by rewrite Hrest.
  - destruct (Nat.leb_spec min (S k)); [|lia]. by rewrite Hrest.
Qed.

Lemma give_back_skip (cls : ascii -> bool) (min : nat) (cap : bool)
    (rest : list Regex.atom) (s : string) (k : nat) :
  Regex.match_here rest (Str.drop (S k) s) = None ->
  give_back cls min cap rest s (S k) = give_back cls min cap rest s k.
Proof.
  intros Hrest. cbn [give_back]. rewrite Hrest. simpl.
  by destruct (min <=? S k)%nat.
Qed.

Lemma run_length_append (cls : ascii -> bool) (a s : string) :
  all_in cls a = true -> starts_in cls s = false ->
  Regex.run_length cls (a +:+ s) = String.length a.
Proof.
  unfold all_in. induction a as [|c a IH]; simpl.
  - intros _. destruct s as [|d s]; simpl; [done|]. by intros ->.
  - intros [-> Ha]%andb_true_iff Hs. by rewrite IH.
Qed.

Lemma drop_append (a s : string) : Str.drop (String.length a) (a +:+ s) = s.
Proof. induction a as [|c a IH]; simpl; [by destruct s|done]. Qed.

Lemma take_append (a s : string) : Str.take (String.length a) (a +:+ s) = a.
Proof. induction a as [|c a IH]; simpl; [by destruct s|by rewrite IH]. Qed.

Lemma prefix_of_append (a s : string) : String.prefix a (a +:+ s) = true.
Proof.
  induction a as [|c a IH]; [apply prefix_empty|].
  change (String c a +:+ s) with (String c (a +:+ s)).
  by rewrite prefix_char, Ascii.eqb_refl, IH.
Qed.

(** A literal matches in front of what the rest matches. *)
Lemma match_lit (l : string) (rest : list Regex.atom) (s : string)
    (caps : list string) (n : nat) :
  Regex.match_here rest s = Some (caps, n) ->
  Regex.match_here (Regex.Lit l :: rest) (l +:+ s)
  = Some (caps, (String.length l + n)%nat).
Proof.
  intros Hrest. cbn [Regex.match_here].
  by rewrite prefix_of_append, drop_append, Hrest.
Qed.

(** A repetition takes its whole run when the rest matches after it. *)
Lemma match_rep_run (cls : ascii -> bool) (min : nat) (cap : bool)
    (rest : list Regex.atom) (a s : string) (caps : list string) (n : nat) :
  all_in cls a = true -> starts_in cls s = false ->
  (min <= String.length a)%nat ->
  Regex.match_here rest s = Some (caps, n) ->
  Regex.match_here (Regex.Rep cls min cap :: rest) (a +:+ s)
  = Some (if cap then a :: caps else caps, (String.length a + n)%nat).
Proof.
  intros Ha Hs Hmin Hrest.
  rewrite match_here_rep, run_length_append by done.
  rewrite (give_back_here _ _ _ _ _ _ caps n); [by rewrite take_append|done|].
  by rewrite drop_append.
Qed.

(** A repetition gives back the last character of its run when the rest
    only matches from there. *)
Lemma match_rep_back (cls : ascii -> bool) (min : nat) (cap : bool)
    (rest : list Regex.atom) (a : string) (c : ascii) (s : string)
    (caps : list string) (n : nat) :
  all_in cls a = true -> cls c = true -> starts_in cls s = false ->
  (min <= String.length a)%nat ->
  Regex.match_here rest s = None ->
  Regex.match_here rest (String c s) = Some (caps, n) ->
  Regex.match_here (Regex.Rep cls min cap :: rest) (a +:+ String c s)
  = Some (if cap then a :: caps else caps, (String.length a + n)%nat).
Proof.
  intros Ha Hc Hs Hmin Hnone Hrest.
  assert (Hrun : Regex.run_length cls (a +:+ String c s) = S (String.length a)).
  { change (String c s) with (String c EmptyString +:+ s).
    rewrite <- append_assoc, run_length_append; [| |done].
    - rewrite length_append. simpl. lia.
    - unfold all_in in *. clear -Ha Hc.
      induction a as [|x a IH]; simpl in *; [by rewrite Hc|].
      apply andb_true_iff in Ha as [-> Ha]. by apply IH. }
  rewrite match_here_rep, Hrun, give_back_skip.
  - rewrite (give_back_here _ _ _ _ _ _ caps n); [by rewrite take_append|done|].
    by rewrite drop_append.
  - change (String c s) with (String c EmptyString +:+ s).
    rewrite <- append_assoc.
    replace (S (String.length a)) with (String.length (a +:+ String c EmptyString))
      by (rewrite length_append; simpl; lia).
    by rewrite drop_append.
Qed.

Lemma match_rep_end (cls : ascii -> bool) (min : nat) (cap : bool) (a : string) :
  all_in cls a = true -> (min <= String.length a)%nat ->
  Regex.match_here [Regex.Rep cls min cap] a
  = Some (if cap then [a] else [], (String.length a + 0)%nat).
Proof.
  intros Ha Hmin. rewrite <- (append_empty_r a) at 1.
  by apply match_rep_run.
Qed.

Lemma search_from_here (r : list Regex.atom) (i : nat) (s : string)
    (caps : list string) (n : nat) :
  Regex.match_here r s = Some (caps, n) ->
  Regex.search_from r i s = Some (i, caps, n).
Proof. intros H. destruct s; simpl; by rewrite H. Qed.

Lemma all_in_append (cls : ascii -> bool) (a b : string) :
  all_in cls a = true -> all_in cls b = true -> all_in cls (a +:+ b) = true.
Proof.
  unfold all_in. induction a as [|c a IH]; simpl; [done|].
  intros [-> Ha]%andb_true_iff Hb. by apply IH.
Qed.

Lemma starts_outside_space (a s : string) :
  all_in not_space a = true -> a <> EmptyString ->
  starts_in Str.is_space (a +:+ s) = false.
Proof.
  unfold all_in, not_space. destruct a as [|c a]; [done|]. simpl.
  intros [Hc _]%andb_true_iff _. by apply negb_true_iff.
Qed.

(** X23. A line of [bundle outdated --parseable], the name of a gem, then
    between parentheses the newest version, a comma and the installed
    version, gives an entry under the name of the gem whose wanted and latest
    versions are the newest version, and whose current version is the
    installed version with the closing parenthesis of the line: the
    expression takes every character after [installed] that is not white
    space. *)
Theorem gem_line_keeps_parenthesis (result : list (string * value))
    (gem newest installed : string) :
  all_in not_space gem = true -> gem <> EmptyString ->
  all_in not_space newest = true -> newest <> EmptyString ->
  all_in not_space installed = true ->
  gem_line result
    (gem +:+ " (newest " +:+ newest +:+ ", installed " +:+ installed +:+ ")")
  = JS.set_prop gem
      (entry (VStr (installed +:+ ")")) (VStr newest) (VStr newest)) result.
Proof.
  intros Hg Hgne Hn Hnne Hi.
  set (s10 := installed +:+ ")").
  assert (Hs10 : all_in not_space s10 = true) by (by apply all_in_append).
  assert (Hs10' : starts_in Str.is_space s10 = false).
  { subst s10. destruct installed as [|c i]; [done|].
    by apply (starts_outside_space (String c i)). }
  assert (Hs10len : (1 <= String.length s10)%nat).
  { subst s10. rewrite length_append. simpl. lia. }
  pose proof (match_rep_end not_space 1 true s10 Hs10 Hs10len) as H10.
  set (s9 := " " +:+ s10). set (s8 := "installed" +:+ s9).
  set (s7 := " " +:+ s8). set (s6 := "," +:+ s7).
  set (s5 := newest +:+ s6). set (s4 := " " +:+ s5).
  set (s3 := "(newest" +:+ s4). set (s2 := " " +:+ s3).
  pose proof (match_rep_run Str.is_space 1 false _ " " s10 _ _
                eq_refl Hs10' (le_n 1) H10) as H9.
  pose proof (match_lit "installed" _ s9 _ _ H9) as H8.
  pose proof (match_rep_run Str.is_space 1 false _ " " s8 _ _
                eq_refl eq_refl (le_n 1) H8) as H7.
  pose proof (match_lit "," _ s7 _ _ H7) as H6.
  assert (Hnlen : (1 <= String.length newest)%nat).
  { destruct newest; [done|]. simpl. lia. }
  pose proof (fun Hnone => match_rep_back not_space 1 true _ newest ","%char s7 _ _
                              Hn eq_refl eq_refl Hnlen Hnone H6) as H5.
  specialize (H5 eq_refl).
  pose proof (match_rep_run Str.is_space 1 false _ " " s5 _ _
                eq_refl (starts_outside_space newest _ Hn Hnne) (le_n 1) H5) as H4.
  pose proof (match_lit "(newest" _ s4 _ _ H4) as H3.
  pose proof (match_rep_run Str.is_space 1 false _ " " s3 _ _
                eq_refl eq_refl (le_n 1) H3) as H2.
  assert (Hglen : (1 <= String.length gem)%nat).
  { destruct gem; [done|]. simpl. lia. }
  pose proof (match_rep_run not_space 1 true _ gem s2 _ _
                Hg eq_refl Hglen H2) as H1.
  change (gem +:+ " (newest " +:+ newest +:+ ", installed " +:+ installed +:+ ")")
    with (gem +:+ s2).
  unfold gem_line, Regex.exec, re_gem. cbn [Regex.anchored Regex.atoms].
  by rewrite (search_from_here _ _ _ _ _ H1).
Qed.

(** ** The key of a Go module *)

Lemma split_char_whole (d : ascii) (acc u : string) :
  all_in (fun c => negb (Ascii.eqb c d)) u = true ->
  Str.split_aux (String d EmptyString) 0 acc u = [acc +:+ u].
Proof.
  revert acc. induction u as [|c u IH]; intros acc Hall.
  - simpl. by rewrite append_empty_r.
  - unfold all_in in Hall. simpl in Hall.
    apply andb_true_iff in Hall as [Hc Hu]. apply negb_true_iff in Hc.
    cbn [Str.split_aux].
    rewrite prefix_char, prefix_empty, andb_true_r, (Ascii.eqb_sym d c), Hc.
    rewrite IH by done. by rewrite append_assoc.
Qed.

Lemma split_char_app (d : ascii) (acc a v : string) :
  Str.split_aux (String d EmptyString) 0 acc (a +:+ String d v)
  = (Str.split_aux (String d EmptyString) 0 acc a
     ++ Str.split_aux (String d EmptyString) 0 EmptyString v)%list.
Proof.
  revert acc. induction a as [|c a IH]; intros acc.
  - change (EmptyString +:+ String d v) with (String d v). cbn [Str.split_aux].
    by rewrite prefix_char, prefix_empty, Ascii.eqb_refl.
  - change (String c a +:+ String d v) with (String c (a +:+ String d v)).
    cbn [Str.split_aux]. rewrite !prefix_char, !prefix_empty, !andb_true_r.
    destruct (Ascii.eqb d c); simpl; by rewrite IH.
Qed.

Lemma last_n_two {A} (l : list A) (x y : A) : Str.last_n 2 (l ++ [x; y]) = [x; y].
Proof.
  unfold Str.last_n. rewrite length_app. simpl.
  replace (length l + 2 - 2)%nat with (length l) by lia.
  by rewrite skipn_app, skipn_all, Nat.sub_diag.
Qed.

Lemma slash_inside (x y : string) : all_in not_slash (x +:+ "/" +:+ y) = false.
Proof.
  unfold all_in. induction x as [|c x IH]; [done|].
  change (String c x +:+ "/" +:+ y) with (String c (x +:+ "/" +:+ y)).
  cbn [list_ascii_of_string forallb]. rewrite IH. apply andb_false_r.
Qed.

Lemma key_not_proto (x y : string) : x +:+ "/" +:+ y <> "__proto__".
Proof.
  intros H. pose proof (slash_inside x y) as Hs. rewrite H in Hs. by vm_compute in Hs.
Qed.

Section GoKey.
Context {rt : Runtime}.

(** X24. The key of a Go module is made of the last two segments of its
    path; a path of one or two segments is its own key. So two modules
    whose paths end in the same two segments have the same key, and of two
    such modules with an update, listed one after the other (in
    fragments that do not end in a closing brace), only the entry of the
    second is in the mapping. *)
Theorem go_key_last_two (front x y : string) :
  all_in not_slash x = true -> all_in not_slash y = true ->
  go_key (front +:+ "/" +:+ x +:+ "/" +:+ y) = x +:+ "/" +:+ y
  /\ go_key (x +:+ "/" +:+ y) = x +:+ "/" +:+ y
  /\ go_key x = x
  /\ (forall front' f1 f2 v1 n1 v2 n2,
        go_well_formed f1 v1 n1 (front +:+ "/" +:+ x +:+ "/" +:+ y) ->
        go_well_formed f2 v2 n2 (front' +:+ "/" +:+ x +:+ "/" +:+ y) ->
        Str.endsWith "}" (Str.trim f1) = false ->
        Str.endsWith "}" (Str.trim f2) = false ->
        fold_left go_fragment [f1; f2] []
        = [(x +:+ "/" +:+ y, entry v2 n2 n2)]).
Proof.
  intros Hx Hy.
  assert (Hxy : Str.split "/" (x +:+ "/" +:+ y) = [x; y]).
  { unfold Str.split. change ("/" +:+ y) with (String "/"%char y).
    rewrite split_char_app, !split_char_whole by done. done. }
  assert (Hkey : forall a, go_key (a +:+ "/" +:+ x +:+ "/" +:+ y) = x +:+ "/" +:+ y).
  { intros a. unfold go_key, Str.split.
    change ("/" +:+ x +:+ "/" +:+ y) with (String "/"%char (x +:+ "/" +:+ y)).
    rewrite split_char_app. fold (Str.split "/" (x +:+ "/" +:+ y)).
    by rewrite Hxy, last_n_two. }
  split; [apply Hkey|]. split; [|split].
  - unfold go_key. by rewrite Hxy.
  - unfold go_key, Str.split. rewrite split_char_whole by done. done.
  - intros front' f1 f2 v1 n1 v2 n2 H1 H2 E1 E2.
    apply go_update_well_formed in H1, H2; [|done|done]. rewrite Hkey in H1, H2.
    cbn [fold_left]. unfold go_fragment. rewrite H1. cbv beta iota. rewrite H2.
    unfold JS.set_prop.
    rewrite (proj2 (String.eqb_neq _ _) (key_not_proto x y)).
    cbn [JS.define_prop]. by rewrite String.eqb_refl.
Qed.

End GoKey.

(** ** The score of the scan and the score of the report *)

(** X25. For the same counts the score of the background scan is never
    below the score of the health report, as long as the security count is
    a number that is not negative, and the two are equal when a lockfile is
    there and no security issue is counted. *)
Theorem scan_score_above_health (o m : Z) (lock : bool) (sec : Z) :
  0 <= sec ->
  exists h,
    health_score o m lock (JS.ONum sec) = JS.Int h
    /\ h <= scan_score o m
    /\ (lock = true -> sec = 0 -> h = scan_score o m).
Proof.
  intros Hsec. rewrite health_score_spec. eexists. split; [done|].
  unfold spec_score, scan_score. destruct lock; simpl; split; lia.
Qed.


(** ** The commands a resolver runs *)

Ltac looked :=
  unfold after_exec;
  eexists _, _; split; [reflexivity|]; split;
  [simpl; rewrite <- ?app_assoc; first [reflexivity|symmetry; apply app_nil_r]|];
  split;
  [repeat match goal with |- Forall _ _ => constructor end;
   repeat match goal with
     | |- context [if ?b then _ else _] => destruct b
     end;
   first [reflexivity
         |split; [reflexivity|];
          unfold LISTING_COMMANDS; repeat (first [left; reflexivity|right])]
  |reflexivity || (unfold runs; simpl; lia)].

Section CommandFacts.
Context {rt : Runtime}.

Lemma getOutdatedNpm_looks path pm s :
  post (getOutdatedNpm path pm) s (only_looked path s).
Proof. unfold getOutdatedNpm. destruct pm. all: wp. all: looked. Qed.

Lemma getOutdatedPip_looks path s :
  post (getOutdatedPip path) s (only_looked path s).
Proof. unfold getOutdatedPip. wp. all: looked. Qed.

Lemma getOutdatedCargo_looks path s :
  post (getOutdatedCargo path) s (only_looked path s).
Proof. unfold getOutdatedCargo. wp. all: looked. Qed.

Lemma getOutdatedGo_looks path s :
  post (getOutdatedGo path) s (only_looked path s).
Proof. unfold getOutdatedGo. wp. all: looked. Qed.

Lemma getOutdatedComposer_looks path s :
  post (getOutdatedComposer path) s (only_looked path s).
Proof. unfold getOutdatedComposer. wp. all: looked. Qed.

Lemma getOutdatedGem_looks path s :
  post (getOutdatedGem path) s (only_looked path s).
Proof. unfold getOutdatedGem. wp. all: looked. Qed.

Lemma getOutdatedPub_looks path s :
  post (getOutdatedPub path) s (only_looked path s).
Proof. unfold getOutdatedPub. wp. all: looked. Qed.

Lemma getOutdatedSwift_looks path s :
  post (getOutdatedSwift path) s (only_looked path s).
Proof. unfold getOutdatedSwift. wp. all: looked. Qed.

Lemma getOutdatedGradle_looks path s :
  post (getOutdatedGradle path) s (only_looked path s).
Proof. unfold getOutdatedGradle. wp. all: looked. Qed.

Lemma getOutdated_looks path info s :
  post (getOutdated path info) s (only_looked path s).
Proof.
  rewrite getOutdated_dispatch.
  destruct (language info);
    eauto using getOutdatedNpm_looks, getOutdatedPip_looks,
      getOutdatedCargo_looks, getOutdatedGo_looks,
      getOutdatedComposer_looks, getOutdatedGem_looks,
      getOutdatedPub_looks, getOutdatedSwift_looks,
      getOutdatedGradle_looks.
Qed.

(** X26. Whatever the project and the tools, [getOutdated] returns
    having only looked: every call it made is a probe [which ...] or one
    of the listing commands, run in the directory of the project, and it
    ran one command at most. No install, update or clean command is ever
    run by the resolver. *)
Theorem getOutdated_only_looks (path : string) (info : ProjectInfo) (s : State) :
  exists s' mapping t,
    getOutdated path info s = (s', Ok mapping)
    /\ trace s' = (trace s ++ t)%list
    /\ Forall (looks_only path) t
    /\ (runs t <= 1)%nat.
Proof.
  pose proof (getOutdated_looks path info s) as H. unfold post, only_looked in H.
  destruct (getOutdated path info s) as [s' o]. simpl in H.
  destruct H as (mapping & t & -> & H). by exists s', mapping, t.
Qed.

Lemma runs_app (t u : list event) : runs (t ++ u) = (runs t + runs u)%nat.
Proof. unfold runs. by rewrite List.filter_app, length_app. Qed.

Lemma scan_project_looks (info : ProjectInfo) (s : State) :
  exists s' r t,
    scan_project info s = (s', Ok r)
    /\ trace s' = (trace s ++ t)%list
    /\ Forall (looks_only (pi_path info)) t
    /\ (runs t <= 1)%nat.
Proof.
  pose proof (getOutdated_looks (pi_path info) info s) as H.
  unfold post, only_looked in H.
  destruct (getOutdated (pi_path info) info s) as [s1 o] eqn:E. simpl in H.
  destruct H as (mapping & t & -> & Ht & Hl & Hr).
  unfold scan_project, try_catch, bind, liftO, Date_now, ret. rewrite E.
  repeat case_match; simplify_eq; by eexists _, _, t.
Qed.

Lemma scan_projects_looks (projects : list ProjectInfo) (acc : list CacheEntry)
    (s : State) :
  exists s' entries t,
    scan_projects projects acc s = (s', Ok entries)
    /\ trace s' = (trace s ++ t)%list
    /\ Forall (fun e => exists info, In info projects /\ looks_only (pi_path info) e) t
    /\ (runs t <= length projects)%nat.
Proof.
  revert acc s. induction projects as [|info rest IH]; intros acc s; simpl.
  - exists s, acc, []. rewrite app_nil_r. by repeat split.
  - destruct (scan_project_looks info s) as (s1 & r & t1 & E & Ht1 & Hl1 & Hr1).
    unfold bind. rewrite E.
    destruct (IH (match r with Some e => (acc ++ [e])%list | None => acc end) s1)
      as (s2 & entries & t2 & -> & Ht2 & Hl2 & Hr2).
    exists s2, entries, (t1 ++ t2)%list. split; [done|]. split.
    { by rewrite Ht2, Ht1, <- app_assoc. }
    split.
    + apply Forall_app. split.
      * eapply Forall_impl; [exact Hl1|]. intros e He. exists info. split; [by left|done].
      * eapply Forall_impl; [exact Hl2|]. intros e (i & Hi & He). exists i.
        split; [by right|done].
    + rewrite runs_app. lia.
Qed.

(** X27. The scan of the checker, from its loop over the projects to the
    first write of the cache, only looks as well: whether it returns or
    the write throws, every call it made is a probe or a listing command
    run in the directory of one of the projects, and it ran one command
    per project at most. *)
Theorem scan_only_looks (projects : list ProjectInfo) (s : State) :
  exists s' o t,
    scan projects s = (s', o)
    /\ trace s' = (trace s ++ t)%list
    /\ Forall (fun e => exists info, In info projects /\ looks_only (pi_path info) e) t
    /\ (runs t <= length projects)%nat.
Proof.
  unfold scan. destruct projects as [|info rest].
  { exists s, (Ok []), []. rewrite app_nil_r. by repeat split. }
  destruct (scan_projects_looks (info :: rest) [] s)
    as (s1 & entries & t & E & Ht & Hl & Hr).
  unfold bind. rewrite E.
  unfold writeCache, bind, Date_now, writeFileSync.
  repeat case_match; simplify_eq; by eexists _, _, t.
Qed.

End CommandFacts.

(** * Examples for the further properties *)

Lemma computeHealthReport_recommendations_audited :
  exists s' r,
    @computeHealthReport audited_runtime audited_project audited_state = (s', Ok r)
    /\ recommendations r
       = [ "Missing lockfile. Run install to generate one.";
           "1 major update(s). Review changelogs before updating.";
           "2 security issue(s). Run audit fix." ]
    /\ 0 <= majorUpdates r <= outdatedCount r
    /\ ("Missing lockfile. Run install to generate one." ∈ recommendations r
        <-> lockfileExists r = false).
Proof.
  eexists _, _. split; [vm_compute; reflexivity|]. split; [vm_compute; reflexivity|].
  refine ((fun H => conj (proj1 H) (proj1 (proj2 (proj2 H))))
            (@computeHealthReport_recommendations audited_runtime audited_project
               audited_state _ _ 2 _ _)).
  - vm_compute. reflexivity.
  - reflexivity.
Defined.

Lemma buildUpdateCommand_non_node_cargo :
  buildUpdateCommand cargo_project (Some "serde") "latest"
  = buildUpdateCommand cargo_project None "latest".
Proof.
  refine (proj1 (proj2 (buildUpdateCommand_non_node cargo_project cargo_project
                          (Some "serde") None "latest" "latest" _ eq_refl)) _).
  - vm_compute. discriminate.
  - vm_compute. discriminate.
Defined.

Lemma getOutdated_wanted_is_latest_pip :
  entries_satisfy wanted_is_latest
    (VObj [("requests", entry (VStr "2.31.0") (VStr "2.31.0") (VStr "2.31.0"))]).
Proof.
  refine (@getOutdated_wanted_is_latest unguarded_runtime "/p/app"
            (demo_project "/p/app" python npm) unguarded_state
            (@getOutdated unguarded_runtime "/p/app" (demo_project "/p/app" python npm)
               unguarded_state).1 _ _ _).
  - vm_compute. reflexivity.
  - apply elem_of_cons. left. reflexivity.
Defined.

Lemma ruby_report_returns_rake :
  exists s' r,
    @computeHealthReport unguarded_runtime (demo_project "/p/app" ruby npm)
      unguarded_state = (s', Ok r).
Proof.
  exact (proj1 (@ruby_report_returns unguarded_runtime (demo_project "/p/app" ruby npm)
                  unguarded_state eq_refl)).
Defined.

Lemma getOutdatedNpm_passes_through_null :
  exists s1,
    @getOutdated null_runtime "/p/app" bare_project bare_state = (s1, Ok VNull)
    /\ @computeHealthReport null_runtime bare_project bare_state = (s1, Throw TypeError)
    /\ @scan_project null_runtime bare_project bare_state = (s1, Ok None).
Proof.
  destruct (@getOutdatedNpm_passes_through null_runtime bare_project bare_state
              (Exited "null") (world bare_state) "null" VNull)
    as [Hget Hnull].
  - reflexivity.
  - reflexivity.
  - reflexivity.
  - reflexivity.
  - vm_compute. reflexivity.
  - discriminate.
  - eexists. split; [exact Hget|]. exact (Hnull eq_refl).
Defined.

Lemma getProjectInfo_record_pnpm :
  exists info,
    @getProjectInfo pnpm_runtime "/p/web" pnpm_state = (pnpm_state, Ok (Some info))
    /\ packageManager info = pnpm.
Proof.
  eexists. split; [vm_compute; reflexivity|].
  refine (eq_trans (proj1 (@getProjectInfo_record pnpm_runtime "/p/web" pnpm_state
                             pnpm_state _ _)) _).
  - vm_compute. reflexivity.
  - vm_compute. reflexivity.
Defined.


Lemma saveConfig_loadConfig_work :
  exists s' ip,
    @saveConfig bare_runtime (VObj [("projectsDir", VStr "/work")]) bare_state
    = (s', Ok "/home/dev/.depsonarrc.json")
    /\ @loadConfig bare_runtime bare_process s'
       = (s', Ok (config_object "/work" ip)).
Proof.
  refine (@saveConfig_loadConfig bare_runtime bare_process "/work" empty_object
            bare_state _ _ _).
  - reflexivity.
  - left. split; [vm_compute; reflexivity|reflexivity].
  - vm_compute. reflexivity.
Defined.

Lemma discovered_spec_workspace :
  exists found,
    @discovered bare_runtime bare_process (Some "/work") workspace_state
    = (workspace_state, Ok found)
    /\ length found = 1%nat.
Proof.
  destruct (@discovered_spec bare_runtime bare_process "/work" workspace_state eq_refl)
    as (found & Hrun & _).
  exists found. split; [exact Hrun|].
  vm_compute in Hrun. injection Hrun as <-. reflexivity.
Defined.

Lemma gem_line_keeps_parenthesis_rake :
  @gem_line [] "rake (newest 13.0.6, installed 12.3.3)"
  = [("rake", entry (VStr "12.3.3)") (VStr "13.0.6") (VStr "13.0.6"))].
Proof.
  refine (eq_trans (gem_line_keeps_parenthesis [] "rake" "13.0.6" "12.3.3" _ _ _ _ _) _).
  - reflexivity.
  - discriminate.
  - reflexivity.
  - discriminate.
  - reflexivity.
  - reflexivity.
Defined.

Lemma go_key_last_two_errors :
  go_key "github.com/pkg/errors" = "pkg/errors".
Proof.
  exact (proj1 (@go_key_last_two bare_runtime "github.com" "pkg" "errors"
                  eq_refl eq_refl)).
Defined.

Lemma scan_score_above_health_example :
  exists h,
    health_score 2 1 false (JS.ONum 2) = JS.Int h /\ h <= scan_score 2 1.
Proof.
  destruct (scan_score_above_health 2 1 false 2) as (h & Hh & Hle & _).
  - discriminate.
  - exists h. split; [exact Hh|exact Hle].
Defined.

Lemma readCache_null_absent :
  exists v, @readCache bare_runtime bare_state = (bare_state, Ok v) /\ v = VNull.
Proof.
  destruct (@readCache_null bare_runtime bare_state) as (v & Hrun & Hnone & _).
  exists v. split; [exact Hrun|]. apply Hnone.
  intros (text & t & H). vm_compute in H. discriminate.
Defined.

Lemma writeCache_frame_bare :
  exists s1,
    @writeCache bare_runtime demo_entries bare_state = (s1, Ok tt)
    /\ trace s1 = trace bare_state.
Proof.
  destruct (proj2 (@writeCache_frame bare_runtime demo_entries [] bare_state))
    as (s1 & s2 & s2' & H1 & _ & _ & Ht & _).
  - intros es t. vm_compute. discriminate.
  - exists s1. split; [exact H1|exact Ht].
Defined.

Lemma readCacheFile_ignores_age_stale :
  exists v w,
    @readCache bare_runtime stale_state = (stale_state, Ok v)
    /\ @readCacheFile bare_runtime stale_state = (stale_state, Ok w)
    /\ v = VNull /\ w = VObj [].
Proof.
  destruct (@readCacheFile_ignores_age bare_runtime stale_state)
    as (v & w & H1 & H2 & _ & _ & Hfile).
  exists v, w. split; [exact H1|]. split; [exact H2|]. split.
  - vm_compute in H1. injection H1 as <-. reflexivity.
  - exact (Hfile "{}" 0 eq_refl).
Defined.

Lemma getFrameworkVersion_spec_react :
  getFrameworkVersion react_project = VStr "^18.2.0".
Proof.
  refine (proj1 (proj2 (getFrameworkVersion_spec react_project))
            "React" "react" [("react", VStr "^18.2.0")] (VStr "^18.2.0") _ _ _ _ _).
  - do 3 (apply elem_of_cons; right). apply elem_of_cons. left. reflexivity.
  - reflexivity.
  - reflexivity.
  - reflexivity.
  - reflexivity.
Defined.

Lemma isMajorUpdate_algebra_caret :
  isMajorUpdate "^1.2.0" "2.0.0" = isMajorUpdate "1.2.0" "2.0.0".
Proof.
  exact (proj1 (proj2 (proj2 (isMajorUpdate_algebra "1.2.0" "2.0.0" "^"
                                EmptyString EmptyString))) eq_refl).
Defined.

Lemma detectFramework_spec_cargo :
  exists fw,
    @detectFramework bare_runtime "/p/crate" cargo_state = (cargo_state, Ok fw)
    /\ fw = "Rust".
Proof.
  destruct (@detectFramework_spec bare_runtime "/p/crate" cargo_state)
    as (fw & Hrun & _ & _ & _ & Hlang).
  exists fw. split; [exact Hrun|].
  refine (Hlang rust _ _ _ _ eq_refl).
  - vm_compute. reflexivity.
  - vm_compute. reflexivity.
  - discriminate.
Defined.

Lemma ecosystem_of_first_match_vitest : ecosystem_of "vitest" = "vite".
Proof.
  exact (proj1 (proj2 (ecosystem_of_first_match "vitest")) eq_refl).
Defined.

Lemma truncate_bound_short : truncate "3 packages outdated" = "3 packages outdated".
Proof.
  refine (proj1 (proj2 (truncate_bound "3 packages outdated")) _).
  vm_compute. discriminate.
Defined.

Lemma getProjectsDir_spec_configured :
  exists d,
    @getProjectsDir bare_runtime bare_process configured_state
    = (configured_state, Ok d)
    /\ d = "/work".
Proof.
  destruct (@getProjectsDir_spec bare_runtime bare_process configured_state)
    as (d & Hrun & _ & Hconfig & _).
  exists d. split; [exact Hrun|].
  refine (Hconfig _ 0 _ "/work" eq_refl _ _ eq_refl _).
  - vm_compute. reflexivity.
  - reflexivity.
  - vm_compute. reflexivity.
Defined.

Lemma loadConfig_keys_configured :
  exists d ip,
    @loadConfig bare_runtime bare_process configured_state
    = (configured_state, Ok (config_object d ip))
    /\ d = "/work"
    /\ @autoUpdate_list bare_runtime bare_process configured_state
       = (configured_state, Ok (VArr [])).
Proof.
  destruct (@loadConfig_keys bare_runtime bare_process configured_state)
    as (d & ip & Hrun & _ & Hauto & Hd).
  exists d, ip. split; [exact Hrun|]. split; [|exact Hauto].
  refine (Hd _ 0 _ "/work" eq_refl _ _ eq_refl).
  - vm_compute. reflexivity.
  - reflexivity.
Defined.

Lemma saveConfig_spec_bare :
  exists s',
    @saveConfig bare_runtime (VObj [("projectsDir", VStr "/work")]) bare_state
    = (s', Ok "/home/dev/.depsonarrc.json").
Proof.
  destruct (proj1 (proj2 (@saveConfig_spec bare_runtime
                            (VObj [("projectsDir", VStr "/work")]) bare_state))
              empty_object)
    as (s' & Hrun & _).
  - left. split; [vm_compute; reflexivity|reflexivity].
  - exists s'. exact Hrun.
Defined.

Lemma getSecurityIssues_counts_swift :
  @getSecurityIssues swift_runtime "/p/pkg" swift_project swift_state
  = (swift_state, Ok (JS.ONum 0)).
Proof.
  destruct (@getSecurityIssues_counts swift_runtime "/p/pkg" swift_project swift_state)
    as (s' & o & Hrun & _ & Hnone).
  destruct Hnone as [-> ->].
  - apply elem_of_cons. right. apply elem_of_cons. left. reflexivity.
  - exact Hrun.
Defined.
